(** * Soong path namespace, install destinations and the apex key manifest

    A shallow embedding of [android/paths.go], of the install-directory
    logic of the Android app module type and of the [apex_keys_text]
    singleton, together with the properties stated for them.

    Go strings are byte sequences and are modelled by [string]; slices by
    [list]; a function returning [(value, error)] returns a pair whose
    second component is an [option]; a function that reports through the
    context or panics runs in the small monad [M] below. *)

From Stdlib Require Import String Ascii List Bool Arith Lia.
From stdpp Require Import base decidable option list strings.

Import ListNotations.
Local Open Scope list_scope.

(** ** Go string primitives *)

Module GoStrings.

Definition slash : ascii := "/"%char.

(** [strings.HasPrefix]. *)
Fixpoint HasPrefix (s prefix : string) {struct prefix} : bool :=
  match prefix with
  | EmptyString => true
  | String p prefix' =>
      match s with
      | EmptyString => false
      | String c s' => if Ascii.eqb c p then HasPrefix s' prefix' else false
      end
  end.

(** [strings.Contains]. *)
Fixpoint Contains (s substr : string) : bool :=
  HasPrefix s substr ||
  match s with
  | EmptyString => false
  | String _ s' => Contains s' substr
  end.

(** [strings.ContainsAny]: does [s] hold one of the bytes of [chars]. *)
Fixpoint ContainsAny (s chars : string) : bool :=
  match s with
  | EmptyString => false
  | String c s' =>
      existsb (Ascii.eqb c) (list_ascii_of_string chars) || ContainsAny s' chars
  end.

(** [strings.Split(s, "/")]: the elements between separators; the empty
    string has the single element [""]. *)
Fixpoint split (s : string) : list string :=
  match s with
  | EmptyString => [EmptyString]
  | String c s' =>
      if Ascii.eqb c slash then EmptyString :: split s'
      else match split s' with
           | [] => [String c EmptyString]
           | e :: es => String c e :: es
           end
  end.

(** [strings.Join(elems, "/")]. *)
Fixpoint join (elems : list string) : string :=
  match elems with
  | [] => EmptyString
  | e :: es =>
      match es with
      | [] => e
      | _ => e +:+ String slash (join es)
      end
  end.

(** The slice expression [s[0:hi]] on a string, which panics when [hi]
    is negative or beyond the length: [None]. *)
Definition sliceTo (s : string) (hi : Z) : option string :=
  if ((0 <=? hi)%Z && (hi <=? Z.of_nat (String.length s))%Z)%bool
  then Some (substring 0 (Z.to_nat hi) s)
  else None.

(** [a < b] on strings: the order of the bytes at the first place where
    the two differ, a proper prefix coming first. *)
Fixpoint strLt (a b : string) : bool :=
  match a, b with
  | _, EmptyString => false
  | EmptyString, String _ _ => true
  | String c a', String d b' =>
      if Ascii.eqb c d then strLt a' b'
      else Nat.ltb (nat_of_ascii c) (nat_of_ascii d)
  end.

(** [sort.Search]: the loop halves the interval from [i] to [j] until it
    is empty; [f] is asked at indices from [0] to [n-1] only, and an
    index at which it cannot answer ends the search: [None].  The
    interval shrinks at every turn, so that [n] turns are enough. *)
Fixpoint searchLoop (f : nat -> option bool) (turns i j : nat) : option nat :=
  match turns with
  | 0 => Some i
  | S turns' =>
      if Nat.ltb i j then
        let h := Nat.div2 (i + j) in
        match f h with
        | None => None
        | Some false => searchLoop f turns' (h + 1) j
        | Some true => searchLoop f turns' i h
        end
      else Some i
  end.

Definition sortSearch (n : nat) (f : nat -> option bool) : option nat :=
  searchLoop f n 0 n.

(** [strings.HasSuffix]. *)
Definition HasSuffix (s suffix : string) : bool :=
  Nat.leb (String.length suffix) (String.length s) &&
  String.eqb
    (substring (String.length s - String.length suffix) (String.length suffix) s)
    suffix.

(** The slice expression [s[lo:]] on a string, which panics when [lo]
    is beyond the length: [None]. *)
Definition sliceFrom (s : string) (lo : nat) : option string :=
  if Nat.leb lo (String.length s)
  then Some (substring lo (String.length s - lo) s)
  else None.

End GoStrings.

(** ** [path/filepath] on Unix paths *)

Module filepath.
Import GoStrings.

Definition rooted (path : string) : bool := HasPrefix path "/".

(** One path element read by [Clean].  The output buffer is kept as a
    stack of elements, last element first: an empty element and [.] are
    dropped; [..] removes the last element when there is one that is not
    itself [..], is dropped at the root of a rooted path and is kept
    otherwise; any other element is appended. *)
Definition cleanStep (isRooted : bool) (out : list string) (elem : string)
  : list string :=
  if String.eqb elem "" then out
  else if String.eqb elem "." then out
  else if String.eqb elem ".." then
    match out with
    | last :: out' =>
        if String.eqb last ".." then elem :: out else out'
    | [] => if isRooted then out else [elem]
    end
  else elem :: out.

Definition cleanElems (isRooted : bool) (elems : list string) : list string :=
  fold_left (cleanStep isRooted) elems [].

(** The buffer as a string: the elements in order, after the leading
    separator of a rooted path; an empty result is [.]. *)
Definition render (isRooted : bool) (out : list string) : string :=
  if isRooted then String slash (join (rev out))
  else match out with
       | [] => "."
       | _ => join (rev out)
       end.

(** [filepath.Clean]. *)
Definition Clean (path : string) : string :=
  match path with
  | EmptyString => "."
  | _ => render (rooted path) (cleanElems (rooted path) (split path))
  end.

(** [filepath.Join]: leading empty elements are ignored, the rest is
    joined with the separator and cleaned; no non-empty element gives
    the empty string. *)
Fixpoint Join (elem : list string) : string :=
  match elem with
  | [] => ""
  | e :: rest =>
      if String.eqb e "" then Join rest else Clean (join elem)
  end.

(** [filepath.Ext]: the path is read from its end up to the first
    separator; the extension is the suffix that starts at the first dot
    met, and is empty if there is none.  [revPath] holds the bytes not
    yet read, last byte first, and [suffix] the bytes read. *)
Fixpoint extScan (revPath : list ascii) (suffix : string) : string :=
  match revPath with
  | [] => ""
  | c :: rest =>
      if Ascii.eqb c slash then ""
      else if Ascii.eqb c "."%char then String c suffix
      else extScan rest (String c suffix)
  end.

Definition Ext (path : string) : string :=
  extScan (rev (list_ascii_of_string path)) "".

(** [filepath.Base]: trailing separators are stripped, then the last
    element is read from the end up to a separator; the empty path gives
    [.] and a path of separators only gives the separator. *)
Fixpoint stripSlashes (revPath : list ascii) : list ascii :=
  match revPath with
  | [] => []
  | c :: rest => if Ascii.eqb c slash then stripSlashes rest else revPath
  end.

Fixpoint lastElemScan (revPath : list ascii) (suffix : string) : string :=
  match revPath with
  | [] => suffix
  | c :: rest =>
      if Ascii.eqb c slash then suffix
      else lastElemScan rest (String c suffix)
  end.

Definition Base (path : string) : string :=
  match path with
  | EmptyString => "."
  | _ =>
      let last :=
        lastElemScan (stripSlashes (rev (list_ascii_of_string path))) "" in
      match last with
      | EmptyString => "/"
      | _ => last
      end
  end.

(** [filepath.Dir]: the last element is dropped, read from the end up
    to a separator, and what is left, separator included, is cleaned. *)
Fixpoint dropLastElem (revPath : list ascii) : list ascii :=
  match revPath with
  | [] => []
  | c :: rest => if Ascii.eqb c slash then revPath else dropLastElem rest
  end.

Definition Dir (path : string) : string :=
  Clean (string_of_list_ascii
           (rev (dropLastElem (rev (list_ascii_of_string path))))).

End filepath.

(** ** [blueprint/pathtools] *)

Module pathtools.

(** [pathtools.IsGlob]: the pattern holds a glob meta character. *)
Definition IsGlob (pattern : string) : bool :=
  GoStrings.ContainsAny pattern "*?[".

End pathtools.

(** ** [android/paths.go] *)

Module android.
Import GoStrings filepath.

(** The part of [Config] and [DeviceConfig] read by the path functions;
    their declarations live outside this package's path file, so the
    values they return are fields here. *)
Record Config := {
  srcDir : string;
  buildDir : string;
  AllowMissingDependencies : bool;
  DeviceName : string;
  VendorPath : string;
  OdmPath : string;
  ProductPath : string;
  ProductServicesPath : string;
}.

(** An [OsType] as far as [PathForModuleInstall] distinguishes them: the
    two values it names and any other with its name.  The names given to
    [Linux] and [LinuxBionic] are not read by the functions below. *)
Inductive OsType :=
| Linux
| LinuxBionic
| OtherOs (name : string).

Definition OsType_String (os : OsType) : string :=
  match os with
  | Linux => "linux"
  | LinuxBionic => "linux_bionic"
  | OtherOs name => name
  end.

(** A formatted message: the format string of the source and its
    arguments, left unformatted. *)
Record Message := Errorf { format : string; args : list string }.

(** What a context is asked for.  The four [as...] fields say which of
    the interfaces the dynamic type of the context implements, the way
    the type assertions of the source test it; [FsExists] is
    [ctx.Fs().Exists] and [Glob] is [pathtools.Glob] on the same file
    system (matches, dependencies, error text). *)
Record Context := {
  config : Config;
  asModuleContext : bool;
  asModuleErrorf : bool;
  asErrorfContext : bool;
  asPathGlobContext : bool;
  FsExists : string -> bool * option string;
  Glob : string -> list string * list string * option string;
  ModuleDir : string;
  ModuleName : string;
  ModuleSubDir : string;
  Device : bool;
  Os : OsType;
  Debug : bool;
  InstallInData : bool;
  InstallInSanitizerDir : bool;
  InstallInRecovery : bool;
  SocSpecific : bool;
  DeviceSpecific : bool;
  ProductSpecific : bool;
  ProductServicesSpecific : bool;
  OverridePackageNameFor : string -> string;
}.

Record basePath := {
  path : string;
  bpConfig : Config;
  rel : string;
}.

Record SourcePath := { sourceBase : basePath }.
Record OutputPath := { outputBase : basePath }.
Record ModuleSrcPath := { moduleSrcSource : SourcePath }.
Record ModuleOutPath := { moduleOutOutput : OutputPath }.
Record PhonyPath := { phonyBase : basePath }.
Record testPath := { testBase : basePath }.

(** A value of the [Path] interface: the dynamic type and its value.
    The [nil] interface value is [None] of [option Path]. *)
Inductive Path :=
| PathSource (p : SourcePath)
| PathModuleSrc (p : ModuleSrcPath)
| PathOutput (p : OutputPath)
| PathModuleOut (p : ModuleOutPath)
| PathPhony (p : PhonyPath)
| PathTest (p : testPath).

Definition Paths := list Path.

#[global] Instance Config_eq_dec : EqDecision Config.
Proof. solve_decision. Defined.
#[global] Instance basePath_eq_dec : EqDecision basePath.
Proof. solve_decision. Defined.
#[global] Instance SourcePath_eq_dec : EqDecision SourcePath.
Proof. solve_decision. Defined.
#[global] Instance OutputPath_eq_dec : EqDecision OutputPath.
Proof. solve_decision. Defined.
#[global] Instance ModuleSrcPath_eq_dec : EqDecision ModuleSrcPath.
Proof. solve_decision. Defined.
#[global] Instance ModuleOutPath_eq_dec : EqDecision ModuleOutPath.
Proof. solve_decision. Defined.
#[global] Instance PhonyPath_eq_dec : EqDecision PhonyPath.
Proof. solve_decision. Defined.
#[global] Instance testPath_eq_dec : EqDecision testPath.
Proof. solve_decision. Defined.
#[global] Instance Path_eq_dec : EqDecision Path.
Proof. solve_decision. Defined.

(** A build statement handed to [ctx.Build]. *)
Record BuildParams := {
  Rule : string;
  Description : string;
  Output : OutputPath;
  Args : list (string * string);
}.

(** *** Effects

    What the functions leave behind in the context: errors reported with
    [ModuleErrorf] and with [Errorf], the dependencies added with
    [AddNinjaFileDeps], the patterns registered by [GlobWithDeps], the
    names given to [AddMissingDependencies] and the build statements. *)
Record Effects := {
  moduleErrors : list Message;
  errors : list Message;
  ninjaFileDeps : list string;
  globs : list string;
  missingDeps : list string;
  builds : list BuildParams;
}.

Definition noEffects : Effects :=
  {| moduleErrors := []; errors := []; ninjaFileDeps := []; globs := [];
     missingDeps := []; builds := [] |}.

Inductive Outcome (A : Type) :=
| Returned (a : A) (e : Effects)
| Panicked (m : Message).
Arguments Returned {A} a e.
Arguments Panicked {A} m.

Definition M (A : Type) : Type := Effects -> Outcome A.

Definition ret {A} (a : A) : M A := fun e => Returned a e.

Definition bind {A B} (m : M A) (k : A -> M B) : M B :=
  fun e =>
    match m e with
    | Returned a e' => k a e'
    | Panicked msg => Panicked msg
    end.

Definition panic {A} (msg : Message) : M A := fun _ => Panicked msg.

Notation "'let*' x ':=' c1 'in' c2" := (bind c1 (fun x => c2))
  (at level 10, x pattern, c1 at level 100, c2 at level 200).
Notation "c1 ';;;' c2" := (bind c1 (fun _ => c2))
  (at level 100, c2 at level 200, right associativity).

Definition skip : M unit := ret tt.

Definition ModuleErrorf (msg : Message) : M unit := fun e =>
  Returned tt
    {| moduleErrors := moduleErrors e ++ [msg]; errors := errors e;
       ninjaFileDeps := ninjaFileDeps e; globs := globs e;
       missingDeps := missingDeps e; builds := builds e |}.

Definition ctxErrorf (msg : Message) : M unit := fun e =>
  Returned tt
    {| moduleErrors := moduleErrors e; errors := errors e ++ [msg];
       ninjaFileDeps := ninjaFileDeps e; globs := globs e;
       missingDeps := missingDeps e; builds := builds e |}.

Definition AddNinjaFileDeps (deps : list string) : M unit := fun e =>
  Returned tt
    {| moduleErrors := moduleErrors e; errors := errors e;
       ninjaFileDeps := ninjaFileDeps e ++ deps; globs := globs e;
       missingDeps := missingDeps e; builds := builds e |}.

Definition AddMissingDependencies (deps : list string) : M unit := fun e =>
  Returned tt
    {| moduleErrors := moduleErrors e; errors := errors e;
       ninjaFileDeps := ninjaFileDeps e; globs := globs e;
       missingDeps := missingDeps e ++ deps; builds := builds e |}.


(** [GlobWithDeps] of a module or singleton context: the matches of the
    pattern, and the pattern registered so that a change of its matches
    regenerates the build graph. *)
Definition GlobWithDeps (ctx : Context) (pattern : string)
  : M (list string * option string) := fun e =>
  let '(files, _, err) := Glob ctx pattern in
  match err with
  | Some msg => Returned ([], Some msg) e
  | None =>
      Returned (files, None)
        {| moduleErrors := moduleErrors e; errors := errors e;
           ninjaFileDeps := ninjaFileDeps e; globs := globs e ++ [pattern];
           missingDeps := missingDeps e; builds := builds e |}
  end.

(** [ctx.Failed()]: an error was reported against the module. *)
Definition Failed : M bool := fun e =>
  Returned (match moduleErrors e with [] => false | _ => true end) e.

(** *** Error reporting *)

Definition reportPathErrorf (ctx : Context) (msg : Message) : M unit :=
  if asModuleErrorf ctx then ModuleErrorf msg
  else if asErrorfContext ctx then ctxErrorf msg
  else panic msg.

(** [reportPathError] formats the error with ["%s"], which leaves its
    text as it is. *)
Definition reportPathError (ctx : Context) (err : Message) : M unit :=
  reportPathErrorf ctx err.

Definition reportIfError (ctx : Context) (err : option Message) : M unit :=
  match err with
  | Some e => reportPathError ctx e
  | None => skip
  end.

(** *** [OptionalPath] *)

Record OptionalPath := {
  valid : bool;
  optPath : option Path;
}.

Definition emptyOptionalPath : OptionalPath :=
  {| valid := false; optPath := None |}.

Definition OptionalPathForPath (p : option Path) : OptionalPath :=
  match p with
  | None => emptyOptionalPath
  | Some _ => {| valid := true; optPath := p |}
  end.

Definition OptionalPath_Valid (p : OptionalPath) : bool := valid p.

Definition OptionalPath_Path (p : OptionalPath) : M (option Path) :=
  if negb (valid p) then panic (Errorf "Requesting an invalid path" [])
  else ret (optPath p).

(** *** Validation *)

Definition outside (cleaned : string) : bool :=
  String.eqb cleaned ".." || HasPrefix cleaned "../" || HasPrefix cleaned "/".

Fixpoint validateSafeLoop (pathComponents : list string) : option Message :=
  match pathComponents with
  | [] => None
  | p :: rest =>
      let p' := Clean p in
      if outside p' then Some (Errorf "Path is outside directory: %s" [p'])
      else validateSafeLoop rest
  end.

Definition validateSafePath (pathComponents : list string)
  : string * option Message :=
  match validateSafeLoop pathComponents with
  | Some err => ("", Some err)
  | None => (Join pathComponents, None)
  end.

Fixpoint validateLoop (pathComponents : list string) : option Message :=
  match pathComponents with
  | [] => None
  | p :: rest =>
      if Contains p "$"
      then Some (Errorf "Path contains invalid character($): %s" [p])
      else validateLoop rest
  end.

Definition validatePath (pathComponents : list string)
  : string * option Message :=
  match validateLoop pathComponents with
  | Some err => ("", Some err)
  | None => validateSafePath pathComponents
  end.

(** *** [basePath] *)

Definition basePath_Rel (p : basePath) : string :=
  if negb (String.eqb (rel p) "") then rel p else path p.

Definition basePath_String (p : basePath) : string := path p.

Definition basePath_withRel (p : basePath) (r : string) : basePath :=
  {| path := Join [path p; r]; bpConfig := bpConfig p; rel := r |}.

(** *** [SourcePath] *)

Definition SourcePath_withRel (p : SourcePath) (r : string) : SourcePath :=
  {| sourceBase := basePath_withRel (sourceBase p) r |}.

Definition SourcePath_String (p : SourcePath) : string :=
  Join [srcDir (bpConfig (sourceBase p)); path (sourceBase p)].

Definition SourcePath_Rel (p : SourcePath) : string :=
  basePath_Rel (sourceBase p).

Definition pathForSource (ctx : Context) (pathComponents : list string)
  : SourcePath * option Message :=
  let '(p, err) := validatePath pathComponents in
  let ret := {| sourceBase := {| path := p; bpConfig := config ctx; rel := "" |} |} in
  match err with
  | Some e => (ret, Some e)
  | None =>
      if HasPrefix (SourcePath_String ret) (buildDir (config ctx))
      then (ret, Some (Errorf "source path %q is in output" [SourcePath_String ret]))
      else (ret, None)
  end.

Definition existsWithDependencies (ctx : Context) (p : SourcePath)
  : M (bool * option Message) :=
  let* (files, err) :=
    (if asPathGlobContext ctx then GlobWithDeps ctx (SourcePath_String p)
     else
       let '(files, deps, err) := Glob ctx (SourcePath_String p) in
       AddNinjaFileDeps deps ;;; ret (files, err)) in
  match err with
  | Some msg => ret (false, Some (Errorf "glob: %s" [msg]))
  | None => ret (Nat.ltb 0 (List.length files), None)
  end.

Definition PathForSource (ctx : Context) (pathComponents : list string)
  : M SourcePath :=
  let '(p, err) := pathForSource ctx pathComponents in
  reportIfError ctx err ;;;
  (if pathtools.IsGlob (SourcePath_String p)
   then reportPathErrorf ctx
          (Errorf "path may not contain a glob: %s" [SourcePath_String p])
   else skip) ;;;
  (if asModuleContext ctx && AllowMissingDependencies (config ctx) then
     let* (exists_, err) := existsWithDependencies ctx p in
     reportIfError ctx err ;;;
     if negb exists_ then AddMissingDependencies [SourcePath_String p]
     else skip
   else
     let '(exists_, err) := FsExists ctx (SourcePath_String p) in
     match err with
     | Some msg =>
         reportPathErrorf ctx (Errorf "%s: %s" [SourcePath_String p; msg])
     | None =>
         if negb exists_
         then reportPathErrorf ctx
                (Errorf "source path %q does not exist" [SourcePath_String p])
         else skip
     end) ;;;
  ret p.

Definition ExistentPathForSource (ctx : Context) (pathComponents : list string)
  : M OptionalPath :=
  let '(p, err) := pathForSource ctx pathComponents in
  match err with
  | Some e => reportPathError ctx e ;;; ret emptyOptionalPath
  | None =>
      if pathtools.IsGlob (SourcePath_String p) then
        reportPathErrorf ctx
          (Errorf "path may not contain a glob: %s" [SourcePath_String p]) ;;;
        ret emptyOptionalPath
      else
        let* (exists_, err) := existsWithDependencies ctx p in
        match err with
        | Some e => reportPathError ctx e ;;; ret emptyOptionalPath
        | None =>
            if negb exists_ then ret emptyOptionalPath
            else ret (OptionalPathForPath (Some (PathSource p)))
        end
  end.

Definition SourcePath_Join (p : SourcePath) (ctx : Context) (paths : list string)
  : M SourcePath :=
  let '(joined, err) := validatePath paths in
  reportIfError ctx err ;;;
  ret (SourcePath_withRel p joined).

(** *** [OutputPath] *)

Definition OutputPath_withRel (p : OutputPath) (r : string) : OutputPath :=
  {| outputBase := basePath_withRel (outputBase p) r |}.

Definition OutputPath_String (p : OutputPath) : string :=
  Join [buildDir (bpConfig (outputBase p)); path (outputBase p)].

Definition OutputPath_Rel (p : OutputPath) : string :=
  basePath_Rel (outputBase p).

Definition PathForOutput (ctx : Context) (pathComponents : list string)
  : M OutputPath :=
  let '(p, err) := validatePath pathComponents in
  reportIfError ctx err ;;;
  ret {| outputBase := {| path := p; bpConfig := config ctx; rel := "" |} |}.

Definition OutputPath_Join (p : OutputPath) (ctx : Context) (paths : list string)
  : M OutputPath :=
  let '(joined, err) := validatePath paths in
  reportIfError ctx err ;;;
  ret (OutputPath_withRel p joined).

(** *** Module output paths *)

Definition pathForModule (ctx : Context) : M OutputPath :=
  PathForOutput ctx
    [".intermediates"; ModuleDir ctx; ModuleName ctx; ModuleSubDir ctx].

Definition PathForModuleOut (ctx : Context) (paths : list string)
  : M ModuleOutPath :=
  let '(p, err) := validatePath paths in
  reportIfError ctx err ;;;
  let* root := pathForModule ctx in
  ret {| moduleOutOutput := OutputPath_withRel root p |}.

(** *** Install paths *)

Definition modulePartition (ctx : Context) : string :=
  let partition :=
    if InstallInData ctx then "data"
    else if InstallInRecovery ctx then "recovery/root/system"
    else if SocSpecific ctx then VendorPath (config ctx)
    else if DeviceSpecific ctx then OdmPath (config ctx)
    else if ProductSpecific ctx then ProductPath (config ctx)
    else if ProductServicesSpecific ctx then ProductServicesPath (config ctx)
    else "system" in
  if InstallInSanitizerDir ctx then "data/asan/" +:+ partition
  else partition.

(** The components [PathForModuleInstall] puts before its arguments. *)
Definition installOutPaths (ctx : Context) : list string :=
  let outPaths :=
    if Device ctx then
      let partition := modulePartition ctx in
      ["target"; "product"; DeviceName (config ctx); partition]
    else
      match Os ctx with
      | Linux => ["host"; "linux-x86"]
      | LinuxBionic => ["host"; "linux_bionic-x86"]
      | os => ["host"; OsType_String os +:+ "-x86"]
      end in
  if Debug ctx then ["debug"] ++ outPaths else outPaths.

Definition PathForModuleInstall (ctx : Context) (pathComponents : list string)
  : M OutputPath :=
  PathForOutput ctx (installOutPaths ctx ++ pathComponents).

(** *** Unique paths

    The slices are lists, an index assignment is a list update and the
    returned sub-slice is [take] or [drop] of the updated list.  The
    loops count down on the number of iterations left, so that they are
    structurally recursive; every index they read is inside the list. *)

Definition assign (list : Paths) (dst src : nat) : Paths :=
  match list !! src with
  | Some x => <[dst := x]> list
  | None => list
  end.

(** The inner loop of [FirstUniquePaths]: is [list[i]] among
    [list[j], ..., list[j+n-1]]. *)
Fixpoint firstUniqueSeen (list : Paths) (i j n : nat) : bool :=
  match n with
  | 0 => false
  | S n' =>
      if decide (list !! i = list !! j) then true
      else firstUniqueSeen list i (S j) n'
  end.

(** The outer loop of [FirstUniquePaths] with [n] indices left from [i]. *)
Fixpoint firstUniqueLoop (list : Paths) (i k n : nat) : Paths * nat :=
  match n with
  | 0 => (list, k)
  | S n' =>
      if firstUniqueSeen list i 0 k then firstUniqueLoop list (S i) k n'
      else firstUniqueLoop (assign list k i) (S i) (S k) n'
  end.

Definition FirstUniquePaths (list : Paths) : Paths :=
  let '(list', k) := firstUniqueLoop list 0 0 (List.length list) in
  take k list'.

(** The inner loop of [LastUniquePaths]; [jp] is [j + 1], so that the
    loop stops at [jp = 0] as the source does at [j = -1]. *)
Fixpoint lastUniqueInner (list : Paths) (i totalSkip jp skip : nat)
  : Paths * nat :=
  match jp with
  | 0 => (list, skip)
  | S j =>
      if Nat.ltb j totalSkip then (list, skip)
      else if decide (list !! i = list !! j)
           then lastUniqueInner list i totalSkip j (S skip)
           else lastUniqueInner (assign list (j + skip) j) i totalSkip j skip
  end.

(** The outer loop of [LastUniquePaths]; [ip] is [i + 1]. *)
Fixpoint lastUniqueLoop (list : Paths) (ip totalSkip : nat) : Paths * nat :=
  match ip with
  | 0 => (list, totalSkip)
  | S i =>
      if Nat.ltb i totalSkip then (list, totalSkip)
      else
        let '(list', skip) := lastUniqueInner list i totalSkip i 0 in
        lastUniqueLoop list' i (totalSkip + skip)
  end.

Definition LastUniquePaths (list : Paths) : Paths :=
  let '(list', totalSkip) := lastUniqueLoop list (List.length list) 0 in
  drop totalSkip list'.

(** [PathForTesting], which panics on an unsafe path. *)
Definition PathForTesting (paths : list string) : M Path :=
  let '(p, err) := validateSafePath paths in
  match err with
  | Some e => panic e
  | None =>
      ret (PathTest {| testBase := {| path := p; bpConfig :=
             {| srcDir := ""; buildDir := ""; AllowMissingDependencies := false;
                DeviceName := ""; VendorPath := ""; OdmPath := "";
                ProductPath := ""; ProductServicesPath := "" |};
             rel := p |} |})
  end.

(** [String()] through the [Path] interface. *)
Definition Path_String (p : Path) : string :=
  match p with
  | PathSource p => SourcePath_String p
  | PathModuleSrc p => SourcePath_String (moduleSrcSource p)
  | PathOutput p => OutputPath_String p
  | PathModuleOut p => OutputPath_String (moduleOutOutput p)
  | PathPhony p => basePath_String (phonyBase p)
  | PathTest p => path (testBase p)
  end.

Definition OptionalPath_String (p : OptionalPath) : string :=
  if valid p then
    match optPath p with
    | Some q => Path_String q
    | None => ""
    end
  else "".

(** *** Further functions of the path file *)

(** The [basePath] embedded in a path, whose methods [Ext], [Base] and
    [Rel] every path type inherits. *)
Definition Path_basePath (p : Path) : basePath :=
  match p with
  | PathSource p => sourceBase p
  | PathModuleSrc p => sourceBase (moduleSrcSource p)
  | PathOutput p => outputBase p
  | PathModuleOut p => outputBase (moduleOutOutput p)
  | PathPhony p => phonyBase p
  | PathTest p => testBase p
  end.

Definition basePath_Ext (p : basePath) : string := filepath.Ext (path p).

Definition basePath_Base (p : basePath) : string := filepath.Base (path p).

Definition Path_Ext (p : Path) : string := basePath_Ext (Path_basePath p).

Definition Path_Base (p : Path) : string := basePath_Base (Path_basePath p).

Definition Path_Rel (p : Path) : string := basePath_Rel (Path_basePath p).

(** [PathsForSource]: the paths are made one after the other. *)
Fixpoint PathsForSource (ctx : Context) (paths : list string) : M Paths :=
  match paths with
  | [] => ret []
  | p :: rest =>
      let* sp := PathForSource ctx [p] in
      let* others := PathsForSource ctx rest in
      ret (PathSource sp :: others)
  end.

(** [ExistentPathsForSources]; a valid [OptionalPath] made by
    [ExistentPathForSource] always holds a path. *)
Fixpoint ExistentPathsForSources (ctx : Context) (paths : list string)
  : M Paths :=
  match paths with
  | [] => ret []
  | path :: rest =>
      let* p := ExistentPathForSource ctx [path] in
      let* found :=
        (if OptionalPath_Valid p then OptionalPath_Path p else ret None) in
      let* others := ExistentPathsForSources ctx rest in
      ret (match found with
           | Some q => q :: others
           | None => others
           end)
  end.

(** [ReversePaths]: the entry [i] of the copy is the entry
    [len(list)-1-i] of the list. *)
Definition ReversePaths (list : Paths) : Paths :=
  flat_map
    (fun i =>
       match list !! (List.length list - 1 - i) with
       | Some p => [p]
       | None => []
       end)
    (seq 0 (List.length list)).

(** [FirstUniquePaths] and [LastUniquePaths] work in the slice they are
    given: its contents once the call has returned. *)
Definition FirstUniquePaths_after (list : Paths) : Paths :=
  fst (firstUniqueLoop list 0 0 (List.length list)).

Definition LastUniquePaths_after (list : Paths) : Paths :=
  fst (lastUniqueLoop list (List.length list) 0).

(** [indexPathList], with [i] the index of the head of [list]. *)
Fixpoint indexPathListFrom (s : Path) (list : Paths) (i : Z) : Z :=
  match list with
  | [] => (-1)%Z
  | l :: rest =>
      if decide (l = s) then i else indexPathListFrom s rest (i + 1)%Z
  end.

Definition indexPathList (s : Path) (list : Paths) : Z :=
  indexPathListFrom s list 0%Z.

Definition inPathList (p : Path) (list : Paths) : bool :=
  negb (Z.eqb (indexPathList p list) (-1)%Z).

(** [FilterPathList]: the pair of the remainder and the filtered. *)
Definition FilterPathList (list filter : Paths) : Paths * Paths :=
  fold_left
    (fun '(remainder, filtered) l =>
       if inPathList l filter then (remainder, filtered ++ [l])
       else (remainder ++ [l], filtered))
    list ([], []).

(** [Paths.HasExt], [Paths.FilterByExt] and [Paths.FilterOutByExt]. *)
Fixpoint Paths_HasExt (p : Paths) (ext : string) : bool :=
  match p with
  | [] => false
  | q :: rest =>
      if String.eqb (Path_Ext q) ext then true else Paths_HasExt rest ext
  end.

Definition Paths_FilterByExt (p : Paths) (ext : string) : Paths :=
  fold_left
    (fun ret q => if String.eqb (Path_Ext q) ext then ret ++ [q] else ret)
    p [].

Definition Paths_FilterOutByExt (p : Paths) (ext : string) : Paths :=
  fold_left
    (fun ret q => if negb (String.eqb (Path_Ext q) ext) then ret ++ [q] else ret)
    p [].

(** [PathForIntermediates]. *)
Definition PathForIntermediates (ctx : Context) (paths : list string)
  : M OutputPath :=
  let '(p, err) := validatePath paths in
  reportIfError ctx err ;;;
  PathForOutput ctx [".intermediates"; p].

(** [PathForModuleSrc]. *)
Definition PathForModuleSrc (ctx : Context) (paths : list string)
  : M ModuleSrcPath :=
  let '(p, err) := validatePath paths in
  reportIfError ctx err ;;;
  let '(srcPath, err) := pathForSource ctx [ModuleDir ctx; p] in
  reportIfError ctx err ;;;
  (if pathtools.IsGlob (SourcePath_String srcPath)
   then reportPathErrorf ctx
          (Errorf "path may not contain a glob: %s" [SourcePath_String srcPath])
   else skip) ;;;
  let result :=
    {| moduleSrcSource :=
         {| sourceBase :=
              {| path := path (sourceBase srcPath);
                 bpConfig := bpConfig (sourceBase srcPath);
                 rel := p |} |} |} in
  let '(exists_, err) := FsExists ctx (SourcePath_String (moduleSrcSource result)) in
  (match err with
   | Some msg =>
       reportPathErrorf ctx
         (Errorf "%s: %s" [SourcePath_String (moduleSrcSource result); msg])
   | None =>
       if negb exists_
       then reportPathErrorf ctx
              (Errorf "module source path %q does not exist"
                 [SourcePath_String (moduleSrcSource result)])
       else skip
   end) ;;;
  ret result.

(** [OptionalPathForModuleSrc]; the nil string pointer is [None]. *)
Definition OptionalPathForModuleSrc (ctx : Context) (p : option string)
  : M OptionalPath :=
  match p with
  | None => ret emptyOptionalPath
  | Some s =>
      let* q := PathForModuleSrc ctx [s] in
      ret (OptionalPathForPath (Some (PathModuleSrc q)))
  end.

Record ModuleGenPath := { moduleGenOut : ModuleOutPath }.
Record ModuleObjPath := { moduleObjOut : ModuleOutPath }.
Record ModuleResPath := { moduleResOut : ModuleOutPath }.

(** [PathForModuleGen]. *)
Definition PathForModuleGen (ctx : Context) (paths : list string)
  : M ModuleGenPath :=
  let '(p, err) := validatePath paths in
  reportIfError ctx err ;;;
  let* root := pathForModule ctx in
  ret {| moduleGenOut :=
           {| moduleOutOutput :=
                OutputPath_withRel (OutputPath_withRel root "gen") p |} |}.

(** [PathForModuleObj]. *)
Definition PathForModuleObj (ctx : Context) (pathComponents : list string)
  : M ModuleObjPath :=
  let '(p, err) := validatePath pathComponents in
  reportIfError ctx err ;;;
  let* out := PathForModuleOut ctx ["obj"; p] in
  ret {| moduleObjOut := out |}.

(** [PathForModuleRes]. *)
Definition PathForModuleRes (ctx : Context) (pathComponents : list string)
  : M ModuleResPath :=
  let '(p, err) := validatePath pathComponents in
  reportIfError ctx err ;;;
  let* out := PathForModuleOut ctx ["res"; p] in
  ret {| moduleResOut := out |}.

(** [DirectorySortedPaths.PathsInDirectory]: two binary searches on the
    strings of the paths; an index outside the slice would panic. *)
Definition PathsInDirectory (p : Paths) (dir : string) : option Paths :=
  let prefix := filepath.Clean dir +:+ "/" in
  match sortSearch (List.length p)
          (fun i => match p !! i with
                    | Some q => Some (strLt prefix (Path_String q))
                    | None => None
                    end) with
  | None => None
  | Some start =>
      let ret := drop start p in
      match sortSearch (List.length ret)
              (fun i => match ret !! i with
                        | Some q => Some (negb (HasPrefix (Path_String q) prefix))
                        | None => None
                        end) with
      | None => None
      | Some end_ => Some (take end_ ret)
      end
  end.

(** [OutputPath.InSameDir]. *)
Definition OutputPath_InSameDir (p : OutputPath) (ctx : Context)
  (paths : list string) : M OutputPath :=
  let '(path_, err) := validatePath paths in
  reportIfError ctx err ;;;
  let* made := PathForOutput ctx [filepath.Dir (path (outputBase p)); path_] in
  ret {| outputBase :=
           {| path := path (outputBase made);
              bpConfig := bpConfig (outputBase made);
              rel := Join [filepath.Dir (rel (outputBase p)); path_] |} |}.

(** [safePathForSource]. *)
Definition safePathForSource (ctx : Context) (pathComponents : list string)
  : SourcePath * option Message :=
  let '(p, err) := validateSafePath pathComponents in
  let ret := {| sourceBase := {| path := p; bpConfig := config ctx; rel := "" |} |} in
  match err with
  | Some e => (ret, Some e)
  | None =>
      if HasPrefix (SourcePath_String ret) (buildDir (config ctx))
      then (ret, Some (Errorf "source path %q is in output" [SourcePath_String ret]))
      else (ret, None)
  end.

(** [pathsForModuleSrcFromFullPath]: the loop over the strings, with the
    paths made so far; a slice expression out of range panics. *)
Fixpoint fromFullPathLoop (ctx : Context) (prefix : string) (incDirs : bool)
  (paths : list string) (made : Paths) : M Paths :=
  match paths with
  | [] => ret made
  | p :: rest =>
      if negb incDirs && HasSuffix p "/"
      then fromFullPathLoop ctx prefix incDirs rest made
      else
        let path_ := filepath.Clean p in
        if negb (HasPrefix path_ prefix) then
          reportPathErrorf ctx
            (Errorf "Path %q is not in module source directory %q" [p; prefix]) ;;;
          fromFullPathLoop ctx prefix incDirs rest made
        else
          match sliceFrom path_ (String.length prefix) with
          | None => panic (Errorf "runtime error: slice bounds out of range" [])
          | Some local =>
              let '(srcPath, err) :=
                safePathForSource ctx [ModuleDir ctx; local] in
              match err with
              | Some e =>
                  reportPathError ctx e ;;;
                  fromFullPathLoop ctx prefix incDirs rest made
              | None =>
                  let moduleSrcPath :=
                    {| moduleSrcSource :=
                         {| sourceBase :=
                              {| path := path (sourceBase srcPath);
                                 bpConfig := bpConfig (sourceBase srcPath);
                                 rel := path (sourceBase srcPath) |} |} |} in
                  fromFullPathLoop ctx prefix incDirs rest
                    (made ++ [PathModuleSrc moduleSrcPath])
              end
          end
  end.

Definition pathsForModuleSrcFromFullPath (ctx : Context) (paths : list string)
  (incDirs : bool) : M Paths :=
  let prefix := Join [srcDir (config ctx); ModuleDir ctx] +:+ "/" in
  let prefix := if String.eqb prefix "./" then "" else prefix in
  fromFullPathLoop ctx prefix incDirs paths [].

End android.

(** ** The Android app module type: where an app is installed *)

Module java.
Import GoStrings filepath android.

(** [proptools.Bool]: an unset property is false. *)
Definition Bool (p : option bool) : bool :=
  match p with
  | Some b => b
  | None => false
  end.

Record AndroidApp := {
  Privileged : option bool;
  Installable : option bool;
  installApkName : string;
}.

(** The build steps of an app that are declared elsewhere (resource
    compilation, shrinking, compilation, native libraries, certificates,
    packaging).  They may report errors or panic, and they do not take
    part in the choice of the install path. *)
Record AppSteps := {
  aaptBuildActions : M unit;
  proguardBuildActions : M unit;
  compile : M unit;
  collectAppDeps : M unit;
  jniBuildActions : M unit;
  certificateBuildActions : M unit;
  CreateAppPackage : M unit;
  BuildBundleModule : M unit;
}.

(** [dexBuildActions]; the value returned here is the
    [dexpreopter.installPath] it sets. *)
Definition dexBuildActions (steps : AppSteps) (a : AndroidApp) (ctx : Context)
  : M OutputPath :=
  let installDir :=
    if String.eqb (ModuleName ctx) "framework-res" then "framework"
    else if Bool (Privileged a) then Join ["priv-app"; installApkName a]
    else Join ["app"; installApkName a] in
  let* installPath :=
    PathForModuleInstall ctx [installDir; installApkName a +:+ ".apk"] in
  (if negb (String.eqb (ModuleName ctx) "framework-res") then compile steps
   else skip) ;;;
  ret installPath.

(** [generateAndroidBuildActions]; the value returned is the
    [dexpreopter.installPath] and, when the function gets that far, the
    directory and file name given to [ctx.InstallFile]. *)
Definition generateAndroidBuildActions
  (steps : AppSteps) (a : AndroidApp) (ctx : Context)
  : M (OutputPath * option (OutputPath * string)) :=
  let a := {| Privileged := Privileged a; Installable := Installable a;
              installApkName := OverridePackageNameFor ctx (ModuleName ctx) |} in
  aaptBuildActions steps ;;;
  proguardBuildActions steps ;;;
  let* dexInstallPath := dexBuildActions steps a ctx in
  collectAppDeps steps ;;;
  jniBuildActions steps ;;;
  let* failed := Failed in
  if failed then ret (dexInstallPath, None)
  else
    certificateBuildActions steps ;;;
    let* packageFile := PathForModuleOut ctx [ModuleName ctx +:+ ".apk"] in
    CreateAppPackage steps ;;;
    let* bundleFile := PathForModuleOut ctx ["base.zip"] in
    BuildBundleModule steps ;;;
    if String.eqb (ModuleName ctx) "framework-res" then
      let* dir := PathForModuleInstall ctx ["framework"] in
      ret (dexInstallPath, Some (dir, ModuleName ctx +:+ ".apk"))
    else if Bool (Privileged a) then
      let* dir := PathForModuleInstall ctx ["priv-app"; installApkName a] in
      ret (dexInstallPath, Some (dir, installApkName a +:+ ".apk"))
    else
      let* dir := PathForModuleInstall ctx ["app"; installApkName a] in
      ret (dexInstallPath, Some (dir, installApkName a +:+ ".apk")).

End java.

(** ** The [apex_keys_text] singleton *)

Module apex.
Import GoStrings filepath android.



Section Singleton.

(** The [%q] verb of [fmt]: its argument as a quoted Go string literal. *)
Variable quote : string -> string.



End Singleton.


(** The key name that [apexKey.GenerateAndroidBuildActions] takes from a
    key file: the base name up to its extension, by a slice expression. *)
Definition keyName (file : Path) : option string :=
  sliceTo (Path_Base file)
    (Z.of_nat (String.length (Path_Base file)) -
     Z.of_nat (String.length (Path_Ext file)))%Z.

End apex.


(** ** Vocabulary of the properties

    Path elements and the element lists of cleaned paths, in which the
    properties of [Clean], [Join] and the path constructors are stated. *)

Module PathVocabulary.
Import GoStrings filepath.

(** No separator in the string. *)
Fixpoint slashFree (s : string) : bool :=
  match s with
  | EmptyString => true
  | String c s' => negb (Ascii.eqb c slash) && slashFree s'
  end.

(** A path element that [Clean] keeps as it is. *)
Definition properElem (e : string) : bool :=
  negb (String.eqb e "") && negb (String.eqb e ".") &&
  negb (String.eqb e "..") && slashFree e.

(** An element that may sit in the buffer of [Clean]. *)
Definition keptElem (e : string) : bool :=
  negb (String.eqb e "") && negb (String.eqb e ".") && slashFree e.

(** The elements of the cleaned form of a relative path, in order. *)
Definition elemsOf (c : string) : list string :=
  rev (cleanElems false (split c)).

(** A relative path written from its elements. *)
Definition renderElems (L : list string) : string :=
  match L with
  | [] => "."
  | _ => join L
  end.

(** The buffer of a relative path: proper elements above a run of [..]. *)
Definition shaped (out : list string) : Prop :=
  exists P D, out = P ++ D /\
    Forall (fun x => properElem x = true) P /\ Forall (fun x => x = "..") D.

(** A component that [validateSafePath] accepts. *)
Definition validComp (c : string) : bool := negb (android.outside (Clean c)).

(** A component that [validatePath] turns down, in the words of its
    description: it holds an unexpanded variable marker, it is absolute,
    or its cleaned form is [..] or starts with [../]. *)
Definition rejected (c : string) : bool :=
  Contains c "$" || HasPrefix c "/" ||
  String.eqb (Clean c) ".." || HasPrefix (Clean c) "../".

(** Is the path [p] the directory [dir] or something below it. *)
Definition under (dir p : string) : bool :=
  String.eqb p dir || HasPrefix p (dir +:+ "/").

(** The directory [name] of the install root of a module. *)
Definition installDirOf (ctx : android.Context) (name : string) : string :=
  Join (android.installOutPaths ctx ++ [name]).

(** What identifies a module variant for its output directory. *)
Definition moduleTuple (ctx : android.Context) : string * string * string :=
  (android.ModuleDir ctx, android.ModuleName ctx, android.ModuleSubDir ctx).

(** A module variant whose output root is built without a path error,
    whose directory is in cleaned form, whose name is one path element
    and whose variant directory is one path element or empty. *)
Definition plainTuple (ctx : android.Context) : Prop :=
  snd (android.validatePath
         [".intermediates"; android.ModuleDir ctx; android.ModuleName ctx;
          android.ModuleSubDir ctx]) = None /\
  Clean (android.ModuleDir ctx) = android.ModuleDir ctx /\
  properElem (android.ModuleName ctx) = true /\
  (properElem (android.ModuleSubDir ctx) = true \/ android.ModuleSubDir ctx = "").

(** The elements of the output root of a module variant. *)
Definition subDirElems (subDir : string) : list string :=
  if String.eqb subDir "" then [] else [subDir].

Definition rootElems (ctx : android.Context) : list string :=
  ".intermediates" ::
  elemsOf (android.ModuleDir ctx) ++ [android.ModuleName ctx] ++ subDirElems (android.ModuleSubDir ctx).

(** Stable removal of duplicates, as functions on lists: [keepFirst]
    goes through the list from the left and keeps an element unless it
    has kept an equal one; [keepLast] does the same from the right. *)
Definition keepStep {A} `{EqDecision A} (acc : list A) (x : A) : list A :=
  if decide (x ∈ acc) then acc else acc ++ [x].

Definition keepFirst {A} `{EqDecision A} (l : list A) : list A :=
  fold_left keepStep l [].

Definition keepLast {A} `{EqDecision A} (l : list A) : list A :=
  reverse (keepFirst (reverse l)).





(** Does the string hold the byte [c]. *)
Fixpoint hasByte (c : ascii) (s : string) : bool :=
  match s with
  | EmptyString => false
  | String d s' => Ascii.eqb d c || hasByte c s'
  end.


Definition isSome {A} (o : option A) : bool :=
  match o with
  | Some _ => true
  | None => false
  end.

(** The path [p] is the directory [dir] or lies below it: the elements
    of [p] are those of [dir] followed by proper elements. *)
Definition inside (dir p : string) : Prop :=
  exists rest,
    Forall (fun x => properElem x = true) rest /\
    elemsOf p = elemsOf dir ++ rest.

(** The output root of a module variant, as a string. *)
Definition moduleRoot (ctx : android.Context) : string :=
  Join [".intermediates"; android.ModuleDir ctx; android.ModuleName ctx;
        android.ModuleSubDir ctx].

(** The context has [ModuleErrorf] or [Errorf]. *)
Definition canReport (ctx : android.Context) : bool :=
  android.asModuleErrorf ctx || android.asErrorfContext ctx.

(** The source path that [pathForSource] makes of one string, and
    whether [ExistentPathForSource] finds it: the string is accepted,
    holds no glob character, and the glob for it succeeds with a match. *)
Definition sourceOf (ctx : android.Context) (p : string) : android.SourcePath :=
  fst (android.pathForSource ctx [p]).

Definition found (ctx : android.Context) (p : string) : bool :=
  match android.pathForSource ctx [p] with
  | (sp, None) =>
      negb (pathtools.IsGlob (android.SourcePath_String sp)) &&
      match android.Glob ctx (android.SourcePath_String sp) with
      | (_ :: _, _, None) => true
      | _ => false
      end
  | (_, Some _) => false
  end.

(** The paths are in the order of their strings, as
    [PathsToDirectorySortedPaths] leaves them: no path has a string
    smaller than the string of a path before it. *)
Definition sortedByString (p : android.Paths) : Prop :=
  forall i j qi qj,
    i <= j -> p !! i = Some qi -> p !! j = Some qj ->
    strLt (android.Path_String qj) (android.Path_String qi) = false.

(** The string lies below the directory prefix: it starts with the
    prefix and is longer. *)
Definition below (prefix s : string) : bool :=
  HasPrefix s prefix && negb (String.eqb s prefix).

(** The check of [sortedByString] on a given list. *)
Fixpoint sortedCheck (p : android.Paths) : bool :=
  match p with
  | [] => true
  | q :: rest =>
      forallb (fun r => negb (strLt (android.Path_String r) (android.Path_String q)))
        rest && sortedCheck rest
  end.

(** A module source path that lies in the directory of the module and
    whose [Rel()] is its whole path. *)
Definition localSource (ctx : android.Context) (q : android.Path) : Prop :=
  exists m,
    q = android.PathModuleSrc m /\
    android.rel (android.sourceBase (android.moduleSrcSource m)) =
      android.path (android.sourceBase (android.moduleSrcSource m)) /\
    inside (android.ModuleDir ctx)
      (android.path (android.sourceBase (android.moduleSrcSource m))).

End PathVocabulary.

(** ** Contexts and values used in the examples *)

Module Examples.
Import android.

Definition exampleConfig : Config :=
  {| srcDir := "."; buildDir := "out"; AllowMissingDependencies := false;
     DeviceName := "generic"; VendorPath := "vendor"; OdmPath := "odm";
     ProductPath := "product"; ProductServicesPath := "product_services" |}.

(** A file system with the one file [Android.bp]. *)
Definition exampleExists (p : string) : bool * option string :=
  (String.eqb p "Android.bp", None).

Definition exampleGlob (pattern : string)
  : list string * list string * option string :=
  if String.eqb pattern "Android.bp" then ([pattern], [pattern], None)
  else ([], [pattern], None).

(** A module context: it has [ModuleErrorf], [Errorf] and [GlobWithDeps]. *)
Definition moduleContext (dir name subDir : string) : Context :=
  {| config := exampleConfig;
     asModuleContext := true; asModuleErrorf := true;
     asErrorfContext := true; asPathGlobContext := true;
     FsExists := exampleExists; Glob := exampleGlob;
     ModuleDir := dir; ModuleName := name; ModuleSubDir := subDir;
     Device := true; Os := OtherOs "android"; Debug := false;
     InstallInData := false; InstallInSanitizerDir := false;
     InstallInRecovery := false; SocSpecific := false;
     DeviceSpecific := false; ProductSpecific := false;
     ProductServicesSpecific := false;
     OverridePackageNameFor := fun name => name |}.

(** The [testPathContext] of [PathContextForTesting]: [Fs], [Config] and
    [AddNinjaFileDeps] and nothing else. *)
Definition testPathContext : Context :=
  {| config := exampleConfig;
     asModuleContext := false; asModuleErrorf := false;
     asErrorfContext := false; asPathGlobContext := false;
     FsExists := exampleExists; Glob := exampleGlob;
     ModuleDir := ""; ModuleName := ""; ModuleSubDir := "";
     Device := true; Os := OtherOs "android"; Debug := false;
     InstallInData := false; InstallInSanitizerDir := false;
     InstallInRecovery := false; SocSpecific := false;
     DeviceSpecific := false; ProductSpecific := false;
     ProductServicesSpecific := false;
     OverridePackageNameFor := fun name => name |}.

Definition outputPath (p : string) : OutputPath :=
  {| outputBase := {| path := p; bpConfig := exampleConfig; rel := "" |} |}.

Definition sourcePath (p : string) : SourcePath :=
  {| sourceBase := {| path := p; bpConfig := exampleConfig; rel := "" |} |}.

(** What [PathForTesting] returns for a safe path. *)
Definition testingPath (p : string) : Path :=
  PathTest {| testBase := {| path := p; bpConfig :=
    {| srcDir := ""; buildDir := ""; AllowMissingDependencies := false;
       DeviceName := ""; VendorPath := ""; OdmPath := "";
       ProductPath := ""; ProductServicesPath := "" |}; rel := p |} |}.


Definition noSteps : java.AppSteps :=
  {| java.aaptBuildActions := skip; java.proguardBuildActions := skip;
     java.compile := skip; java.collectAppDeps := skip;
     java.jniBuildActions := skip;
     java.certificateBuildActions := skip; java.CreateAppPackage := skip;
     java.BuildBundleModule := skip |}.

(** A module context of a build that allows missing dependencies. *)
Definition lenientConfig : Config :=
  {| srcDir := "."; buildDir := "out"; AllowMissingDependencies := true;
     DeviceName := "generic"; VendorPath := "vendor"; OdmPath := "odm";
     ProductPath := "product"; ProductServicesPath := "product_services" |}.

Definition lenientContext (dir name subDir : string) : Context :=
  {| config := lenientConfig;
     asModuleContext := true; asModuleErrorf := true;
     asErrorfContext := true; asPathGlobContext := true;
     FsExists := exampleExists; Glob := exampleGlob;
     ModuleDir := dir; ModuleName := name; ModuleSubDir := subDir;
     Device := true; Os := OtherOs "android"; Debug := false;
     InstallInData := false; InstallInSanitizerDir := false;
     InstallInRecovery := false; SocSpecific := false;
     DeviceSpecific := false; ProductSpecific := false;
     ProductServicesSpecific := false;
     OverridePackageNameFor := fun name => name |}.

End Examples.

(** * Properties *)

(** ** Strings, [split] and [join] *)

Module StringFacts.
Import GoStrings PathVocabulary.

Lemma sapp_cons (c : ascii) (s t : string) :
  String c s +:+ t = String c (s +:+ t).
Proof. reflexivity. Qed.


Lemma sapp_nil_r (s : string) : s +:+ "" = s.
Proof.
  induction s as [|c s IH]; [reflexivity | now rewrite sapp_cons, IH].
Qed.

Lemma sapp_assoc (a b c : string) : (a +:+ b) +:+ c = a +:+ (b +:+ c).
Proof.
  induction a as [|x a IH]; [reflexivity | now rewrite !sapp_cons, IH].
Qed.

Lemma sapp_inv_head (a b c : string) : a +:+ b = a +:+ c -> b = c.
Proof.
  induction a as [|x a IH]; intros H; [exact H |].
  rewrite !sapp_cons in H. injection H; auto.
Qed.

Lemma HasPrefix_app (p s : string) : HasPrefix (p +:+ s) p = true.
Proof.
  induction p as [|c p IH]; [now destruct s |].
  rewrite sapp_cons. simpl. now rewrite Ascii.eqb_refl.
Qed.

Lemma HasPrefix_inv (s p : string) :
  HasPrefix s p = true -> exists r, s = p +:+ r.
Proof.
  revert s; induction p as [|c p IH]; intros s H.
  - exists s; reflexivity.
  - destruct s as [|d s]; simpl in H; [discriminate |].
    destruct (Ascii.eqb_spec d c) as [->|]; [| discriminate].
    destruct (IH _ H) as [r ->]. exists r; reflexivity.
Qed.

Lemma HasPrefix_cons (c : ascii) (s p : string) :
  HasPrefix (String c s) (String c p) = HasPrefix s p.
Proof. simpl. now rewrite Ascii.eqb_refl. Qed.

Lemma split_not_nil (s : string) : split s <> [].
Proof.
  induction s as [|c s IH]; simpl; [discriminate |].
  destruct (Ascii.eqb c slash); [discriminate |].
  destruct (split s); discriminate.
Qed.

Lemma split_app_slash (a b : string) :
  split (a +:+ String slash b) = split a ++ split b.
Proof.
  induction a as [|c a IH].
  - reflexivity.
  - rewrite sapp_cons. simpl. rewrite IH. destruct (Ascii.eqb c slash); [reflexivity |].
    pose proof (split_not_nil a) as Hn.
    destruct (split a); [contradiction | reflexivity].
Qed.

Lemma split_slashFree (s : string) : Forall (fun e => slashFree e = true) (split s).
Proof.
  induction s as [|c s IH]; simpl.
  - repeat constructor.
  - destruct (Ascii.eqb c slash) eqn:Hc.
    + constructor; [reflexivity | exact IH].
    + destruct (split s) as [|e es]; [repeat constructor; simpl; now rewrite Hc |].
      inversion IH; subst. constructor; [simpl; now rewrite Hc | assumption].
Qed.

Lemma split_of_slashFree (e : string) : slashFree e = true -> split e = [e].
Proof.
  induction e as [|c e IH]; simpl; [reflexivity |].
  intros H. apply andb_true_iff in H as [Hc He].
  apply negb_true_iff in Hc. rewrite Hc, (IH He). reflexivity.
Qed.

Lemma split_join (L : list string) :
  L <> [] -> Forall (fun e => slashFree e = true) L -> split (join L) = L.
Proof.
  induction L as [|e L IH]; [congruence |].
  intros _ HF. inversion HF as [|? ? He HL]; subst.
  destruct L as [|e' L'].
  - simpl. now apply split_of_slashFree.
  - change (join (e :: e' :: L')) with (e +:+ String slash (join (e' :: L'))).
    rewrite split_app_slash, (split_of_slashFree _ He), IH; [reflexivity | discriminate | exact HL].
Qed.

Lemma join_cons (e : string) (L : list string) :
  L <> [] -> join (e :: L) = e +:+ String slash (join L).
Proof. destruct L; [congruence | reflexivity]. Qed.

Lemma join_app (S T : list string) :
  S <> [] -> T <> [] -> join (S ++ T) = join S +:+ String slash (join T).
Proof.
  induction S as [|e S IH]; [congruence |].
  intros _ HT. destruct S as [|e' S'].
  - simpl app. now rewrite join_cons.
  - change ((e :: e' :: S') ++ T) with (e :: ((e' :: S') ++ T)).
    rewrite join_cons by discriminate.
    rewrite IH by (discriminate || assumption).
    rewrite (join_cons e (e' :: S')) by discriminate.
    now rewrite sapp_assoc.
Qed.

Lemma join_inj (L1 L2 : list string) :
  L1 <> [] -> L2 <> [] ->
  Forall (fun e => slashFree e = true) L1 ->
  Forall (fun e => slashFree e = true) L2 ->
  join L1 = join L2 -> L1 = L2.
Proof.
  intros H1 H2 F1 F2 E.
  rewrite <- (split_join L1 H1 F1), <- (split_join L2 H2 F2).
  now rewrite E.
Qed.

End StringFacts.

(** ** [Clean] and [Join] on path elements *)

Module CleanFacts.
Import GoStrings filepath PathVocabulary StringFacts.

Lemma properElem_kept e : properElem e = true -> keptElem e = true.
Proof.
  unfold properElem, keptElem. intros H.
  repeat (apply andb_true_iff in H as [H ?]).
  repeat (apply andb_true_iff; split); assumption.
Qed.

Lemma keptElem_proper e :
  keptElem e = true -> String.eqb e ".." = false -> properElem e = true.
Proof.
  unfold properElem, keptElem. intros H Hd.
  repeat (apply andb_true_iff in H as [H ?]).
  rewrite Hd. repeat (apply andb_true_iff; split); auto.
Qed.

Lemma properElem_slashFree e : properElem e = true -> slashFree e = true.
Proof. unfold properElem. intros H. now apply andb_true_iff in H as [_ H]. Qed.

Lemma cleanStep_proper r out e :
  properElem e = true -> cleanStep r out e = e :: out.
Proof.
  unfold properElem, cleanStep. intros H.
  repeat (apply andb_true_iff in H as [H ?]).
  repeat match goal with
         | X : negb _ = true |- _ => apply negb_true_iff in X; rewrite X
         end.
  reflexivity.
Qed.

(** Every element of the buffer is non-empty, free of separators and not
    [.]. *)
Lemma cleanStep_kept r out e :
  slashFree e = true ->
  Forall (fun x => keptElem x = true) out ->
  Forall (fun x => keptElem x = true) (cleanStep r out e).
Proof.
  intros He Hout. unfold cleanStep.
  destruct (String.eqb e "") eqn:E1; [exact Hout |].
  destruct (String.eqb e ".") eqn:E2; [exact Hout |].
  assert (Hk : keptElem e = true).
  { unfold keptElem. now rewrite E1, E2, He. }
  destruct (String.eqb e ".."); [| now constructor].
  destruct out as [|last out'].
  - destruct r; [exact Hout | now constructor].
  - destruct (String.eqb last ".."); [now constructor | now inversion Hout].
Qed.

Lemma fold_cleanStep_kept r elems out :
  Forall (fun x => slashFree x = true) elems ->
  Forall (fun x => keptElem x = true) out ->
  Forall (fun x => keptElem x = true) (fold_left (cleanStep r) elems out).
Proof.
  revert out; induction elems as [|e elems IH]; intros out He Hout; [exact Hout |].
  inversion He; subst. simpl. apply IH; [assumption |].
  now apply cleanStep_kept.
Qed.

Lemma cleanElems_kept r s :
  Forall (fun x => keptElem x = true) (cleanElems r (split s)).
Proof.
  apply fold_cleanStep_kept; [apply split_slashFree | constructor].
Qed.

Lemma cleanStep_shaped out e :
  slashFree e = true -> shaped out -> shaped (cleanStep false out e).
Proof.
  intros He (P & D & -> & HP & HD). unfold cleanStep.
  destruct (String.eqb e "") eqn:E1; [now exists P, D |].
  destruct (String.eqb e ".") eqn:E2; [now exists P, D |].
  destruct (String.eqb_spec e "..") as [->|E3].
  - destruct P as [|p P].
    + destruct D as [|d D]; simpl.
      * exists [], [".."]. repeat split; repeat constructor.
      * inversion HD; subst. simpl. exists [], (".." :: ".." :: D).
        repeat split; [constructor | now repeat constructor].
    + inversion HP as [|? ? Hp HP']; subst. simpl.
      assert (Hpd : String.eqb p ".." = false).
      { unfold properElem in Hp. destruct (String.eqb p ".."); [| reflexivity].
        now rewrite !andb_false_r in Hp. }
      rewrite Hpd. now exists P, D.
  - exists (e :: P), D. repeat split; [| assumption].
    constructor; [| assumption].
    unfold properElem. rewrite E1, E2, He.
    destruct (String.eqb_spec e ".."); [contradiction | reflexivity].
Qed.

Lemma fold_cleanStep_shaped elems out :
  Forall (fun x => slashFree x = true) elems -> shaped out ->
  shaped (fold_left (cleanStep false) elems out).
Proof.
  revert out; induction elems as [|e elems IH]; intros out He Hout; [exact Hout |].
  inversion He; subst. simpl. apply IH; [assumption |].
  now apply cleanStep_shaped.
Qed.

Lemma cleanElems_shaped s : shaped (cleanElems false (split s)).
Proof.
  apply fold_cleanStep_shaped; [apply split_slashFree |].
  exists [], []. repeat split; constructor.
Qed.

Lemma render_false out : render false out = renderElems (rev out).
Proof.
  destruct out as [|a out]; [reflexivity |].
  unfold render, renderElems. simpl rev.
  destruct (rev out ++ [a]) eqn:E; [| reflexivity].
  now apply app_eq_nil in E as [_ E].
Qed.

Lemma Clean_relative c : rooted c = false -> Clean c = renderElems (elemsOf c).
Proof.
  intros H. destruct c as [|x c]; [reflexivity |].
  unfold Clean. rewrite H. apply render_false.
Qed.

Lemma keptElem_head e :
  keptElem e = true -> exists x e', e = String x e' /\ Ascii.eqb x slash = false.
Proof.
  unfold keptElem. destruct e as [|x e']; [discriminate |].
  intros H. apply andb_true_iff in H as [_ H]. simpl in H.
  apply andb_true_iff in H as [H _]. apply negb_true_iff in H.
  now exists x, e'.
Qed.

Lemma join_head e L :
  exists t, join (e :: L) = e +:+ t.
Proof.
  destruct L as [|e' L].
  - exists "". simpl. now rewrite sapp_nil_r.
  - eexists. reflexivity.
Qed.

Lemma rooted_join_kept e L :
  keptElem e = true -> rooted (join (e :: L)) = false.
Proof.
  intros He. destruct (keptElem_head _ He) as (x & e' & -> & Hx).
  destruct (join_head (String x e') L) as [t ->].
  rewrite sapp_cons. unfold rooted, slash in *. simpl. now rewrite Hx.
Qed.

(** [Clean] keeps a path rooted or relative. *)
Lemma rooted_Clean c : rooted (Clean c) = rooted c.
Proof.
  destruct (rooted c) eqn:R.
  - destruct c as [|x c]; [discriminate |].
    unfold Clean. rewrite R. unfold render, rooted. simpl. reflexivity.
  - rewrite (Clean_relative _ R).
    pose proof (cleanElems_kept false c) as HK.
    apply Forall_rev in HK. fold (elemsOf c) in HK.
    destruct (elemsOf c) as [|e L]; [reflexivity |].
    inversion HK; subst. now apply rooted_join_kept.
Qed.

Lemma Clean_not_empty c : Clean c <> "".
Proof.
  destruct (rooted c) eqn:R.
  - destruct c as [|x c]; [discriminate |].
    unfold Clean. rewrite R. discriminate.
  - rewrite (Clean_relative _ R).
    pose proof (cleanElems_kept false c) as HK.
    apply Forall_rev in HK. fold (elemsOf c) in HK.
    destruct (elemsOf c) as [|e L]; [discriminate |].
    inversion HK as [|? ? He _]; subst.
    destruct (keptElem_head _ He) as (x & e' & -> & _).
    unfold renderElems.
    destruct (join_head (String x e') L) as [t ->].
    rewrite sapp_cons. discriminate.
Qed.

Lemma outside_dotdot L : android.outside (join (".." :: L)) = true.
Proof.
  destruct L as [|e L]; [reflexivity |].
  rewrite join_cons by discriminate. reflexivity.
Qed.

Lemma validComp_relative c : validComp c = true -> rooted c = false.
Proof.
  unfold validComp, android.outside. intros H. apply negb_true_iff in H.
  apply orb_false_iff in H as [_ H]. now rewrite <- rooted_Clean.
Qed.

Lemma validComp_proper c :
  validComp c = true -> Forall (fun x => properElem x = true) (elemsOf c).
Proof.
  intros H. pose proof (validComp_relative _ H) as R.
  unfold validComp in H. apply negb_true_iff in H.
  rewrite (Clean_relative _ R) in H. unfold elemsOf in *.
  destruct (cleanElems_shaped c) as (P & D & E & HP & HD).
  rewrite E in *. destruct D as [|d D] using rev_ind.
  - rewrite app_nil_r. now apply Forall_rev.
  - exfalso. apply Forall_app in HD as [_ Hd]. inversion Hd; subst.
    rewrite app_assoc, rev_unit in H. unfold renderElems in H.
    now rewrite outside_dotdot in H.
Qed.

(** Cleaning the elements of two paths one after the other: when the
    second path is a valid component, its elements are put after those
    of the first. *)
Lemma fold_cleanStep_app elems out :
  Forall (fun x => slashFree x = true) elems ->
  Forall (fun x => properElem x = true) (fold_left (cleanStep false) elems []) ->
  fold_left (cleanStep false) elems out =
  fold_left (cleanStep false) elems [] ++ out.
Proof.
  induction elems as [|e elems IH] using rev_ind; intros HS HP; [reflexivity |].
  apply Forall_app in HS as [HS He]. inversion He as [|? ? He' _]; subst.
  rewrite !fold_left_app in *. simpl in *.
  pose proof (fold_cleanStep_kept false elems [] HS ltac:(constructor)) as HK.
  set (T := fold_left (cleanStep false) elems []) in *.
  assert (HT : Forall (fun x => properElem x = true) T).
  { revert HP. unfold cleanStep.
    destruct (String.eqb e ""); [auto |].
    destruct (String.eqb e "."); [auto |].
    destruct (String.eqb e "..").
    - destruct T as [|last T']; [intros _; constructor |].
      destruct (String.eqb last "..") eqn:EL.
      + intros HP. now inversion HP.
      + intros HP. inversion HK; subst. constructor; [| assumption].
        now apply keptElem_proper.
    - intros HP. now inversion HP. }
  rewrite (IH HS HT). fold T. revert HP. unfold cleanStep.
  destruct (String.eqb e ""); [reflexivity |].
  destruct (String.eqb e "."); [reflexivity |].
  destruct (String.eqb_spec e "..") as [->|]; [| reflexivity].
  destruct T as [|last T'].
  - intros HP. inversion HP as [|? ? Hbad _]; subst. discriminate Hbad.
  - simpl. inversion HT as [|? ? Hl _]; subst.
    assert (String.eqb last ".." = false) as ->; [| reflexivity].
    unfold properElem in Hl. destruct (String.eqb last ".."); [| reflexivity].
    now rewrite !andb_false_r in Hl.
Qed.

Lemma fold_cleanStep_properL r L out :
  Forall (fun x => properElem x = true) L ->
  fold_left (cleanStep r) L out = rev L ++ out.
Proof.
  revert out; induction L as [|e L IH]; intros out HL; [reflexivity |].
  inversion HL; subst. simpl. rewrite cleanStep_proper by assumption.
  rewrite IH by assumption. now rewrite <- app_assoc.
Qed.

Lemma Forall_proper_slashFree L :
  Forall (fun x => properElem x = true) L ->
  Forall (fun x => slashFree x = true) L.
Proof. induction 1; constructor; auto using properElem_slashFree. Qed.

Lemma elemsOf_renderElems L :
  Forall (fun x => properElem x = true) L -> elemsOf (renderElems L) = L.
Proof.
  intros HL. destruct L as [|e L]; [reflexivity |].
  unfold renderElems, elemsOf, cleanElems.
  rewrite split_join; [| discriminate | now apply Forall_proper_slashFree].
  rewrite fold_cleanStep_properL by assumption.
  now rewrite app_nil_r, rev_involutive.
Qed.

Lemma renderElems_inj L1 L2 :
  Forall (fun x => properElem x = true) L1 ->
  Forall (fun x => properElem x = true) L2 ->
  renderElems L1 = renderElems L2 -> L1 = L2.
Proof.
  intros H1 H2 E.
  rewrite <- (elemsOf_renderElems L1 H1), <- (elemsOf_renderElems L2 H2).
  now rewrite E.
Qed.

Lemma rooted_renderElems L :
  Forall (fun x => properElem x = true) L -> rooted (renderElems L) = false.
Proof.
  intros HL. destruct L as [|e L]; [reflexivity |].
  inversion HL; subst. apply rooted_join_kept. now apply properElem_kept.
Qed.

Lemma Clean_renderElems L :
  Forall (fun x => properElem x = true) L -> Clean (renderElems L) = renderElems L.
Proof.
  intros HL. rewrite Clean_relative by now apply rooted_renderElems.
  now rewrite elemsOf_renderElems.
Qed.

Lemma proper_not_dotdot L :
  Forall (fun x => properElem x = true) (".." :: L) -> False.
Proof. intros H. inversion H as [|? ? Hd _]. discriminate Hd. Qed.

Lemma outside_renderElems L :
  Forall (fun x => properElem x = true) L ->
  android.outside (renderElems L) = false.
Proof.
  intros HL. unfold android.outside.
  fold (rooted (renderElems L)). rewrite rooted_renderElems by assumption.
  rewrite orb_false_r. apply orb_false_iff; split.
  - apply String.eqb_neq. intros E.
    pose proof (elemsOf_renderElems L HL) as EL. rewrite E in EL.
    change (elemsOf "..") with [".."] in EL. subst L.
    now apply proper_not_dotdot in HL.
  - destruct (HasPrefix (renderElems L) "../") eqn:HP; [| reflexivity].
    exfalso. apply HasPrefix_inv in HP as [z Hz].
    destruct L as [|e L]; [discriminate Hz |].
    pose proof (split_join (e :: L) ltac:(discriminate)
                  (Forall_proper_slashFree _ HL)) as ES.
    unfold renderElems in Hz. rewrite Hz in ES.
    change ("../" +:+ z) with (".." +:+ String slash z) in ES.
    rewrite split_app_slash in ES. simpl in ES. injection ES as <- _.
    now apply proper_not_dotdot in HL.
Qed.

Lemma validComp_renderElems L :
  Forall (fun x => properElem x = true) L -> validComp (renderElems L) = true.
Proof.
  intros HL. unfold validComp.
  now rewrite Clean_renderElems, outside_renderElems.
Qed.

Lemma split_join_flat L : L <> [] -> split (join L) = flat_map split L.
Proof.
  induction L as [|e L IH]; [congruence |]. intros _.
  destruct L as [|e' L'].
  - simpl. now rewrite app_nil_r.
  - rewrite join_cons by discriminate. rewrite split_app_slash, IH by discriminate.
    reflexivity.
Qed.

Lemma cleanElems_flat comps :
  Forall (fun c => validComp c = true) comps ->
  cleanElems false (flat_map split comps) = rev (flat_map elemsOf comps).
Proof.
  induction comps as [|c comps IH] using rev_ind; intros HV; [reflexivity |].
  apply Forall_app in HV as [HV Hc]. inversion Hc as [|? ? Hc' _]; subst.
  rewrite !flat_map_app. simpl. rewrite !app_nil_r.
  unfold cleanElems in *. rewrite fold_left_app, (IH HV).
  rewrite fold_cleanStep_app.
  - rewrite rev_app_distr. unfold elemsOf, cleanElems.
    now rewrite rev_involutive.
  - apply split_slashFree.
  - pose proof (validComp_proper _ Hc') as HP. apply Forall_rev in HP.
    unfold elemsOf, cleanElems in HP. now rewrite rev_involutive in HP.
Qed.

Lemma flat_elemsOf_proper comps :
  Forall (fun c => validComp c = true) comps ->
  Forall (fun x => properElem x = true) (flat_map elemsOf comps).
Proof.
  induction 1 as [|c comps Hc _ IH]; simpl; [constructor |].
  apply Forall_app; split; [now apply validComp_proper | exact IH].
Qed.

Lemma rooted_join_head e L : e <> "" -> rooted (join (e :: L)) = rooted e.
Proof.
  intros He. destruct e as [|x e]; [congruence |].
  destruct (join_head (String x e) L) as [t ->]. reflexivity.
Qed.

Lemma Join_cons e rest :
  Join (e :: rest) = if String.eqb e "" then Join rest else Clean (join (e :: rest)).
Proof. reflexivity. Qed.

(** [Join] of valid components: the elements of the result are those of
    the components one after the other, and the result is the empty
    string (no non-empty component) or is written from these elements. *)
Lemma Join_valid comps :
  Forall (fun c => validComp c = true) comps ->
  elemsOf (Join comps) = flat_map elemsOf comps /\
  (Join comps = "" \/ Join comps = renderElems (flat_map elemsOf comps)).
Proof.
  intros HV. induction comps as [|e rest IH]; [split; [reflexivity | now left] |].
  inversion HV as [|? ? He Hrest]; subst. rewrite Join_cons.
  destruct (String.eqb_spec e "") as [->|Hne].
  - destruct (IH Hrest) as [IH1 IH2]. split; [exact IH1 | exact IH2].
  - assert (E : Clean (join (e :: rest)) = renderElems (flat_map elemsOf (e :: rest))).
    { rewrite Clean_relative.
      - f_equal. unfold elemsOf at 1.
        rewrite split_join_flat by discriminate.
        rewrite cleanElems_flat by assumption. apply rev_involutive.
      - rewrite rooted_join_head by assumption. now apply validComp_relative. }
    split; [| now right].
    rewrite E. apply elemsOf_renderElems. now apply flat_elemsOf_proper.
Qed.

Lemma Join_valid_validComp comps :
  Forall (fun c => validComp c = true) comps -> validComp (Join comps) = true.
Proof.
  intros HV. destruct (Join_valid comps HV) as [_ [-> | ->]]; [reflexivity |].
  apply validComp_renderElems. now apply flat_elemsOf_proper.
Qed.

Lemma elemsOf_proper_elem e : properElem e = true -> elemsOf e = [e].
Proof.
  intros He. change e with (renderElems [e]) at 1.
  apply elemsOf_renderElems. now constructor.
Qed.

Lemma validComp_proper_elem e : properElem e = true -> validComp e = true.
Proof.
  intros He. change e with (renderElems [e]).
  apply validComp_renderElems. now constructor.
Qed.

End CleanFacts.

(** ** Validation of path components *)

Module ValidateFacts.
Import GoStrings filepath android PathVocabulary StringFacts CleanFacts.

Lemma validateLoop_isSome comps :
  isSome (validateLoop comps) = existsb (fun c => Contains c "$") comps.
Proof.
  induction comps as [|c comps IH]; [reflexivity |].
  simpl. destruct (Contains c "$"); [reflexivity | exact IH].
Qed.

Lemma validateSafeLoop_isSome comps :
  isSome (validateSafeLoop comps) = existsb (fun c => outside (Clean c)) comps.
Proof.
  induction comps as [|c comps IH]; [reflexivity |].
  simpl. destruct (outside (Clean c)); [reflexivity | exact IH].
Qed.

Lemma existsb_false_Forall {A} (f : A -> bool) l :
  existsb f l = false -> Forall (fun x => negb (f x) = true) l.
Proof.
  induction l as [|x l IH]; simpl; intros H; [constructor |].
  apply orb_false_iff in H as [Hx Hl]. constructor; [now rewrite Hx | auto].
Qed.

Lemma validateSafeLoop_None comps :
  validateSafeLoop comps = None -> Forall (fun c => validComp c = true) comps.
Proof.
  intros H. apply existsb_false_Forall.
  rewrite <- validateSafeLoop_isSome, H. reflexivity.
Qed.

Lemma validateSafeLoop_valid comps :
  Forall (fun c => validComp c = true) comps -> validateSafeLoop comps = None.
Proof.
  induction 1 as [|c comps Hc _ IH]; [reflexivity |].
  simpl. unfold validComp in Hc. apply negb_true_iff in Hc. now rewrite Hc.
Qed.

(** A path that [validatePath] lets through is the join of valid
    components. *)
Lemma validatePath_ok comps p :
  validatePath comps = (p, None) ->
  p = Join comps /\ Forall (fun c => validComp c = true) comps.
Proof.
  unfold validatePath, validateSafePath.
  destruct (validateLoop comps); [discriminate |].
  destruct (validateSafeLoop comps) eqn:E; [discriminate |].
  intros [= <-]. split; [reflexivity | now apply validateSafeLoop_None].
Qed.

Lemma validatePath_err comps p e :
  validatePath comps = (p, Some e) -> p = "".
Proof.
  unfold validatePath, validateSafePath.
  destruct (validateLoop comps); [now intros [= <- _] |].
  destruct (validateSafeLoop comps); [now intros [= <- _] | discriminate].
Qed.

Lemma outside_Clean_rejected c :
  outside (Clean c) =
  HasPrefix c "/" || String.eqb (Clean c) ".." || HasPrefix (Clean c) "../".
Proof.
  unfold outside. fold (rooted (Clean c)). rewrite rooted_Clean. unfold rooted.
  destruct (String.eqb (Clean c) ".."), (HasPrefix (Clean c) "../"),
    (HasPrefix c "/"); reflexivity.
Qed.

Lemma existsb_rejected comps :
  existsb rejected comps =
  existsb (fun c => Contains c "$") comps ||
  existsb (fun c => outside (Clean c)) comps.
Proof.
  induction comps as [|c comps IH]; [reflexivity |].
  simpl. rewrite IH, outside_Clean_rejected. unfold rejected.
  destruct (Contains c "$"), (HasPrefix c "/"), (String.eqb (Clean c) ".."),
    (HasPrefix (Clean c) "../"),
    (existsb (fun c => Contains c "$") comps); reflexivity.
Qed.

(** C2. For every list of path components, [validatePath] returns an
    error (and the empty path) whenever some component holds the variable
    marker [$], is absolute, or has a cleaned form that is [..] or starts
    with [../]; otherwise it returns, without error, the cleaned join of
    the components. *)
Theorem validatePath_rejects_or_joins (pathComponents : list string) :
  isSome (snd (validatePath pathComponents)) = existsb rejected pathComponents /\
  fst (validatePath pathComponents) =
    (if existsb rejected pathComponents then "" else Join pathComponents).
Proof.
  rewrite existsb_rejected, <- validateLoop_isSome, <- validateSafeLoop_isSome.
  unfold validatePath, validateSafePath.
  destruct (validateLoop pathComponents); [split; reflexivity |].
  destruct (validateSafeLoop pathComponents); split; reflexivity.
Qed.

End ValidateFacts.

(** ** The functions on concrete inputs *)

Module SanityChecks.
Import GoStrings filepath android PathVocabulary Examples.

Example clean_plain : Clean "abc/def" = "abc/def". Proof. reflexivity. Qed.
Example clean_empty : Clean "" = ".". Proof. reflexivity. Qed.
Example clean_root : Clean "/" = "/". Proof. reflexivity. Qed.
Example clean_trailing : Clean "abc/def/" = "abc/def". Proof. reflexivity. Qed.
Example clean_double : Clean "abc//def//ghi" = "abc/def/ghi". Proof. reflexivity. Qed.
Example clean_dot : Clean "abc/./def" = "abc/def". Proof. reflexivity. Qed.
Example clean_inner_up : Clean "abc/def/ghi/../jkl" = "abc/def/jkl". Proof. reflexivity. Qed.
Example clean_to_dot : Clean "abc/def/../.." = ".". Proof. reflexivity. Qed.
Example clean_root_up : Clean "/abc/def/../../.." = "/". Proof. reflexivity. Qed.
Example clean_escape : Clean "abc/def/../../.." = "..". Proof. reflexivity. Qed.
Example clean_escape_twice :
  Clean "abc/def/../../../ghi/jkl/../../../mno" = "../../mno".
Proof. reflexivity. Qed.
Example clean_mixed : Clean "abc/../../././../def" = "../../def". Proof. reflexivity. Qed.
Example clean_rooted_up : Clean "/../abc" = "/abc". Proof. reflexivity. Qed.
Example clean_three_dots : Clean "a/.../b" = "a/.../b". Proof. reflexivity. Qed.
Example join_two : Join ["a"; "b"] = "a/b". Proof. reflexivity. Qed.
Example join_empty_first : Join [""; "b"] = "b". Proof. reflexivity. Qed.
Example join_empty_last : Join ["a"; ""] = "a". Proof. reflexivity. Qed.
Example join_all_empty : Join [""; ""] = "". Proof. reflexivity. Qed.
Example join_rooted : Join ["/"; "a"] = "/a". Proof. reflexivity. Qed.
Example join_up : Join ["a"; "../b"] = "b". Proof. reflexivity. Qed.

Example validatePath_accepts :
  validatePath ["a"; "b/../c"] = ("a/c", None).
Proof. reflexivity. Qed.

Example validatePath_variable :
  validatePath ["a"; "$(OUT)/b"] =
  ("", Some (Errorf "Path contains invalid character($): %s" ["$(OUT)/b"])).
Proof. reflexivity. Qed.

Example validatePath_escape :
  validatePath ["a"; "b/../../c"] =
  ("", Some (Errorf "Path is outside directory: %s" ["../c"])).
Proof. reflexivity. Qed.

Example validatePath_absolute :
  validatePath ["/etc/passwd"] =
  ("", Some (Errorf "Path is outside directory: %s" ["/etc/passwd"])).
Proof. reflexivity. Qed.

Example pathForSource_in_output :
  snd (pathForSource testPathContext ["out"; "gen.c"]) =
  Some (Errorf "source path %q is in output" ["out/gen.c"]).
Proof. reflexivity. Qed.

Example PathForModuleOut_example :
  PathForModuleOut (moduleContext "art/runtime" "libart" "android_arm64")
    ["obj"; "a.o"] noEffects =
  Returned
    {| moduleOutOutput := {| outputBase :=
         {| path := ".intermediates/art/runtime/libart/android_arm64/obj/a.o";
            bpConfig := exampleConfig; rel := "obj/a.o" |} |} |}
    noEffects.
Proof. reflexivity. Qed.

Example PathForModuleInstall_host :
  installOutPaths
    {| config := exampleConfig; asModuleContext := true; asModuleErrorf := true;
       asErrorfContext := true; asPathGlobContext := true;
       FsExists := exampleExists; Glob := exampleGlob;
       ModuleDir := "art"; ModuleName := "dex2oat"; ModuleSubDir := "linux_glibc";
       Device := false; Os := Linux; Debug := true;
       InstallInData := true; InstallInSanitizerDir := true;
       InstallInRecovery := false; SocSpecific := false;
       DeviceSpecific := false; ProductSpecific := false;
       ProductServicesSpecific := false;
       OverridePackageNameFor := fun name => name |} =
  ["debug"; "host"; "linux-x86"].
Proof. reflexivity. Qed.

End SanityChecks.

(** ** [OptionalPath] *)

Module OptionalPathProps.
Import android.

(** C10. For every [OptionalPath], [Path()] returns the embedded path
    exactly when [Valid()] is true and panics otherwise;
    [OptionalPathForPath] gives an invalid value for the nil path and a
    valid one holding the path otherwise; [String()] is the empty string
    on every invalid value. *)
Theorem OptionalPath_contract (p : OptionalPath) (q : Path) (e : Effects) :
  OptionalPath_Path p e =
    (if OptionalPath_Valid p then Returned (optPath p) e
     else Panicked (Errorf "Requesting an invalid path" [])) /\
  OptionalPath_Valid (OptionalPathForPath None) = false /\
  OptionalPathForPath (Some q) = {| valid := true; optPath := Some q |} /\
  (if OptionalPath_Valid p then True else OptionalPath_String p = "").
Proof.
  unfold OptionalPath_Path, OptionalPath_Valid, OptionalPath_String.
  destruct p as [[] o]; simpl; repeat split; reflexivity.
Qed.

End OptionalPathProps.

(** ** Paths made by the constructors *)

Module ConstructorFacts.
Import GoStrings filepath android PathVocabulary StringFacts CleanFacts ValidateFacts.

Lemma PathForOutput_ok ctx comps p e :
  validatePath comps = (p, None) ->
  PathForOutput ctx comps e =
  Returned {| outputBase := {| path := p; bpConfig := config ctx; rel := "" |} |} e.
Proof. intros H. unfold PathForOutput. rewrite H. reflexivity. Qed.

Lemma validatePath_None comps :
  snd (validatePath comps) = None -> validatePath comps = (Join comps, None).
Proof.
  destruct (validatePath comps) as [p o] eqn:E. simpl. intros ->.
  now destruct (validatePath_ok _ _ E) as [-> _].
Qed.

Lemma validatePath_None_valid comps :
  snd (validatePath comps) = None -> Forall (fun c => validComp c = true) comps.
Proof.
  intros H. apply validatePath_None in H. now apply validatePath_ok in H.
Qed.

(** What [validatePath] returns is a valid component again. *)
Lemma validatePath_fst_valid comps : validComp (fst (validatePath comps)) = true.
Proof.
  destruct (validatePath comps) as [p [err|]] eqn:E; simpl.
  - now rewrite (validatePath_err _ _ _ E).
  - destruct (validatePath_ok _ _ E) as [-> HV]. now apply Join_valid_validComp.
Qed.

Lemma Join_valid_render comps :
  Forall (fun c => validComp c = true) comps ->
  flat_map elemsOf comps <> [] ->
  Join comps = renderElems (flat_map elemsOf comps).
Proof.
  intros HV HN. destruct (Join_valid comps HV) as [HE [H0 | H]]; [| exact H].
  rewrite H0 in HE. now rewrite <- HE in HN.
Qed.

Lemma Join_single r : r <> "" -> Join [r] = Clean r.
Proof.
  intros H. rewrite Join_cons. now destruct (String.eqb_spec r "").
Qed.

End ConstructorFacts.

(** ** Install destinations *)

Module InstallProps.
Import GoStrings filepath android PathVocabulary ConstructorFacts.

(** C7. The install destination is a function of the module attributes
    that has a value for every combination of them: the components put
    before the arguments of [PathForModuleInstall] are the optional
    [debug], then [target/product/<device>/<partition>] for a device
    module and [host/<os>-x86] for a host module; the partition is [data]
    if the module installs in data, else the recovery root if it installs
    in recovery, else the vendor, odm, product or product-services
    partition in this order, else [system]; the sanitizer flag puts
    [data/asan/] before the partition.  With components that pass
    [validatePath] the function returns the joined path and reports
    nothing, whatever the attributes are. *)
Theorem install_destination_total (ctx : Context) :
  (forall pathComponents,
     PathForModuleInstall ctx pathComponents =
     PathForOutput ctx (installOutPaths ctx ++ pathComponents)) /\
  installOutPaths ctx =
    (if Debug ctx then ["debug"] else []) ++
    (if Device ctx
     then ["target"; "product"; DeviceName (config ctx); modulePartition ctx]
     else match Os ctx with
          | Linux => ["host"; "linux-x86"]
          | LinuxBionic => ["host"; "linux_bionic-x86"]
          | OtherOs name => ["host"; name +:+ "-x86"]
          end) /\
  modulePartition ctx =
    (if InstallInSanitizerDir ctx then "data/asan/" else "") +:+
    (if InstallInData ctx then "data"
     else if InstallInRecovery ctx then "recovery/root/system"
     else if SocSpecific ctx then VendorPath (config ctx)
     else if DeviceSpecific ctx then OdmPath (config ctx)
     else if ProductSpecific ctx then ProductPath (config ctx)
     else if ProductServicesSpecific ctx then ProductServicesPath (config ctx)
     else "system") /\
  (forall pathComponents e,
     if isSome (snd (validatePath (installOutPaths ctx ++ pathComponents)))
     then True
     else PathForModuleInstall ctx pathComponents e =
          Returned
            {| outputBase :=
                 {| path := Join (installOutPaths ctx ++ pathComponents);
                    bpConfig := config ctx; rel := "" |} |} e).
Proof.
  split; [reflexivity |]. split; [| split].
  - unfold installOutPaths.
    destruct (Debug ctx), (Device ctx); try reflexivity;
      destruct (Os ctx); reflexivity.
  - unfold modulePartition. destruct (InstallInSanitizerDir ctx); reflexivity.
  - intros comps e.
    destruct (snd (validatePath (installOutPaths ctx ++ comps))) eqn:E;
      [exact I |].
    unfold PathForModuleInstall.
    apply PathForOutput_ok. now apply validatePath_None.
Qed.

End InstallProps.

(** ** [Join] and [Rel] *)

Module JoinRelProps.
Import GoStrings filepath android PathVocabulary StringFacts CleanFacts
  ValidateFacts ConstructorFacts Examples.

(** C5, as it is stated, fails: the relative name of a joined path is
    the cleaned form of the component, here [lib/x] for [lib//x], which
    [validatePath] accepts. *)
Lemma Join_Rel_not_exact :
  snd (validatePath ["lib//x"]) = None /\
  exists p',
    OutputPath_Join (outputPath "gen") testPathContext ["lib//x"] noEffects =
      Returned p' noEffects /\
    OutputPath_Rel p' = "lib/x" /\ OutputPath_Rel p' <> "lib//x".
Proof.
  split; [reflexivity |]. eexists. split; [reflexivity |].
  split; [reflexivity | discriminate].
Qed.

(** C5, amended.  For every path [p] (an output path or a source path,
    whatever its root) and every non-empty component [r] that
    [validatePath] accepts, [p.Join(ctx, r).Rel()] is the cleaned form of
    [r], and so [r] itself when [r] is in cleaned form; no error is
    reported. *)
Theorem Join_then_Rel_is_cleaned
  (op : OutputPath) (sp : SourcePath) (ctx : Context) (r : string) (e : Effects) :
  snd (validatePath [r]) = None -> r <> "" ->
  (exists op', OutputPath_Join op ctx [r] e = Returned op' e /\
               OutputPath_Rel op' = Clean r /\
               (Clean r = r -> OutputPath_Rel op' = r)) /\
  (exists sp', SourcePath_Join sp ctx [r] e = Returned sp' e /\
               SourcePath_Rel sp' = Clean r /\
               (Clean r = r -> SourcePath_Rel sp' = r)).
Proof.
  intros HV Hr. apply validatePath_None in HV.
  rewrite (Join_single _ Hr) in HV.
  assert (HR : forall b, basePath_Rel (basePath_withRel b (Clean r)) = Clean r).
  { intros b. unfold basePath_Rel, basePath_withRel. simpl.
    destruct (String.eqb_spec (Clean r) "") as [E|_]; [| reflexivity].
    now apply Clean_not_empty in E. }
  split.
  - exists (OutputPath_withRel op (Clean r)). unfold OutputPath_Join. rewrite HV.
    split; [reflexivity |]. unfold OutputPath_Rel. simpl. rewrite HR.
    split; [reflexivity | auto].
  - exists (SourcePath_withRel sp (Clean r)). unfold SourcePath_Join. rewrite HV.
    split; [reflexivity |]. unfold SourcePath_Rel. simpl. rewrite HR.
    split; [reflexivity | auto].
Qed.

(** The component [lib/x], which is in cleaned form, joined to an output
    path and to a source path. *)
Lemma Join_then_Rel_is_cleaned_witness :
  snd (validatePath ["lib/x"]) = None /\ "lib/x" <> "" /\
  (exists op', OutputPath_Join (outputPath "gen") testPathContext ["lib/x"] noEffects
                 = Returned op' noEffects /\
               OutputPath_Rel op' = Clean "lib/x" /\
               (Clean "lib/x" = "lib/x" -> OutputPath_Rel op' = "lib/x")) /\
  (exists sp', SourcePath_Join (sourcePath "src") testPathContext ["lib/x"] noEffects
                 = Returned sp' noEffects /\
               SourcePath_Rel sp' = Clean "lib/x" /\
               (Clean "lib/x" = "lib/x" -> SourcePath_Rel sp' = "lib/x")).
Proof.
  split; [reflexivity |]. split; [discriminate |].
  apply (Join_then_Rel_is_cleaned (outputPath "gen") (sourcePath "src")
           testPathContext "lib/x" noEffects); [reflexivity | discriminate].
Defined.

End JoinRelProps.

(** ** Module output roots *)

Module ModuleOutProps.
Import GoStrings filepath android PathVocabulary StringFacts CleanFacts
  ValidateFacts ConstructorFacts Examples.

Lemma elemsOf_subDir s :
  properElem s = true \/ s = "" -> elemsOf s = subDirElems s.
Proof.
  intros [H | ->]; [| reflexivity].
  rewrite (elemsOf_proper_elem _ H). unfold subDirElems.
  destruct (String.eqb_spec s "") as [->|]; [discriminate H | reflexivity].
Qed.

Lemma plainTuple_elems ctx :
  plainTuple ctx ->
  flat_map elemsOf
    [".intermediates"; ModuleDir ctx; ModuleName ctx; ModuleSubDir ctx] =
  rootElems ctx.
Proof.
  intros (_ & _ & Hn & Hs). unfold rootElems. simpl flat_map.
  rewrite (elemsOf_proper_elem _ Hn), (elemsOf_subDir _ Hs), app_nil_r.
  reflexivity.
Qed.

Lemma plainTuple_proper ctx :
  plainTuple ctx -> Forall (fun x => properElem x = true) (rootElems ctx).
Proof.
  intros H. rewrite <- (plainTuple_elems _ H).
  apply flat_elemsOf_proper. destruct H as (H & _).
  now apply validatePath_None_valid.
Qed.

(** The output root of a plain module variant, written from its
    elements; nothing is reported. *)
Lemma pathForModule_plain ctx e :
  plainTuple ctx ->
  pathForModule ctx e =
  Returned {| outputBase := {| path := renderElems (rootElems ctx);
                               bpConfig := config ctx; rel := "" |} |} e.
Proof.
  intros H. pose proof H as (HV & _).
  unfold pathForModule. rewrite (PathForOutput_ok _ _ _ _ (validatePath_None _ HV)).
  rewrite Join_valid_render.
  - now rewrite plainTuple_elems.
  - now apply validatePath_None_valid.
  - now rewrite plainTuple_elems.
Qed.

Lemma subDirElems_inj s1 s2 (A B : list string) n1 n2 :
  (s1 = "" <-> s2 = "") ->
  A ++ [n1] ++ subDirElems s1 = B ++ [n2] ++ subDirElems s2 ->
  A = B /\ n1 = n2 /\ s1 = s2.
Proof.
  unfold subDirElems. intros Hiff.
  destruct (String.eqb_spec s1 "") as [E1|N1], (String.eqb_spec s2 "") as [E2|N2].
  - subst. rewrite !app_nil_r. intros H. apply app_inj_tail in H as [-> ->]. auto.
  - apply Hiff in E1. contradiction.
  - apply Hiff in E2. contradiction.
  - intros H. change (A ++ [n1] ++ [s1]) with (A ++ [n1; s1]) in H.
    change (B ++ [n2] ++ [s2]) with (B ++ [n2; s2]) in H.
    replace (A ++ [n1; s1]) with ((A ++ [n1]) ++ [s1]) in H
      by now rewrite <- app_assoc.
    replace (B ++ [n2; s2]) with ((B ++ [n2]) ++ [s2]) in H
      by now rewrite <- app_assoc.
    apply app_inj_tail in H as [H ->]. apply app_inj_tail in H as [-> ->]. auto.
Qed.

Lemma rootElems_inj ctx1 ctx2 :
  plainTuple ctx1 -> plainTuple ctx2 ->
  (ModuleSubDir ctx1 = "" <-> ModuleSubDir ctx2 = "") ->
  rootElems ctx1 = rootElems ctx2 -> moduleTuple ctx1 = moduleTuple ctx2.
Proof.
  intros H1 H2 Hiff E. unfold rootElems in E. injection E as E.
  apply (subDirElems_inj _ _ _ _ _ _ Hiff) in E as (Ed & En & Es).
  unfold moduleTuple. rewrite En, Es. do 2 f_equal.
  destruct H1 as (HV1 & HC1 & _), H2 as (HV2 & HC2 & _).
  apply validatePath_None_valid in HV1, HV2.
  inversion HV1 as [|? ? _ HV1']; inversion HV1' as [|? ? Hd1 _]; subst.
  inversion HV2 as [|? ? _ HV2']; inversion HV2' as [|? ? Hd2 _]; subst.
  rewrite <- HC1, <- HC2.
  rewrite !Clean_relative by now apply validComp_relative.
  now rewrite Ed.
Qed.

Lemma PathForModuleOut_elems ctx paths e o e' :
  plainTuple ctx ->
  PathForModuleOut ctx paths e = Returned o e' ->
  elemsOf (path (outputBase (moduleOutOutput o))) =
  rootElems ctx ++ elemsOf (fst (validatePath paths)).
Proof.
  intros HP. unfold PathForModuleOut.
  pose proof (validatePath_fst_valid paths) as Hp.
  destruct (validatePath paths) as [p err]. simpl in Hp |- *.
  unfold bind. destruct (reportIfError ctx err e) as [[] e0|]; [| discriminate].
  rewrite (pathForModule_plain _ _ HP). intros [= <- _].
  change (elemsOf (Join [renderElems (rootElems ctx); p]) =
          rootElems ctx ++ elemsOf p).
  assert (HV : Forall (fun c => validComp c = true)
                 [renderElems (rootElems ctx); p]).
  { repeat constructor; [| exact Hp].
    apply validComp_renderElems. now apply plainTuple_proper. }
  destruct (Join_valid _ HV) as [-> _]. cbn [flat_map].
  rewrite elemsOf_renderElems by now apply plainTuple_proper.
  now rewrite app_nil_r.
Qed.

(** C1, as it is stated, fails: a module [core] of [frameworks/base]
    with the variant [android_common] and a module [android_common] of
    [frameworks/base/core] without variants have the same output root. *)
Lemma module_roots_collide :
  let ctx1 := moduleContext "frameworks/base" "core" "android_common" in
  let ctx2 := moduleContext "frameworks/base/core" "android_common" "" in
  moduleTuple ctx1 <> moduleTuple ctx2 /\
  exists root,
    pathForModule ctx1 noEffects = Returned root noEffects /\
    pathForModule ctx2 noEffects = Returned root noEffects /\
    path (outputBase root) = ".intermediates/frameworks/base/core/android_common".
Proof.
  split; [discriminate |].
  eexists. split; [reflexivity |]. split; reflexivity.
Qed.

(** C1, amended.  Take two module variants whose output roots are built
    without a path error, whose module directories are in cleaned form,
    whose names are single path elements and whose variant directories
    are single path elements or both empty.  If they differ in module
    directory, name or variant directory, their output roots differ, and
    so do the paths [PathForModuleOut] gives them for the same
    components. *)
Theorem module_output_paths_distinct (ctx1 ctx2 : Context) (e1 e2 : Effects) :
  plainTuple ctx1 -> plainTuple ctx2 ->
  (ModuleSubDir ctx1 = "" <-> ModuleSubDir ctx2 = "") ->
  moduleTuple ctx1 <> moduleTuple ctx2 ->
  (exists r1 r2,
     pathForModule ctx1 e1 = Returned r1 e1 /\
     pathForModule ctx2 e2 = Returned r2 e2 /\
     path (outputBase r1) <> path (outputBase r2)) /\
  (forall paths o1 o2 e1' e2',
     PathForModuleOut ctx1 paths e1 = Returned o1 e1' ->
     PathForModuleOut ctx2 paths e2 = Returned o2 e2' ->
     path (outputBase (moduleOutOutput o1)) <>
     path (outputBase (moduleOutOutput o2))).
Proof.
  intros H1 H2 Hiff Hne. split.
  - do 2 eexists. rewrite !pathForModule_plain by assumption.
    split; [reflexivity |]. split; [reflexivity |].
    cbn [path outputBase]. intros E.
    apply renderElems_inj in E; try now apply plainTuple_proper.
    now apply Hne, rootElems_inj.
  - intros paths o1 o2 e1' e2' E1 E2 E.
    apply (PathForModuleOut_elems _ _ _ _ _ H1) in E1.
    apply (PathForModuleOut_elems _ _ _ _ _ H2) in E2.
    rewrite E, E2 in E1. apply app_inv_tail in E1.
    now apply Hne, rootElems_inj.
Qed.

(** Two plain module variants with the same name of variant directory
    in different directories. *)
Lemma module_output_paths_distinct_witness :
  let ctx1 := moduleContext "frameworks/base" "core" "android_common" in
  let ctx2 := moduleContext "frameworks/base/core" "android_common" "android_common" in
  exists r1 r2,
    pathForModule ctx1 noEffects = Returned r1 noEffects /\
    pathForModule ctx2 noEffects = Returned r2 noEffects /\
    path (outputBase r1) <> path (outputBase r2).
Proof.
  refine (proj1 (module_output_paths_distinct
            (moduleContext "frameworks/base" "core" "android_common")
            (moduleContext "frameworks/base/core" "android_common" "android_common")
            noEffects noEffects _ _ _ _)).
  - repeat split; try reflexivity. left; reflexivity.
  - repeat split; try reflexivity. left; reflexivity.
  - split; discriminate.
  - discriminate.
Defined.

End ModuleOutProps.

(** ** Where a privileged app is installed *)

Module AppInstallProps.
Import GoStrings filepath android java PathVocabulary StringFacts CleanFacts
  ValidateFacts ConstructorFacts Examples.

Lemma renderElems_join L : L <> [] -> renderElems L = join L.
Proof. destruct L; [congruence | reflexivity]. Qed.

Lemma under_render_app S T :
  Forall (fun x => properElem x = true) S -> S <> [] ->
  under (renderElems S) (renderElems (S ++ T)) = true.
Proof.
  intros HS HN. unfold under. destruct T as [|t T].
  - rewrite app_nil_r, String.eqb_refl. reflexivity.
  - apply orb_true_iff; right.
    rewrite (renderElems_join (S ++ t :: T)) by (destruct S; discriminate).
    rewrite join_app by (assumption || discriminate).
    rewrite (renderElems_join S HN).
    change (String slash (join (t :: T))) with ("/" +:+ join (t :: T)).
    rewrite <- sapp_assoc. apply HasPrefix_app.
Qed.

Lemma not_under_render S a b T :
  a <> b ->
  Forall (fun x => properElem x = true) (S ++ a :: T) ->
  Forall (fun x => properElem x = true) (S ++ [b]) ->
  under (renderElems (S ++ [b])) (renderElems (S ++ a :: T)) = false.
Proof.
  intros Hab HA HB. unfold under. apply orb_false_iff; split.
  - apply String.eqb_neq. intros E. apply renderElems_inj in E; try assumption.
    apply app_inv_head in E. injection E as E _. contradiction.
  - destruct (HasPrefix _ _) eqn:HP; [| reflexivity]. exfalso.
    apply HasPrefix_inv in HP as [z Hz].
    assert (N1 : S ++ a :: T <> []) by (destruct S; discriminate).
    assert (N2 : S ++ [b] <> []) by (destruct S; discriminate).
    pose proof (split_join _ N1 (Forall_proper_slashFree _ HA)) as E1.
    rewrite <- (renderElems_join _ N1) in E1.
    rewrite Hz, sapp_assoc in E1.
    change ("/" +:+ z) with (String slash z) in E1.
    rewrite split_app_slash in E1.
    rewrite (renderElems_join _ N2) in E1.
    rewrite (split_join _ N2 (Forall_proper_slashFree _ HB)) in E1.
    rewrite <- app_assoc in E1. apply app_inv_head in E1.
    injection E1 as E1 _. congruence.
Qed.

(** The install directory [name] of a module, from its elements. *)
Lemma installDirOf_render ctx name :
  Forall (fun c => validComp c = true) (installOutPaths ctx) ->
  properElem name = true ->
  installDirOf ctx name =
  renderElems (flat_map elemsOf (installOutPaths ctx) ++ [name]).
Proof.
  intros HR Hn. unfold installDirOf.
  assert (E : flat_map elemsOf (installOutPaths ctx ++ [name]) =
              flat_map elemsOf (installOutPaths ctx) ++ [name]).
  { rewrite flat_map_app. simpl. now rewrite (elemsOf_proper_elem _ Hn). }
  rewrite Join_valid_render.
  - now rewrite E.
  - apply Forall_app; split; [exact HR |].
    repeat constructor. now apply validComp_proper_elem.
  - rewrite E. now destruct (flat_map elemsOf (installOutPaths ctx)).
Qed.

(** A path below the directory [name] of the install root is under it
    and is not under a different directory [other] of the install root. *)
Lemma under_install_dir ctx name other rest :
  Forall (fun c => validComp c = true) (installOutPaths ctx) ->
  properElem name = true -> properElem other = true -> name <> other ->
  Forall (fun x => properElem x = true) rest ->
  let p := renderElems (flat_map elemsOf (installOutPaths ctx) ++ name :: rest) in
  under (installDirOf ctx name) p = true /\
  under (installDirOf ctx other) p = false.
Proof.
  intros HR Hn Ho Hne Hrest p. subst p.
  rewrite !installDirOf_render by assumption.
  pose proof (flat_elemsOf_proper _ HR) as HE.
  split.
  - change (name :: rest) with ([name] ++ rest). rewrite app_assoc.
    apply under_render_app.
    + apply Forall_app; split; [exact HE | now repeat constructor].
    + now destruct (flat_map elemsOf (installOutPaths ctx)).
  - apply not_under_render; [exact Hne | |].
    + apply Forall_app; split; [exact HE | now constructor].
    + apply Forall_app; split; [exact HE | now repeat constructor].
Qed.

Lemma dexBuildActions_privileged steps a ctx e p e' :
  String.eqb (ModuleName ctx) "framework-res" = false ->
  Bool (Privileged a) = true ->
  snd (validatePath
         (installOutPaths ctx ++
          [Join ["priv-app"; installApkName a]; installApkName a +:+ ".apk"])) = None ->
  dexBuildActions steps a ctx e = Returned p e' ->
  path (outputBase p) =
  Join (installOutPaths ctx ++
        [Join ["priv-app"; installApkName a]; installApkName a +:+ ".apk"]).
Proof.
  intros Hn Hp HV. unfold dexBuildActions, PathForModuleInstall, bind.
  rewrite Hn, Hp. rewrite (PathForOutput_ok _ _ _ _ (validatePath_None _ HV)).
  cbn [negb]. destruct (compile steps e); [| discriminate].
  unfold ret. now intros [= <- _].
Qed.

Lemma Forall_valid_split (R : list string) x y :
  Forall (fun c => validComp c = true) (R ++ [x; y]) ->
  Forall (fun c => validComp c = true) R /\ validComp x = true /\ validComp y = true.
Proof.
  intros H. apply Forall_app in H as [HR H].
  inversion H as [|? ? Hx H']; subst. inversion H' as [|? ? Hy _]; subst. auto.
Qed.

(** The two paths of a privileged app, from their elements. *)
Lemma privileged_paths ctx apk :
  snd (validatePath (installOutPaths ctx ++ ["priv-app"; apk])) = None ->
  snd (validatePath
         (installOutPaths ctx ++ [Join ["priv-app"; apk]; apk +:+ ".apk"])) = None ->
  Forall (fun c => validComp c = true) (installOutPaths ctx) /\
  (exists rest, Forall (fun x => properElem x = true) rest /\
     Join (installOutPaths ctx ++ ["priv-app"; apk]) =
     renderElems (flat_map elemsOf (installOutPaths ctx) ++ "priv-app" :: rest)) /\
  (exists rest, Forall (fun x => properElem x = true) rest /\
     Join (installOutPaths ctx ++ [Join ["priv-app"; apk]; apk +:+ ".apk"]) =
     renderElems (flat_map elemsOf (installOutPaths ctx) ++ "priv-app" :: rest)).
Proof.
  intros H1 H2.
  apply validatePath_None_valid in H1, H2.
  pose proof H1 as H1'. pose proof H2 as H2'.
  apply Forall_valid_split in H1' as (HR & _ & Hapk).
  apply Forall_valid_split in H2' as (_ & _ & Hfile).
  assert (Hpriv : validComp "priv-app" = true) by reflexivity.
  split; [exact HR |]. split.
  - exists (elemsOf apk). split; [now apply validComp_proper |].
    rewrite Join_valid_render; [| exact H1 |].
    + rewrite flat_map_app. simpl. now rewrite app_nil_r.
    + rewrite flat_map_app. simpl.
      now destruct (flat_map elemsOf (installOutPaths ctx)).
  - assert (HJ : elemsOf (Join ["priv-app"; apk]) = "priv-app" :: elemsOf apk).
    { destruct (Join_valid ["priv-app"; apk]) as [-> _];
        [now repeat constructor |].
      simpl. now rewrite app_nil_r. }
    exists (elemsOf apk ++ elemsOf (apk +:+ ".apk")).
    split; [apply Forall_app; split; now apply validComp_proper |].
    rewrite Join_valid_render; [| exact H2 |].
    + rewrite flat_map_app. cbn [flat_map]. rewrite HJ, app_nil_r. reflexivity.
    + rewrite flat_map_app. cbn [flat_map]. rewrite HJ.
      now destruct (flat_map elemsOf (installOutPaths ctx)).
Qed.

(** C8, as it is stated, fails: a privileged app named [framework-res]
    is installed in [framework], and its dexpreopt install path is
    there too. *)
Lemma privileged_framework_res_in_framework :
  let ctx := moduleContext "frameworks/base/core/res" "framework-res" "android_common" in
  let a := {| Privileged := Some true; Installable := Some true;
              installApkName := "" |} in
  exists dex dir e',
    generateAndroidBuildActions noSteps a ctx noEffects =
      Returned (dex, Some (dir, "framework-res.apk")) e' /\
    path (outputBase dir) = "target/product/generic/system/framework" /\
    under (installDirOf ctx "priv-app") (path (outputBase dir)) = false /\
    under (installDirOf ctx "priv-app") (path (outputBase dex)) = false.
Proof.
  do 3 eexists. split; [reflexivity |]. repeat split; reflexivity.
Qed.

(** The two install paths of a privileged app whose name is not
    [framework-res]. *)
Lemma privileged_app_paths
  (steps : AppSteps) (a : AndroidApp) (ctx : Context) (e e' : Effects)
  (dex : OutputPath) (inst : option (OutputPath * string)) :
  String.eqb (ModuleName ctx) "framework-res" = false ->
  Bool (Privileged a) = true ->
  snd (validatePath
         (installOutPaths ctx ++
          ["priv-app"; OverridePackageNameFor ctx (ModuleName ctx)])) = None ->
  snd (validatePath
         (installOutPaths ctx ++
          [Join ["priv-app"; OverridePackageNameFor ctx (ModuleName ctx)];
           OverridePackageNameFor ctx (ModuleName ctx) +:+ ".apk"])) = None ->
  generateAndroidBuildActions steps a ctx e = Returned (dex, inst) e' ->
  (under (installDirOf ctx "priv-app") (path (outputBase dex)) = true /\
   under (installDirOf ctx "app") (path (outputBase dex)) = false) /\
  (forall dir name, inst = Some (dir, name) ->
     under (installDirOf ctx "priv-app") (path (outputBase dir)) = true /\
     under (installDirOf ctx "app") (path (outputBase dir)) = false /\
     name = OverridePackageNameFor ctx (ModuleName ctx) +:+ ".apk").
Proof.
  intros Hn Hp HV1 HV2 H.
  set (apk := OverridePackageNameFor ctx (ModuleName ctx)) in *.
  destruct (privileged_paths ctx apk HV1 HV2)
    as (HR & (r1 & Hr1 & E1) & (r2 & Hr2 & E2)).
  assert (U : forall rest, Forall (fun x => properElem x = true) rest ->
            let p := renderElems
                       (flat_map elemsOf (installOutPaths ctx) ++ "priv-app" :: rest) in
            under (installDirOf ctx "priv-app") p = true /\
            under (installDirOf ctx "app") p = false).
  { intros rest Hrest. now apply under_install_dir. }
  unfold generateAndroidBuildActions, bind in H.
  destruct (aaptBuildActions steps e) as [[] e1|]; [| discriminate].
  destruct (proguardBuildActions steps e1) as [[] e2|]; [| discriminate].
  cbn [Privileged Installable installApkName] in H. fold apk in H.
  destruct (dexBuildActions steps _ ctx e2) as [dexp e3|] eqn:D; [| discriminate].
  apply dexBuildActions_privileged in D; [| assumption | assumption | exact HV2].
  cbn [installApkName] in D.
  destruct (collectAppDeps steps e3) as [[] e3'|]; [| discriminate].
  destruct (jniBuildActions steps e3') as [[] e4|]; [| discriminate].
  destruct (Failed e4) as [failed e5|]; [| discriminate].
  assert (Hdex : under (installDirOf ctx "priv-app") (path (outputBase dexp)) = true /\
                 under (installDirOf ctx "app") (path (outputBase dexp)) = false).
  { rewrite D, E2. now apply U. }
  destruct failed.
  - injection H as <- <- _. split; [exact Hdex | discriminate].
  - destruct (certificateBuildActions steps e5) as [[] e6|]; [| discriminate].
    destruct (PathForModuleOut ctx _ e6) as [pf e7|]; [| discriminate].
    destruct (CreateAppPackage steps e7) as [[] e8|]; [| discriminate].
    destruct (PathForModuleOut ctx _ e8) as [bf e9|]; [| discriminate].
    destruct (BuildBundleModule steps e9) as [[] e10|]; [| discriminate].
    rewrite Hn, Hp in H. unfold PathForModuleInstall in H.
    rewrite (PathForOutput_ok _ _ _ _ (validatePath_None _ HV1)) in H.
    injection H as <- <- _. split; [exact Hdex |].
    intros dir name [= <- <-]. cbn [path outputBase].
    rewrite E1. split; [now apply U |]. split; [now apply U | reflexivity].
Qed.

(** The two install paths of a module named [framework-res]. *)
Lemma framework_res_paths
  (steps : AppSteps) (a : AndroidApp) (ctx : Context) (e e' : Effects)
  (dex : OutputPath) (inst : option (OutputPath * string)) :
  String.eqb (ModuleName ctx) "framework-res" = true ->
  snd (validatePath (installOutPaths ctx ++ ["framework"])) = None ->
  snd (validatePath
         (installOutPaths ctx ++
          ["framework";
           OverridePackageNameFor ctx (ModuleName ctx) +:+ ".apk"])) = None ->
  generateAndroidBuildActions steps a ctx e = Returned (dex, inst) e' ->
  (under (installDirOf ctx "framework") (path (outputBase dex)) = true /\
   under (installDirOf ctx "priv-app") (path (outputBase dex)) = false /\
   under (installDirOf ctx "app") (path (outputBase dex)) = false) /\
  (forall dir name, inst = Some (dir, name) ->
     path (outputBase dir) = installDirOf ctx "framework" /\
     under (installDirOf ctx "priv-app") (path (outputBase dir)) = false /\
     under (installDirOf ctx "app") (path (outputBase dir)) = false /\
     name = ModuleName ctx +:+ ".apk").
Proof.
  intros Hn HV1 HV2 H.
  set (apk := OverridePackageNameFor ctx (ModuleName ctx)) in *.
  pose proof (validatePath_None_valid _ HV1) as V1.
  pose proof (validatePath_None_valid _ HV2) as V2.
  pose proof V2 as V2'. apply Forall_valid_split in V2' as (HR & _ & Hfile).
  assert (U : forall rest, Forall (fun x => properElem x = true) rest ->
            let p := renderElems
                       (flat_map elemsOf (installOutPaths ctx) ++ "framework" :: rest) in
            under (installDirOf ctx "framework") p = true /\
            under (installDirOf ctx "priv-app") p = false /\
            under (installDirOf ctx "app") p = false).
  { intros rest Hrest p.
    destruct (under_install_dir ctx "framework" "priv-app" rest HR eq_refl eq_refl
                ltac:(discriminate) Hrest) as [U1 U2].
    destruct (under_install_dir ctx "framework" "app" rest HR eq_refl eq_refl
                ltac:(discriminate) Hrest) as [_ U3].
    repeat split; assumption. }
  assert (Edir : installDirOf ctx "framework" =
                 renderElems (flat_map elemsOf (installOutPaths ctx) ++ ["framework"]))
    by now apply installDirOf_render.
  assert (Edex : Join (installOutPaths ctx ++ ["framework"; apk +:+ ".apk"]) =
                 renderElems (flat_map elemsOf (installOutPaths ctx) ++
                              "framework" :: elemsOf (apk +:+ ".apk"))).
  { rewrite Join_valid_render; [| exact V2 |].
    - rewrite flat_map_app. cbn [flat_map]. rewrite app_nil_r. reflexivity.
    - rewrite flat_map_app. cbn [flat_map].
      now destruct (flat_map elemsOf (installOutPaths ctx)). }
  unfold generateAndroidBuildActions, bind in H.
  destruct (aaptBuildActions steps e) as [[] e1|]; [| discriminate].
  destruct (proguardBuildActions steps e1) as [[] e2|]; [| discriminate].
  cbn [Privileged Installable installApkName] in H. fold apk in H.
  unfold dexBuildActions, PathForModuleInstall, bind in H.
  cbn [Privileged Installable installApkName] in H.
  rewrite Hn in H.
  rewrite (PathForOutput_ok _ _ _ _ (validatePath_None _ HV2)) in H.
  cbn [negb] in H. unfold skip, ret in H.
  destruct (collectAppDeps steps e2) as [[] e3|]; [| discriminate].
  destruct (jniBuildActions steps e3) as [[] e4|]; [| discriminate].
  destruct (Failed e4) as [failed e5|]; [| discriminate].
  assert (Hdex : under (installDirOf ctx "framework")
                   (Join (installOutPaths ctx ++ ["framework"; apk +:+ ".apk"])) = true /\
                 under (installDirOf ctx "priv-app")
                   (Join (installOutPaths ctx ++ ["framework"; apk +:+ ".apk"])) = false /\
                 under (installDirOf ctx "app")
                   (Join (installOutPaths ctx ++ ["framework"; apk +:+ ".apk"])) = false).
  { rewrite Edex. apply U. now apply validComp_proper. }
  destruct failed.
  - injection H as <- <- _. split; [exact Hdex | discriminate].
  - destruct (certificateBuildActions steps e5) as [[] e6|]; [| discriminate].
    destruct (PathForModuleOut ctx _ e6) as [pf e7|]; [| discriminate].
    destruct (CreateAppPackage steps e7) as [[] e8|]; [| discriminate].
    destruct (PathForModuleOut ctx _ e8) as [bf e9|]; [| discriminate].
    destruct (BuildBundleModule steps e9) as [[] e10|]; [| discriminate].
    rewrite (PathForOutput_ok _ _ _ _ (validatePath_None _ HV1)) in H.
    injection H as <- <- _. split; [exact Hdex |].
    intros dir name [= <- <-]. cbn [path outputBase].
    split; [reflexivity |].
    fold (installDirOf ctx "framework"). rewrite Edir.
    destruct (U [] ltac:(constructor)) as (_ & U2 & U3).
    repeat split; assumption.
Qed.

(** C8, amended.  For every app, on a device or on a host and whatever
    the other attributes are, when the components of its install paths
    pass [validatePath]: if its [Privileged] property is true and its
    name is not [framework-res], the dexpreopt install path set by
    [dexBuildActions] and the directory that
    [generateAndroidBuildActions] gives to [InstallFile] are under the
    [priv-app] directory of the install root and not under its [app]
    directory; if its name is [framework-res], they are under the
    [framework] directory of the install root, and under neither
    [priv-app] nor [app], whatever its [Privileged] property is. *)
Theorem privileged_app_installs_in_priv_app
  (steps : AppSteps) (a : AndroidApp) (ctx : Context) (e e' : Effects)
  (dex : OutputPath) (inst : option (OutputPath * string)) :
  generateAndroidBuildActions steps a ctx e = Returned (dex, inst) e' ->
  (String.eqb (ModuleName ctx) "framework-res" = false ->
   Bool (Privileged a) = true ->
   snd (validatePath
          (installOutPaths ctx ++
           ["priv-app"; OverridePackageNameFor ctx (ModuleName ctx)])) = None ->
   snd (validatePath
          (installOutPaths ctx ++
           [Join ["priv-app"; OverridePackageNameFor ctx (ModuleName ctx)];
            OverridePackageNameFor ctx (ModuleName ctx) +:+ ".apk"])) = None ->
   (under (installDirOf ctx "priv-app") (path (outputBase dex)) = true /\
    under (installDirOf ctx "app") (path (outputBase dex)) = false) /\
   (forall dir name, inst = Some (dir, name) ->
      under (installDirOf ctx "priv-app") (path (outputBase dir)) = true /\
      under (installDirOf ctx "app") (path (outputBase dir)) = false /\
      name = OverridePackageNameFor ctx (ModuleName ctx) +:+ ".apk")) /\
  (String.eqb (ModuleName ctx) "framework-res" = true ->
   snd (validatePath (installOutPaths ctx ++ ["framework"])) = None ->
   snd (validatePath
          (installOutPaths ctx ++
           ["framework";
            OverridePackageNameFor ctx (ModuleName ctx) +:+ ".apk"])) = None ->
   (under (installDirOf ctx "framework") (path (outputBase dex)) = true /\
    under (installDirOf ctx "priv-app") (path (outputBase dex)) = false /\
    under (installDirOf ctx "app") (path (outputBase dex)) = false) /\
   (forall dir name, inst = Some (dir, name) ->
      path (outputBase dir) = installDirOf ctx "framework" /\
      under (installDirOf ctx "priv-app") (path (outputBase dir)) = false /\
      under (installDirOf ctx "app") (path (outputBase dir)) = false /\
      name = ModuleName ctx +:+ ".apk")).
Proof.
  intros H. split.
  - intros Hn Hp HV1 HV2.
    exact (privileged_app_paths steps a ctx e e' dex inst Hn Hp HV1 HV2 H).
  - intros Hn HV1 HV2.
    exact (framework_res_paths steps a ctx e e' dex inst Hn HV1 HV2 H).
Qed.

(** A privileged app [Settings] of a device build and a privileged
    [framework-res], with build steps that do nothing: the hypotheses
    on the path components hold; the first is installed in
    [priv-app/Settings], the second in [framework]. *)
Lemma privileged_app_installs_in_priv_app_witness :
  (let ctx := moduleContext "packages/apps/Settings" "Settings" "android_common" in
   let a := {| Privileged := Some true; Installable := Some true;
               installApkName := "" |} in
   exists dex dir e',
     generateAndroidBuildActions noSteps a ctx noEffects =
       Returned (dex, Some (dir, "Settings.apk")) e' /\
     path (outputBase dir) = "target/product/generic/system/priv-app/Settings" /\
     under (installDirOf ctx "priv-app") (path (outputBase dir)) = true /\
     under (installDirOf ctx "app") (path (outputBase dir)) = false) /\
  (let ctx := moduleContext "frameworks/base/core/res" "framework-res"
                "android_common" in
   let a := {| Privileged := Some true; Installable := Some true;
               installApkName := "" |} in
   exists dex dir e',
     generateAndroidBuildActions noSteps a ctx noEffects =
       Returned (dex, Some (dir, "framework-res.apk")) e' /\
     path (outputBase dir) = installDirOf ctx "framework" /\
     under (installDirOf ctx "priv-app") (path (outputBase dir)) = false /\
     under (installDirOf ctx "app") (path (outputBase dir)) = false).
Proof.
  split.
  - do 3 eexists. split; [reflexivity |]. split; [reflexivity |].
    pose proof (privileged_app_installs_in_priv_app noSteps
      {| Privileged := Some true; Installable := Some true; installApkName := "" |}
      (moduleContext "packages/apps/Settings" "Settings" "android_common")
      noEffects _ _ _ eq_refl) as [H _].
    destruct (H eq_refl eq_refl eq_refl eq_refl) as [_ H'].
    destruct (H' _ _ eq_refl) as (H1 & H2 & _). split; [exact H1 | exact H2].
  - do 3 eexists. split; [reflexivity |].
    pose proof (privileged_app_installs_in_priv_app noSteps
      {| Privileged := Some true; Installable := Some true; installApkName := "" |}
      (moduleContext "frameworks/base/core/res" "framework-res" "android_common")
      noEffects _ _ _ eq_refl) as [_ H].
    destruct (H eq_refl eq_refl eq_refl) as [_ H'].
    destruct (H' _ _ eq_refl) as (H1 & H2 & H3 & _).
    split; [exact H1 |]. split; [exact H2 | exact H3].
Defined.

End AppInstallProps.

(** ** Reporting of path errors *)

Module ReportProps.
Import GoStrings filepath android PathVocabulary Examples.

Ltac run_path_function ctx :=
  unfold bind, reportIfError, reportPathError, reportPathErrorf,
    existsWithDependencies, GlobWithDeps, AddNinjaFileDeps,
    AddMissingDependencies, ModuleErrorf, ctxErrorf, skip, ret, panic;
  repeat match goal with
         | H : ?b = _ |- context [if ?b then _ else _] => rewrite H
         end;
  destruct (asModuleContext ctx && AllowMissingDependencies (config ctx));
  destruct (asPathGlobContext ctx);
  repeat match goal with
         | |- context [pathtools.IsGlob ?s] => destruct (pathtools.IsGlob s)
         | |- context [Glob ctx ?s] =>
             destruct (Glob ctx s) as [[[|? ?] ?] [?|]]
         | |- context [FsExists ctx ?s] =>
             destruct (FsExists ctx s) as [[] [?|]]
         end;
  cbn -[String.append].

Ltac extended_by :=
  cbn [moduleErrors errors ninjaFileDeps globs missingDeps builds];
  rewrite <- ?app_assoc; reflexivity.

(** C3. For every malformed path given to [PathForSource] in a context
    that can report errors: in a context that has [ModuleErrorf], as
    every module context has, the error is reported against the owning
    module; in a context that has only [Errorf] it is reported against
    the context; in both cases the constructor returns the path value of
    [pathForSource], and evaluation goes on: there is no panic. *)
Theorem malformed_source_path_is_reported
  (ctx : Context) (pathComponents : list string) (e : Effects)
  (p : SourcePath) (err : Message) :
  pathForSource ctx pathComponents = (p, Some err) ->
  asModuleErrorf ctx || asErrorfContext ctx = true ->
  exists e' more,
    PathForSource ctx pathComponents e = Returned p e' /\
    (if asModuleErrorf ctx
     then moduleErrors e' = moduleErrors e ++ err :: more /\
          errors e' = errors e
     else errors e' = errors e ++ err :: more /\
          moduleErrors e' = moduleErrors e).
Proof.
  intros H HR. unfold PathForSource. rewrite H.
  destruct (asModuleErrorf ctx) eqn:HM;
    [| destruct (asErrorfContext ctx) eqn:HE; [| discriminate]].
  - run_path_function ctx; do 2 eexists;
      (split; [reflexivity | split; extended_by]).
  - run_path_function ctx; do 2 eexists;
      (split; [reflexivity | split; extended_by]).
Qed.

(** A path that leaves the source tree, in a module context. *)
Lemma malformed_source_path_is_reported_witness :
  exists e' more,
    PathForSource (moduleContext "art" "libart" "android_arm64") ["../escape.c"]
      noEffects
    = Returned (sourcePath "") e' /\
    moduleErrors e' =
      Errorf "Path is outside directory: %s" ["../escape.c"] :: more /\
    errors e' = [].
Proof.
  exact (malformed_source_path_is_reported
           (moduleContext "art" "libart" "android_arm64") ["../escape.c"]
           noEffects (sourcePath "")
           (Errorf "Path is outside directory: %s" ["../escape.c"])
           eq_refl eq_refl).
Defined.

End ReportProps.

(** ** [FirstUniquePaths] and [LastUniquePaths] *)

Module UniqueFacts.
Import android PathVocabulary.

Section KeepFirst.
Context {A : Type} `{EqDecision A}.
Implicit Types (l acc : list A) (x : A).

Lemma keepStep_elem acc x y : y ∈ keepStep acc x <-> y ∈ acc \/ y = x.
Proof.
  unfold keepStep. destruct (decide (x ∈ acc)) as [Hin|Hn].
  - split; [auto | intros [?| ->]; assumption].
  - rewrite elem_of_app, list_elem_of_singleton. reflexivity.
Qed.

Lemma keepStep_in acc x : x ∈ acc -> keepStep acc x = acc.
Proof. intros Hin. unfold keepStep. now rewrite decide_True. Qed.

Lemma keepStep_notin acc x : x ∉ acc -> keepStep acc x = acc ++ [x].
Proof. intros Hn. unfold keepStep. now rewrite decide_False. Qed.

Lemma fold_keepStep_elem l acc y :
  y ∈ fold_left keepStep l acc <-> y ∈ acc \/ y ∈ l.
Proof.
  revert acc; induction l as [|x l IH]; intros acc; simpl.
  - rewrite elem_of_nil. tauto.
  - rewrite IH, keepStep_elem, elem_of_cons. tauto.
Qed.

Lemma fold_keepStep_NoDup l acc :
  NoDup acc -> NoDup (fold_left keepStep l acc).
Proof.
  revert acc; induction l as [|x l IH]; intros acc Hacc; simpl; [exact Hacc |].
  apply IH. unfold keepStep. destruct (decide (x ∈ acc)) as [Hin|Hn]; [exact Hacc |].
  apply NoDup_app. split; [exact Hacc |]. split.
  - intros y Hy Hx. apply list_elem_of_singleton in Hx. now subst.
  - apply NoDup_singleton.
Qed.

(** The accumulator grows at its end, by a subsequence of the input. *)
Lemma fold_keepStep_sublist l acc :
  exists r, fold_left keepStep l acc = acc ++ r /\ r `sublist_of` l.
Proof.
  revert acc; induction l as [|x l IH]; intros acc; simpl.
  - exists []. now rewrite app_nil_r.
  - destruct (IH (keepStep acc x)) as (r & -> & Hr). unfold keepStep.
    destruct (decide (x ∈ acc)).
    + exists r. split; [reflexivity | now apply sublist_cons].
    + exists (x :: r). rewrite <- app_assoc. split; [reflexivity |].
      now apply sublist_skip.
Qed.

Lemma fold_keepStep_id l acc :
  NoDup (acc ++ l) -> fold_left keepStep l acc = acc ++ l.
Proof.
  revert acc; induction l as [|x l IH]; intros acc HN; simpl.
  - now rewrite app_nil_r.
  - assert (Hx : x ∉ acc).
    { apply NoDup_app in HN as (_ & HN & _). intros Hin.
      apply (HN x Hin). left. }
    unfold keepStep. destruct (decide (x ∈ acc)); [contradiction |].
    rewrite IH; rewrite <- app_assoc; [reflexivity | exact HN].
Qed.

Lemma fold_keepStep_head l acc x :
  fold_left keepStep l (x :: acc) =
  x :: fold_left keepStep (filter (fun y => y <> x) l) acc.
Proof.
  revert acc; induction l as [|y l IH]; intros acc; simpl; [reflexivity |].
  destruct (decide (y = x)) as [->|Hne].
  - rewrite filter_cons_False by (intros Hf; now apply Hf).
    unfold keepStep at 2. rewrite decide_True by left. apply IH.
  - rewrite filter_cons_True by assumption. simpl. rewrite <- IH.
    f_equal. unfold keepStep.
    destruct (decide (y ∈ acc)) as [Hin|Hn].
    + rewrite decide_True by now right. reflexivity.
    + rewrite decide_False; [reflexivity |].
      intros Hin. apply elem_of_cons in Hin as [?|?]; contradiction.
Qed.

Lemma keepFirst_NoDup l : NoDup (keepFirst l).
Proof. apply fold_keepStep_NoDup, NoDup_nil_2. Qed.

Lemma keepFirst_elem l y : y ∈ keepFirst l <-> y ∈ l.
Proof. unfold keepFirst. rewrite fold_keepStep_elem, elem_of_nil. tauto. Qed.

Lemma keepFirst_sublist l : keepFirst l `sublist_of` l.
Proof.
  unfold keepFirst. now destruct (fold_keepStep_sublist l []) as (r & -> & Hr).
Qed.

Lemma keepFirst_id l : NoDup l -> keepFirst l = l.
Proof. intros HN. unfold keepFirst. now rewrite fold_keepStep_id. Qed.

Lemma keepFirst_idem l : keepFirst (keepFirst l) = keepFirst l.
Proof. apply keepFirst_id, keepFirst_NoDup. Qed.

Lemma keepFirst_cons x l :
  keepFirst (x :: l) = x :: keepFirst (filter (fun y => y <> x) l).
Proof.
  unfold keepFirst. simpl. unfold keepStep at 2.
  rewrite decide_False by apply not_elem_of_nil. apply fold_keepStep_head.
Qed.

Lemma sublist_reverse l1 l2 :
  l1 `sublist_of` l2 -> reverse l1 `sublist_of` reverse l2.
Proof.
  induction 1 as [|x l1 l2 _ IH|x l1 l2 _ IH].
  - constructor.
  - rewrite !reverse_cons. now apply sublist_app.
  - rewrite reverse_cons. now apply sublist_inserts_r.
Qed.

Lemma keepLast_NoDup l : NoDup (keepLast l).
Proof. unfold keepLast. rewrite reverse_Permutation. apply keepFirst_NoDup. Qed.

Lemma keepLast_elem l y : y ∈ keepLast l <-> y ∈ l.
Proof. unfold keepLast. now rewrite elem_of_reverse, keepFirst_elem, elem_of_reverse. Qed.

Lemma keepLast_sublist l : keepLast l `sublist_of` l.
Proof.
  unfold keepLast. rewrite <- (reverse_involutive l) at 2.
  apply sublist_reverse, keepFirst_sublist.
Qed.

Lemma keepLast_idem l : keepLast (keepLast l) = keepLast l.
Proof. unfold keepLast. now rewrite reverse_involutive, keepFirst_idem. Qed.

Lemma keepLast_snoc l x :
  keepLast (l ++ [x]) = keepLast (filter (fun y => y <> x) l) ++ [x].
Proof.
  unfold keepLast. rewrite reverse_app. simpl.
  change (reverse [x] ) with [x]. simpl.
  rewrite keepFirst_cons, reverse_cons, filter_reverse. reflexivity.
Qed.

Lemma keepLast_nil : keepLast (@nil A) = [].
Proof. reflexivity. Qed.

End KeepFirst.

(** *** The loop of [FirstUniquePaths] *)

Lemma firstUniqueSeen_spec (list : Paths) (i j n : nat) (x : Path) :
  list !! i = Some x -> j + n <= length list ->
  firstUniqueSeen list i j n = bool_decide (x ∈ take n (drop j list)).
Proof.
  intros Hx. revert j; induction n as [|n IH]; intros j Hle; simpl.
  - reflexivity.
  - destruct (list !! j) as [y|] eqn:Hj.
    + rewrite (drop_S _ _ _ Hj), Hx. simpl.
      destruct (decide (Some x = Some y)) as [[= ->]|Hne].
      * symmetry. apply bool_decide_eq_true_2. left.
      * rewrite IH by lia. apply bool_decide_ext. rewrite elem_of_cons.
        split; [now right | intros [->|?]; [congruence | assumption]].
    + apply lookup_ge_None in Hj. lia.
Qed.

(** The list is split into the kept elements [K], the slots [G] left
    behind them and the elements [R] still to read. *)
Lemma firstUniqueLoop_spec (R K G : Paths) :
  exists G',
    firstUniqueLoop (K ++ G ++ R) (length K + length G) (length K) (length R) =
    (fold_left keepStep R K ++ G', length (fold_left keepStep R K)).
Proof.
  revert K G; induction R as [|x R IH]; intros K G.
  - exists G. simpl. now rewrite app_nil_r.
  - cbn [length firstUniqueLoop fold_left].
    assert (Hx : (K ++ G ++ x :: R) !! (length K + length G) = Some x).
    { rewrite app_assoc. apply list_lookup_middle. now rewrite length_app. }
    rewrite (firstUniqueSeen_spec _ _ _ _ x Hx)
      by (rewrite !length_app; simpl; lia).
    rewrite drop_0, take_app_length.
    destruct (decide (x ∈ K)) as [Hin|Hn].
    + rewrite bool_decide_eq_true_2, keepStep_in by assumption.
      replace (K ++ G ++ x :: R) with (K ++ (G ++ [x]) ++ R)
        by now rewrite <- !app_assoc.
      replace (S (length K + length G)) with (length K + length (G ++ [x]))
        by (rewrite length_app; simpl; lia).
      apply IH.
    + rewrite bool_decide_eq_false_2, keepStep_notin by assumption.
      unfold assign, Paths in *. rewrite Hx.
      rewrite insert_app_r_alt, Nat.sub_diag by lia.
      destruct G as [|g G]; simpl.
      * replace (K ++ x :: R) with ((K ++ [x]) ++ [] ++ R)
          by now rewrite <- app_assoc.
        replace (S (length K + 0)) with (length (K ++ [x]) + length (@nil Path))
          by (rewrite length_app; simpl; lia).
        replace (S (length K)) with (length (K ++ [x]))
          by (rewrite length_app; simpl; lia).
        apply IH.
      * replace (K ++ x :: G ++ x :: R) with ((K ++ [x]) ++ (G ++ [x]) ++ R)
          by now rewrite <- !app_assoc.
        replace (S (length K + S (length G)))
          with (length (K ++ [x]) + length (G ++ [x]))
          by (rewrite !length_app; simpl; lia).
        replace (S (length K)) with (length (K ++ [x]))
          by (rewrite length_app; simpl; lia).
        apply IH.
Qed.

(** [FirstUniquePaths] computes [keepFirst]. *)
Lemma FirstUniquePaths_keepFirst (list : Paths) :
  FirstUniquePaths list = keepFirst list.
Proof.
  unfold FirstUniquePaths.
  destruct (firstUniqueLoop_spec list [] []) as [G' E].
  simpl in E. rewrite E. apply take_app_length.
Qed.

(** *** The loops of [LastUniquePaths] *)

Lemma insert_last (L : list Path) (a z : Path) :
  <[length L := a]> (L ++ [z]) = L ++ [a].
Proof.
  rewrite insert_app_r_alt by lia. rewrite Nat.sub_diag. reflexivity.
Qed.

Lemma cons_as_snoc (a : Path) (J : list Path) :
  exists J1 z, a :: J = J1 ++ [z] /\ length J1 = length J.
Proof.
  revert a; induction J as [|b J IH]; intros a.
  - now exists [], a.
  - destruct (IH b) as (J1 & z & E & HL). exists (a :: J1), z.
    split; [now rewrite E | simpl; now rewrite HL].
Qed.

(** The inner loop at index [i], which holds [x]: the list is split
    into the skipped slots [G], the elements [A] still to compare, the
    slots [J] freed so far, the elements [B] already moved up and the
    rest [x :: R]. *)
Lemma lastUniqueInner_spec (A : list Path) :
  forall (G J B R : list Path) (x : Path) (i ts jp skip : nat),
    ts = length G -> jp = length G + length A -> skip = length J ->
    i = length G + length A + length J + length B ->
    exists J',
      length J' + length (filter (fun y => y <> x) A) = length A + length J /\
      lastUniqueInner (G ++ A ++ J ++ B ++ x :: R) i ts jp skip =
      (G ++ J' ++ filter (fun y => y <> x) A ++ B ++ x :: R, length J').
Proof.
  induction A as [|a A IH] using rev_ind;
    intros G J B R x i ts jp skip -> -> -> ->.
  - exists J. split; [simpl; lia |]. simpl.
    destruct (length G + 0) as [|j] eqn:E; simpl; [reflexivity |].
    assert ((j <? length G) = true) as -> by (apply Nat.ltb_lt; lia).
    reflexivity.
  - rewrite length_app. simpl length.
    replace (length G + (length A + 1)) with (S (length G + length A)) by lia.
    cbn [lastUniqueInner].
    assert ((length G + length A <? length G) = false) as ->
      by (apply Nat.ltb_ge; lia).
    assert (Hx : (G ++ (A ++ [a]) ++ J ++ B ++ x :: R) !!
                 (S (length G + length A) + length J + length B) = Some x).
    { replace (G ++ (A ++ [a]) ++ J ++ B ++ x :: R)
        with ((G ++ (A ++ [a]) ++ J ++ B) ++ x :: R)
        by now rewrite <- !app_assoc.
      apply list_lookup_middle. rewrite !length_app. simpl. lia. }
    assert (Ha : (G ++ (A ++ [a]) ++ J ++ B ++ x :: R) !!
                 (length G + length A) = Some a).
    { replace (G ++ (A ++ [a]) ++ J ++ B ++ x :: R)
        with ((G ++ A) ++ a :: J ++ B ++ x :: R)
        by now rewrite <- !app_assoc.
      apply list_lookup_middle. now rewrite length_app. }
    unfold Paths in *. rewrite Hx, Ha.
    destruct (decide (Some x = Some a)) as [[= <-]|Hne].
    + destruct (IH G (x :: J) B R x
                  (S (length G + length A) + length J + length B)
                  (length G) (length G + length A) (S (length J)))
        as (J' & HL & E); try reflexivity; [simpl; lia |].
      exists J'. split.
      * rewrite filter_app, filter_cons_False by (intros Hf; now apply Hf).
        rewrite filter_nil, app_nil_r, ?length_app. simpl in *. lia.
      * rewrite filter_app, filter_cons_False by (intros Hf; now apply Hf).
        rewrite filter_nil, app_nil_r. rewrite <- E. f_equal.
        now rewrite <- !app_assoc.
    + assert (Hax : a <> x) by congruence.
      destruct (cons_as_snoc a J) as (J1 & z & EJ & HJ1).
      unfold assign. unfold Paths in *. rewrite Ha.
      assert (EL : <[length G + length A + length J := a]>
                     (G ++ (A ++ [a]) ++ J ++ B ++ x :: R) =
                   G ++ A ++ J1 ++ (a :: B) ++ x :: R).
      { replace (G ++ (A ++ [a]) ++ J ++ B ++ x :: R)
          with ((G ++ A) ++ ((a :: J) ++ B ++ x :: R))
          by now rewrite <- !app_assoc.
        rewrite EJ.
        replace (length G + length A + length J) with (length (G ++ A) + length J1)
          by (rewrite length_app; lia).
        rewrite insert_app_r, insert_app_l by (rewrite length_app; simpl; lia).
        rewrite insert_last. now rewrite <- !app_assoc. }
      rewrite EL.
      destruct (IH G J1 (a :: B) R x
                  (S (length G + length A) + length J + length B)
                  (length G) (length G + length A) (length J))
        as (J' & HL & E); try reflexivity; [now rewrite HJ1 | simpl; lia |].
      exists J'. split.
      * rewrite filter_app, filter_cons_True by assumption.
        rewrite filter_nil, ?length_app. simpl in *. lia.
      * rewrite E. rewrite filter_app, filter_cons_True by assumption.
        rewrite filter_nil. now rewrite <- !app_assoc.
Qed.

(** The outer loop: the skipped slots [G], the elements [A] still to
    read and the elements [D] already in place. *)
Lemma lastUniqueLoop_spec (n : nat) :
  forall (A G D : list Path) (ip ts : nat),
    length A <= n -> ts = length G -> ip = length G + length A ->
    exists G',
      lastUniqueLoop (G ++ A ++ D) ip ts = (G' ++ keepLast A ++ D, length G').
Proof.
  induction n as [|n IH]; intros A G D ip ts Hn -> ->.
  - destruct A; [| simpl in Hn; lia]. exists G. simpl.
    destruct (length G + 0) as [|i] eqn:E; simpl; [reflexivity |].
    assert ((i <? length G) = true) as -> by (apply Nat.ltb_lt; lia).
    reflexivity.
  - destruct A as [|x A _] using rev_ind.
    + exists G. simpl.
      destruct (length G + 0) as [|i] eqn:E; simpl; [reflexivity |].
      assert ((i <? length G) = true) as -> by (apply Nat.ltb_lt; lia).
      reflexivity.
    + rewrite length_app in *. simpl length in *.
      replace (length G + (length A + 1)) with (S (length G + length A)) by lia.
      cbn [lastUniqueLoop].
      assert ((length G + length A <? length G) = false) as ->
        by (apply Nat.ltb_ge; lia).
      destruct (lastUniqueInner_spec A G [] [] D x
                  (length G + length A) (length G) (length G + length A) 0)
        as (J' & HL & E); try reflexivity; [simpl; lia |].
      simpl in E, HL.
      replace (G ++ (A ++ [x]) ++ D) with (G ++ A ++ x :: D)
        by now rewrite <- !app_assoc.
      rewrite E.
      destruct (IH (filter (fun y => y <> x) A) (G ++ J') (x :: D)
                  (length G + length A) (length G + length J'))
        as (G' & E'); [lia | now rewrite length_app | rewrite length_app; lia |].
      exists G'. rewrite keepLast_snoc, <- !app_assoc in *. simpl. exact E'.
Qed.

(** [LastUniquePaths] computes [keepLast]. *)
Lemma LastUniquePaths_keepLast (list : Paths) :
  LastUniquePaths list = keepLast list.
Proof.
  unfold LastUniquePaths.
  destruct (lastUniqueLoop_spec (length list) list [] [] (length list) 0)
    as [G' E]; [lia | reflexivity | reflexivity |].
  simpl in E. rewrite app_nil_r in E. rewrite E, app_nil_r.
  apply drop_app_length.
Qed.

End UniqueFacts.

Module UniquePathsProps.
Import android PathVocabulary UniqueFacts Examples.

Example FirstUniquePaths_example :
  FirstUniquePaths
    (map testingPath ["a"; "b"; "a"; "c"; "b"; "a"]) =
  map testingPath ["a"; "b"; "c"].
Proof. vm_compute. reflexivity. Qed.

Example LastUniquePaths_example :
  LastUniquePaths
    (map testingPath ["a"; "b"; "a"; "c"; "b"; "a"]) =
  map testingPath ["c"; "b"; "a"].
Proof. vm_compute. reflexivity. Qed.

Example PathForTesting_example :
  PathForTesting ["a"] noEffects = Returned (testingPath "a") noEffects.
Proof. reflexivity. Qed.

(** C4. For every list of paths, [FirstUniquePaths] and
    [LastUniquePaths] are idempotent; what each returns is a subsequence
    of the list (the elements kept stay in their order), without
    duplicates and with the same elements as the list;
    [FirstUniquePaths] keeps the first copy of an element (the head of a
    list is kept and its later copies are dropped) and
    [LastUniquePaths] the last copy (the last element of a list is kept
    and its earlier copies are dropped). *)
Theorem unique_paths_idempotent_and_stable (list : Paths) :
  FirstUniquePaths (FirstUniquePaths list) = FirstUniquePaths list /\
  LastUniquePaths (LastUniquePaths list) = LastUniquePaths list /\
  FirstUniquePaths list `sublist_of` list /\
  LastUniquePaths list `sublist_of` list /\
  NoDup (FirstUniquePaths list) /\
  NoDup (LastUniquePaths list) /\
  (forall p, p ∈ FirstUniquePaths list <-> p ∈ list) /\
  (forall p, p ∈ LastUniquePaths list <-> p ∈ list) /\
  (forall p, FirstUniquePaths (p :: list) =
             p :: FirstUniquePaths (filter (fun q => q <> p) list)) /\
  (forall p, LastUniquePaths (list ++ [p]) =
             LastUniquePaths (filter (fun q => q <> p) list) ++ [p]).
Proof.
  split; [| split; [| split; [| split; [| split; [| split;
    [| split; [| split; [| split]]]]]]]].
  - rewrite !FirstUniquePaths_keepFirst. apply keepFirst_idem.
  - rewrite !LastUniquePaths_keepLast. apply keepLast_idem.
  - rewrite FirstUniquePaths_keepFirst. apply keepFirst_sublist.
  - rewrite LastUniquePaths_keepLast. apply keepLast_sublist.
  - rewrite FirstUniquePaths_keepFirst. apply keepFirst_NoDup.
  - rewrite LastUniquePaths_keepLast. apply keepLast_NoDup.
  - intros p. rewrite FirstUniquePaths_keepFirst. apply keepFirst_elem.
  - intros p. rewrite LastUniquePaths_keepLast. apply keepLast_elem.
  - intros p. rewrite !FirstUniquePaths_keepFirst. apply keepFirst_cons.
  - intros p. rewrite !LastUniquePaths_keepLast. apply keepLast_snoc.
Qed.

End UniquePathsProps.

(** ** [ExistentPathForSource] *)

Module ExistentProps.
Import GoStrings filepath android PathVocabulary Examples.

(** C6. For every valid source path without glob characters, when the
    glob for the path succeeds: [ExistentPathForSource] reports no error;
    it returns the absent [OptionalPath] if the file does not exist and
    a valid one holding the [SourcePath] if it does; and it registers
    the dependency that regenerates the build graph when the state of
    the path changes, the glob pattern in a context with [GlobWithDeps]
    and the dependencies of the glob as ninja file dependencies
    otherwise. *)
Theorem existent_path_absent_with_dependency
  (ctx : Context) (pathComponents : list string) (e : Effects)
  (p : SourcePath) (files deps : list string) :
  pathForSource ctx pathComponents = (p, None) ->
  pathtools.IsGlob (SourcePath_String p) = false ->
  Glob ctx (SourcePath_String p) = (files, deps, None) ->
  exists e',
    ExistentPathForSource ctx pathComponents e =
      Returned
        (match files with
         | [] => {| valid := false; optPath := None |}
         | _ => {| valid := true; optPath := Some (PathSource p) |}
         end) e' /\
    moduleErrors e' = moduleErrors e /\ errors e' = errors e /\
    (if asPathGlobContext ctx
     then globs e' = globs e ++ [SourcePath_String p] /\
          ninjaFileDeps e' = ninjaFileDeps e
     else ninjaFileDeps e' = ninjaFileDeps e ++ deps /\
          globs e' = globs e).
Proof.
  intros HP HG HF. unfold ExistentPathForSource. rewrite HP, HG.
  unfold bind, existsWithDependencies, GlobWithDeps, AddNinjaFileDeps, bind, ret.
  rewrite HF.
  destruct (asPathGlobContext ctx); destruct files; simpl;
    eexists; (split; [reflexivity |]); simpl; auto.
Qed.

(** A file that does not exist, asked for in a module context. *)
Lemma existent_path_absent_with_dependency_witness :
  exists e',
    ExistentPathForSource (moduleContext "art" "libart" "android_arm64")
      ["art"; "missing.cc"] noEffects =
      Returned {| valid := false; optPath := None |} e' /\
    moduleErrors e' = [] /\ errors e' = [] /\
    globs e' = ["art/missing.cc"] /\ ninjaFileDeps e' = [].
Proof.
  exact (existent_path_absent_with_dependency
           (moduleContext "art" "libart" "android_arm64")
           ["art"; "missing.cc"] noEffects (sourcePath "art/missing.cc")
           [] ["art/missing.cc"] eq_refl eq_refl eq_refl).
Defined.

Example existent_path_present :
  ExistentPathForSource testPathContext ["Android.bp"] noEffects =
  Returned {| valid := true; optPath := Some (PathSource (sourcePath "Android.bp")) |}
    {| moduleErrors := []; errors := []; ninjaFileDeps := ["Android.bp"];
       globs := []; missingDeps := []; builds := [] |}.
Proof. reflexivity. Qed.

End ExistentProps.

(** ** The apex key manifest *)

Module ApexKeysProps.
Import GoStrings filepath android apex PathVocabulary StringFacts Examples.

Section Content.
Variable quote : string -> string.



End Content.




End ApexKeysProps.

(** * Further properties of the path functions *)

(** ** Bytes of cleaned and joined paths *)

Module ByteFacts.
Import GoStrings filepath android PathVocabulary StringFacts CleanFacts
  ValidateFacts ConstructorFacts.

Lemma Contains_byte (s : string) (c : ascii) :
  Contains s (String c "") = hasByte c s.
Proof.
  induction s as [|d s IH]; [reflexivity |].
  simpl. rewrite IH. now destruct (Ascii.eqb d c).
Qed.

Lemma hasByte_app c a b : hasByte c (a +:+ b) = hasByte c a || hasByte c b.
Proof.
  induction a as [|d a IH]; [reflexivity |].
  rewrite sapp_cons. simpl. now rewrite IH, orb_assoc.
Qed.

Lemma hasByte_join c L :
  Ascii.eqb slash c = false -> hasByte c (join L) = existsb (hasByte c) L.
Proof.
  intros Hc. induction L as [|e L IH]; [reflexivity |].
  destruct L as [|e' L'].
  - simpl. now rewrite orb_false_r.
  - rewrite join_cons by discriminate. rewrite hasByte_app.
    cbn [hasByte existsb] in *. now rewrite Hc, IH.
Qed.

Lemma hasByte_split c s :
  Ascii.eqb slash c = false -> existsb (hasByte c) (split s) = hasByte c s.
Proof.
  intros Hc. induction s as [|d s IH]; [reflexivity |].
  cbn [split hasByte]. destruct (Ascii.eqb_spec d slash) as [->|Hd].
  - cbn [existsb hasByte]. now rewrite Hc, IH.
  - pose proof (split_not_nil s) as Hn.
    destruct (split s) as [|e es]; [contradiction |].
    cbn [existsb hasByte] in *. now rewrite <- IH, orb_assoc.
Qed.

(** [Clean] keeps no element that is not among the elements it reads. *)
Lemma cleanStep_bytes (f : string -> bool) r out e :
  existsb f (cleanStep r out e) = true -> existsb f out = true \/ f e = true.
Proof.
  unfold cleanStep.
  destruct (String.eqb e ""); [auto |].
  destruct (String.eqb e "."); [auto |].
  destruct (String.eqb e "..").
  - destruct out as [|last out'].
    + destruct r; simpl; [auto | rewrite orb_false_r; auto].
    + destruct (String.eqb last "..").
      * simpl. intros H. apply orb_true_iff in H as [H|H]; auto.
      * simpl. intros H. left. rewrite H. apply orb_true_r.
  - simpl. intros H. apply orb_true_iff in H as [H|H]; auto.
Qed.

Lemma fold_cleanStep_bytes (f : string -> bool) r elems out :
  existsb f (fold_left (cleanStep r) elems out) = true ->
  existsb f out = true \/ existsb f elems = true.
Proof.
  revert out; induction elems as [|e elems IH]; intros out H; [auto |].
  simpl in H. apply IH in H as [H|H].
  - apply cleanStep_bytes in H as [H|H]; [auto |].
    right. simpl. now rewrite H.
  - right. simpl. rewrite H. apply orb_true_r.
Qed.

Lemma existsb_rev {A} (f : A -> bool) l : existsb f (rev l) = existsb f l.
Proof.
  induction l as [|x l IH]; [reflexivity |].
  simpl. rewrite existsb_app, IH. simpl. now rewrite orb_false_r, orb_comm.
Qed.

(** A byte of the cleaned path, other than the separator and the dot,
    is a byte of the path. *)
Lemma hasByte_Clean c s :
  Ascii.eqb slash c = false -> Ascii.eqb "."%char c = false ->
  hasByte c (Clean s) = true -> hasByte c s = true.
Proof.
  intros Hs Hd.
  destruct s as [|x s];
    [change (Clean "") with "."; cbn [hasByte]; now rewrite Hd |].
  unfold Clean, render.
  set (out := cleanElems (rooted (String x s)) (split (String x s))).
  assert (Hout : existsb (hasByte c) (rev out) = true -> hasByte c (String x s) = true).
  { rewrite existsb_rev. intros H. apply fold_cleanStep_bytes in H as [H|H];
      [discriminate |]. now rewrite hasByte_split in H. }
  destruct (rooted (String x s)).
  - cbn [hasByte]. rewrite Hs, hasByte_join by assumption. exact Hout.
  - destruct out as [|o out'] eqn:E.
    + cbn [hasByte]. now rewrite Hd.
    + rewrite hasByte_join by assumption. exact Hout.
Qed.

Lemma hasByte_Join c comps :
  Ascii.eqb slash c = false -> Ascii.eqb "."%char c = false ->
  hasByte c (Join comps) = true -> existsb (hasByte c) comps = true.
Proof.
  intros Hs Hd. induction comps as [|e rest IH]; [discriminate |].
  rewrite Join_cons. destruct (String.eqb e "").
  - intros H. simpl. rewrite (IH H). apply orb_true_r.
  - intros H. apply hasByte_Clean in H; try assumption.
    now rewrite hasByte_join in H.
Qed.

Lemma validateLoop_None_bytes comps :
  validateLoop comps = None -> existsb (hasByte "$"%char) comps = false.
Proof.
  intros H.
  assert (E : existsb (fun c => Contains c "$") comps = false)
    by (rewrite <- validateLoop_isSome, H; reflexivity).
  etransitivity; [| exact E]. clear.
  induction comps as [|c comps IH]; [reflexivity |].
  cbn [existsb]. now rewrite Contains_byte, IH.
Qed.

(** What [validatePath] returns holds no variable marker. *)
Lemma validatePath_no_marker comps :
  Contains (fst (validatePath comps)) "$" = false.
Proof.
  rewrite Contains_byte.
  destruct (validatePath comps) as [p [err|]] eqn:E; simpl.
  - now rewrite (validatePath_err _ _ _ E).
  - destruct (validatePath_ok _ _ E) as [-> _].
    unfold validatePath in E.
    destruct (validateLoop comps) eqn:EL; [discriminate |].
    apply validateLoop_None_bytes in EL.
    destruct (hasByte "$"%char (Join comps)) eqn:HB; [| reflexivity].
    apply hasByte_Join in HB; [congruence | reflexivity | reflexivity].
Qed.

End ByteFacts.

(** ** [Join] of joined paths *)

Module JoinAlgebra.
Import GoStrings filepath android PathVocabulary StringFacts CleanFacts
  ValidateFacts ConstructorFacts ByteFacts.

Lemma Join_eq_empty comps :
  Join comps = "" <-> Forall (fun c => c = "") comps.
Proof.
  induction comps as [|e rest IH]; [split; [constructor | reflexivity] |].
  rewrite Join_cons. destruct (String.eqb_spec e "") as [->|Hne].
  - rewrite IH. split; [now constructor | intros H; now inversion H].
  - split; [intros H; now apply Clean_not_empty in H |].
    intros H. inversion H. contradiction.
Qed.

(** The join of valid components is fixed by their elements and by
    whether all of them are empty. *)
Lemma Join_determined A B :
  Forall (fun c => validComp c = true) A ->
  Forall (fun c => validComp c = true) B ->
  flat_map elemsOf A = flat_map elemsOf B ->
  (Join A = "" <-> Join B = "") ->
  Join A = Join B.
Proof.
  intros HA HB E Hiff.
  destruct (Join_valid A HA) as [_ [EA|EA]].
  - rewrite EA. symmetry. now apply Hiff.
  - destruct (Join_valid B HB) as [_ [EB|EB]].
    + rewrite EB. now apply Hiff.
    + now rewrite EA, EB, E.
Qed.

Lemma Join_contained comps :
  Forall (fun c => validComp c = true) comps ->
  outside (Join comps) = false /\
  (Join comps = "" \/ Clean (Join comps) = Join comps).
Proof.
  intros HV. pose proof (flat_elemsOf_proper _ HV) as HP.
  destruct (Join_valid comps HV) as [_ [E|E]]; rewrite E.
  - split; [reflexivity | now left].
  - split; [now apply outside_renderElems | right; now apply Clean_renderElems].
Qed.

Lemma validateLoop_app a b :
  validateLoop (a ++ b) = None <->
  validateLoop a = None /\ validateLoop b = None.
Proof.
  induction a as [|c a IH]; simpl; [tauto |].
  destruct (Contains c "$"); [| exact IH].
  split; [discriminate | intros [H _]; discriminate].
Qed.

Lemma validateSafeLoop_app a b :
  validateSafeLoop (a ++ b) = None <->
  validateSafeLoop a = None /\ validateSafeLoop b = None.
Proof.
  induction a as [|c a IH]; simpl; [tauto |].
  destruct (outside (Clean c)); [| exact IH].
  split; [discriminate | intros [H _]; discriminate].
Qed.

Lemma validatePath_snd_None comps :
  snd (validatePath comps) = None <->
  validateLoop comps = None /\ validateSafeLoop comps = None.
Proof.
  unfold validatePath, validateSafePath.
  destruct (validateLoop comps), (validateSafeLoop comps); simpl;
    split; try tauto; try discriminate; intros [? ?]; discriminate.
Qed.

Lemma validatePath_app a b :
  snd (validatePath (a ++ b)) = None <->
  snd (validatePath a) = None /\ snd (validatePath b) = None.
Proof.
  rewrite !validatePath_snd_None, validateLoop_app, validateSafeLoop_app. tauto.
Qed.

(** A valid component without variable marker passes [validatePath]. *)
Lemma validatePath_of_valid comps :
  Forall (fun c => validComp c = true) comps ->
  existsb (fun c => Contains c "$") comps = false ->
  validatePath comps = (Join comps, None).
Proof.
  intros HV HD. unfold validatePath, validateSafePath.
  destruct (validateLoop comps) eqn:EL.
  - pose proof (validateLoop_isSome comps) as E. rewrite EL, HD in E. discriminate.
  - now rewrite (validateSafeLoop_valid _ HV).
Qed.

Lemma validatePath_results comps_list :
  validatePath (map (fun comps => fst (validatePath comps)) comps_list) =
  (Join (map (fun comps => fst (validatePath comps)) comps_list), None).
Proof.
  apply validatePath_of_valid.
  - induction comps_list; constructor; [apply validatePath_fst_valid | assumption].
  - induction comps_list as [|c l IH]; [reflexivity |].
    cbn [map existsb]. now rewrite validatePath_no_marker, IH.
Qed.

Lemma Join_two_stage xs ys :
  Forall (fun c => validComp c = true) xs ->
  Forall (fun c => validComp c = true) ys ->
  Join [Join xs; Join ys] = Join (xs ++ ys).
Proof.
  intros Vx Vy. apply Join_determined.
  - repeat constructor; now apply Join_valid_validComp.
  - apply Forall_app; now split.
  - cbn [flat_map]. rewrite flat_map_app, app_nil_r.
    destruct (Join_valid _ Vx) as [-> _]. now destruct (Join_valid _ Vy) as [-> _].
  - rewrite !Join_eq_empty. split.
    + intros H. inversion H as [|? ? H1 H']; subst. inversion H' as [|? ? H2 _]; subst.
      apply Forall_app. split; now apply Join_eq_empty.
    + intros H. apply Forall_app in H as [H1 H2].
      repeat constructor; now apply Join_eq_empty.
Qed.

Lemma Join_pair_elems b r :
  validComp b = true -> validComp r = true ->
  elemsOf (Join [b; r]) = elemsOf b ++ elemsOf r.
Proof.
  intros Hb Hr. destruct (Join_valid [b; r]) as [-> _]; [now repeat constructor |].
  cbn [flat_map]. now rewrite app_nil_r.
Qed.

Lemma Join_tag_stage tag comps :
  validComp tag = true -> tag <> "" -> Clean tag = tag ->
  Forall (fun c => validComp c = true) comps ->
  Join [tag; Join comps] = Join (tag :: comps).
Proof.
  intros Vt Nt Ct Vc.
  replace tag with (Join [tag]) at 1 by (now rewrite Join_single).
  now rewrite (Join_two_stage [tag] comps) by (repeat constructor; assumption).
Qed.

End JoinAlgebra.

(** ** What [validatePath] returns *)

Module ValidateProps.
Import GoStrings filepath android PathVocabulary StringFacts CleanFacts
  ValidateFacts ConstructorFacts ByteFacts JoinAlgebra.

(** X1. Whatever the components are, the path that [validatePath]
    returns does not leave its root (it is not [..], does not start with
    [../] and is not absolute), holds no variable marker, and is empty
    or in cleaned form. *)
Theorem validatePath_result_contained (pathComponents : list string) :
  outside (fst (validatePath pathComponents)) = false /\
  Contains (fst (validatePath pathComponents)) "$" = false /\
  (fst (validatePath pathComponents) = "" \/
   Clean (fst (validatePath pathComponents)) = fst (validatePath pathComponents)).
Proof.
  split; [| split; [apply validatePath_no_marker |]].
  - destruct (validatePath pathComponents) as [p [err|]] eqn:E; simpl.
    + now rewrite (validatePath_err _ _ _ E).
    + destruct (validatePath_ok _ _ E) as [-> HV]. now apply Join_contained.
  - destruct (validatePath pathComponents) as [p [err|]] eqn:E; simpl.
    + left. exact (validatePath_err _ _ _ E).
    + destruct (validatePath_ok _ _ E) as [-> HV]. now apply Join_contained.
Qed.

(** X2. [validatePath] is idempotent: the path it returns, given back to
    it as the one component, is accepted and returned unchanged, also
    when the first call ended in an error. *)
Theorem validatePath_idempotent (pathComponents : list string) :
  validatePath [fst (validatePath pathComponents)] =
  (fst (validatePath pathComponents), None).
Proof.
  pose proof (validatePath_results [pathComponents]) as R.
  cbn [map] in R. rewrite R. f_equal. rewrite Join_cons.
  destruct (String.eqb_spec (fst (validatePath pathComponents)) "") as [->|Hne];
    [reflexivity |].
  destruct (validatePath pathComponents) as [p [err|]] eqn:E; cbn [fst] in *.
  - now rewrite (validatePath_err _ _ _ E) in Hne.
  - destruct (validatePath_ok _ _ E) as [-> HV].
    destruct (Join_contained _ HV) as [_ [H|H]]; [contradiction | exact H].
Qed.

(** X3. Validation in two stages: when [validatePath] accepts two lists
    of components, it accepts the two paths it returned for them as
    components and gives the path it gives for the two lists put
    together. *)
Theorem validatePath_in_stages (xs ys : list string) :
  snd (validatePath xs) = None -> snd (validatePath ys) = None ->
  validatePath [fst (validatePath xs); fst (validatePath ys)] =
  validatePath (xs ++ ys) /\
  snd (validatePath (xs ++ ys)) = None.
Proof.
  intros Hx Hy.
  assert (Hxy : snd (validatePath (xs ++ ys)) = None)
    by now apply validatePath_app.
  split; [| exact Hxy].
  pose proof (validatePath_results [xs; ys]) as R.
  cbn [map] in R. rewrite R.
  rewrite (validatePath_None _ Hxy), (validatePath_None _ Hx),
    (validatePath_None _ Hy). cbn [fst]. f_equal.
  apply Join_two_stage; now apply validatePath_None_valid.
Qed.

(** Two lists of components that [validatePath] accepts. *)
Lemma validatePath_in_stages_witness :
  validatePath [fst (validatePath ["a"; "b/../c"]); fst (validatePath [""; "d//e"])] =
  validatePath (["a"; "b/../c"] ++ [""; "d//e"]) /\
  snd (validatePath (["a"; "b/../c"] ++ [""; "d//e"])) = None.
Proof.
  apply (validatePath_in_stages ["a"; "b/../c"] [""; "d//e"]); reflexivity.
Defined.

End ValidateProps.

(** ** Paths of a module *)

Module ModulePathFacts.
Import GoStrings filepath android PathVocabulary StringFacts CleanFacts
  ValidateFacts ConstructorFacts ByteFacts JoinAlgebra.

Lemma report_returns ctx msg e :
  canReport ctx = true -> exists e', reportPathErrorf ctx msg e = Returned tt e'.
Proof.
  unfold canReport, reportPathErrorf. intros H.
  destruct (asModuleErrorf ctx); [eexists; reflexivity |].
  destruct (asErrorfContext ctx); [eexists; reflexivity | discriminate].
Qed.

Lemma reportIfError_returns ctx err e :
  canReport ctx = true -> exists e', reportIfError ctx err e = Returned tt e'.
Proof.
  intros H. destruct err as [msg|]; [now apply report_returns |].
  eexists; reflexivity.
Qed.

Lemma pathForModule_valid ctx e :
  snd (validatePath [".intermediates"; ModuleDir ctx; ModuleName ctx;
                     ModuleSubDir ctx]) = None ->
  pathForModule ctx e =
  Returned {| outputBase := {| path := moduleRoot ctx; bpConfig := config ctx;
                               rel := "" |} |} e.
Proof.
  intros HV. unfold pathForModule.
  now rewrite (PathForOutput_ok _ _ _ _ (validatePath_None _ HV)).
Qed.

Lemma moduleRoot_valid ctx :
  snd (validatePath [".intermediates"; ModuleDir ctx; ModuleName ctx;
                     ModuleSubDir ctx]) = None ->
  validComp (moduleRoot ctx) = true.
Proof.
  intros HV. apply Join_valid_validComp. now apply validatePath_None_valid.
Qed.

(** [PathForModuleOut] in a context that can report, for a module whose
    output root is valid. *)
Lemma PathForModuleOut_returns ctx paths e :
  snd (validatePath [".intermediates"; ModuleDir ctx; ModuleName ctx;
                     ModuleSubDir ctx]) = None ->
  canReport ctx = true ->
  exists e',
    PathForModuleOut ctx paths e =
    Returned
      {| moduleOutOutput :=
           {| outputBase :=
                {| path := Join [moduleRoot ctx; fst (validatePath paths)];
                   bpConfig := config ctx;
                   rel := fst (validatePath paths) |} |} |} e'.
Proof.
  intros HV HR. unfold PathForModuleOut.
  destruct (validatePath paths) as [p err]. cbn [fst]. unfold bind.
  destruct (reportIfError_returns ctx err e HR) as [e' ->].
  rewrite (pathForModule_valid _ _ HV). eexists. reflexivity.
Qed.

(** The same when the components are paths that [validatePath]
    returned: nothing is reported. *)
Lemma PathForModuleOut_validated ctx tag comps e :
  snd (validatePath [".intermediates"; ModuleDir ctx; ModuleName ctx;
                     ModuleSubDir ctx]) = None ->
  PathForModuleOut ctx [fst (validatePath [tag]); fst (validatePath comps)] e =
  Returned
    {| moduleOutOutput :=
         {| outputBase :=
              {| path := Join [moduleRoot ctx;
                               Join [fst (validatePath [tag]);
                                     fst (validatePath comps)]];
                 bpConfig := config ctx;
                 rel := Join [fst (validatePath [tag]);
                              fst (validatePath comps)] |} |} |} e.
Proof.
  intros HV. unfold PathForModuleOut.
  pose proof (validatePath_results [[tag]; comps]) as R. cbn [map] in R.
  rewrite R. unfold bind. cbn [reportIfError skip ret].
  now rewrite (pathForModule_valid _ _ HV).
Qed.

Lemma PathForModuleTagged_validated ctx tag comps e :
  snd (validatePath [".intermediates"; ModuleDir ctx; ModuleName ctx;
                     ModuleSubDir ctx]) = None ->
  canReport ctx = true ->
  fst (validatePath [tag]) = tag ->
  exists e',
    (let '(p, err) := validatePath comps in
     reportIfError ctx err ;;; PathForModuleOut ctx [tag; p]) e =
    Returned
      {| moduleOutOutput :=
           {| outputBase :=
                {| path := Join [moduleRoot ctx; Join [tag; fst (validatePath comps)]];
                   bpConfig := config ctx;
                   rel := Join [tag; fst (validatePath comps)] |} |} |} e'.
Proof.
  intros HV HR Htag.
  pose proof (PathForModuleOut_validated ctx tag comps) as HO.
  rewrite Htag in HO.
  destruct (validatePath comps) as [p err]. cbn [fst] in *. unfold bind.
  destruct (reportIfError_returns ctx err e HR) as [e' ->].
  exists e'. now apply HO.
Qed.

(** The four kinds of output paths of a module, for the same
    components: what is returned and which elements its path has. *)
Lemma module_paths_elems ctx comps e :
  snd (validatePath [".intermediates"; ModuleDir ctx; ModuleName ctx;
                     ModuleSubDir ctx]) = None ->
  canReport ctx = true ->
  exists o g b r eo eg eb er,
    PathForModuleOut ctx comps e = Returned o eo /\
    PathForModuleGen ctx comps e = Returned g eg /\
    PathForModuleObj ctx comps e = Returned b eb /\
    PathForModuleRes ctx comps e = Returned r er /\
    elemsOf (path (outputBase (moduleOutOutput o))) =
      elemsOf (moduleRoot ctx) ++ elemsOf (fst (validatePath comps)) /\
    elemsOf (path (outputBase (moduleOutOutput (moduleGenOut g)))) =
      elemsOf (moduleRoot ctx) ++ "gen" :: elemsOf (fst (validatePath comps)) /\
    elemsOf (path (outputBase (moduleOutOutput (moduleObjOut b)))) =
      elemsOf (moduleRoot ctx) ++ "obj" :: elemsOf (fst (validatePath comps)) /\
    elemsOf (path (outputBase (moduleOutOutput (moduleResOut r)))) =
      elemsOf (moduleRoot ctx) ++ "res" :: elemsOf (fst (validatePath comps)).
Proof.
  intros HV HR.
  pose proof (moduleRoot_valid _ HV) as Vroot.
  pose proof (validatePath_fst_valid comps) as Vp.
  destruct (PathForModuleOut_returns ctx comps e HV HR) as [eo Eo].
  destruct (PathForModuleTagged_validated ctx "obj" comps e HV HR eq_refl) as [eb Eb].
  destruct (PathForModuleTagged_validated ctx "res" comps e HV HR eq_refl) as [er Er].
  assert (Eg : exists eg,
             PathForModuleGen ctx comps e =
             Returned
               {| moduleGenOut :=
                    {| moduleOutOutput :=
                         {| outputBase :=
                              {| path := Join [Join [moduleRoot ctx; "gen"];
                                               fst (validatePath comps)];
                                 bpConfig := config ctx;
                                 rel := fst (validatePath comps) |} |} |} |} eg).
  { unfold PathForModuleGen. destruct (validatePath comps) as [p err].
    cbn [fst]. unfold bind.
    destruct (reportIfError_returns ctx err e HR) as [eg ->].
    rewrite (pathForModule_valid _ _ HV). eexists. reflexivity. }
  destruct Eg as [eg Eg].
  assert (Eb' : exists b, PathForModuleObj ctx comps e = Returned b eb /\
              path (outputBase (moduleOutOutput (moduleObjOut b))) =
              Join [moduleRoot ctx; Join ["obj"; fst (validatePath comps)]]).
  { unfold PathForModuleObj. revert Eb. destruct (validatePath comps) as [p err].
    unfold bind. destruct (reportIfError ctx err e) as [[] e1|]; [| discriminate].
    intros ->. eexists. split; reflexivity. }
  assert (Er' : exists r, PathForModuleRes ctx comps e = Returned r er /\
              path (outputBase (moduleOutOutput (moduleResOut r))) =
              Join [moduleRoot ctx; Join ["res"; fst (validatePath comps)]]).
  { unfold PathForModuleRes. revert Er. destruct (validatePath comps) as [p err].
    unfold bind. destruct (reportIfError ctx err e) as [[] e1|]; [| discriminate].
    intros ->. eexists. split; reflexivity. }
  destruct Eb' as (b & Eb1 & Eb2), Er' as (r & Er1 & Er2).
  do 4 eexists. exists eo, eg, eb, er.
  split; [exact Eo |]. split; [exact Eg |]. split; [exact Eb1 |].
  split; [exact Er1 |]. cbn [path outputBase moduleOutOutput moduleGenOut].
  rewrite Eb2, Er2.
  assert (Vtag : forall tag, validComp tag = true ->
            elemsOf (Join [tag; fst (validatePath comps)]) =
            elemsOf tag ++ elemsOf (fst (validatePath comps)) /\
            validComp (Join [tag; fst (validatePath comps)]) = true).
  { intros tag Ht. split; [now apply Join_pair_elems |].
    apply Join_valid_validComp. now repeat constructor. }
  destruct (Vtag "obj" eq_refl) as [Eobj Vobj].
  destruct (Vtag "res" eq_refl) as [Eres Vres].
  split; [now apply Join_pair_elems |]. split; [| split].
  - rewrite Join_pair_elems;
      [| apply Join_valid_validComp; now repeat constructor | assumption].
    rewrite Join_pair_elems by (assumption || reflexivity).
    now rewrite <- app_assoc.
  - rewrite Join_pair_elems by assumption. now rewrite Eobj.
  - rewrite Join_pair_elems by assumption. now rewrite Eres.
Qed.

End ModulePathFacts.

Module ModulePathProps.
Import GoStrings filepath android PathVocabulary StringFacts CleanFacts
  ValidateFacts ConstructorFacts ByteFacts JoinAlgebra ModulePathFacts Examples.

(** X4. For a module whose output root is built without a path error,
    in a context that can report errors: whatever components are given,
    accepted or not, [PathForModuleOut], [PathForModuleGen],
    [PathForModuleObj] and [PathForModuleRes] return, and the paths they
    return lie inside the output root of the module. *)
Theorem module_output_paths_inside_root
  (ctx : Context) (pathComponents : list string) (e : Effects) :
  snd (validatePath [".intermediates"; ModuleDir ctx; ModuleName ctx;
                     ModuleSubDir ctx]) = None ->
  canReport ctx = true ->
  exists o g b r eo eg eb er,
    PathForModuleOut ctx pathComponents e = Returned o eo /\
    PathForModuleGen ctx pathComponents e = Returned g eg /\
    PathForModuleObj ctx pathComponents e = Returned b eb /\
    PathForModuleRes ctx pathComponents e = Returned r er /\
    inside (moduleRoot ctx) (path (outputBase (moduleOutOutput o))) /\
    inside (moduleRoot ctx)
      (path (outputBase (moduleOutOutput (moduleGenOut g)))) /\
    inside (moduleRoot ctx)
      (path (outputBase (moduleOutOutput (moduleObjOut b)))) /\
    inside (moduleRoot ctx)
      (path (outputBase (moduleOutOutput (moduleResOut r)))).
Proof.
  intros HV HR.
  destruct (module_paths_elems ctx pathComponents e HV HR)
    as (o & g & b & r & eo & eg & eb & er & Ho & Hg & Hb & Hr & Eo & Eg & Eb & Er).
  pose proof (validComp_proper _ (validatePath_fst_valid pathComponents)) as HP.
  exists o, g, b, r, eo, eg, eb, er.
  repeat (split; [assumption |]).
  repeat split; eexists; (split; [| eassumption]);
    try assumption; now constructor.
Qed.

(** A module context and components that leave the module. *)
Lemma module_output_paths_inside_root_witness :
  exists o g b r eo eg eb er,
    PathForModuleOut (moduleContext "art" "libart" "android_arm64")
      [".."; "other"] noEffects = Returned o eo /\
    PathForModuleGen (moduleContext "art" "libart" "android_arm64")
      [".."; "other"] noEffects = Returned g eg /\
    PathForModuleObj (moduleContext "art" "libart" "android_arm64")
      [".."; "other"] noEffects = Returned b eb /\
    PathForModuleRes (moduleContext "art" "libart" "android_arm64")
      [".."; "other"] noEffects = Returned r er /\
    inside (moduleRoot (moduleContext "art" "libart" "android_arm64"))
      (path (outputBase (moduleOutOutput o))) /\
    inside (moduleRoot (moduleContext "art" "libart" "android_arm64"))
      (path (outputBase (moduleOutOutput (moduleGenOut g)))) /\
    inside (moduleRoot (moduleContext "art" "libart" "android_arm64"))
      (path (outputBase (moduleOutOutput (moduleObjOut b)))) /\
    inside (moduleRoot (moduleContext "art" "libart" "android_arm64"))
      (path (outputBase (moduleOutOutput (moduleResOut r)))).
Proof.
  apply (module_output_paths_inside_root
           (moduleContext "art" "libart" "android_arm64") [".."; "other"]
           noEffects); reflexivity.
Defined.

(** X5. For the same module and the same components, the paths of
    [PathForModuleGen], [PathForModuleObj] and [PathForModuleRes] are
    pairwise different: the three directories of a module do not
    overlap. *)
Theorem module_gen_obj_res_paths_differ
  (ctx : Context) (pathComponents : list string) (e : Effects)
  (g : ModuleGenPath) (b : ModuleObjPath) (r : ModuleResPath)
  (eg eb er : Effects) :
  snd (validatePath [".intermediates"; ModuleDir ctx; ModuleName ctx;
                     ModuleSubDir ctx]) = None ->
  canReport ctx = true ->
  PathForModuleGen ctx pathComponents e = Returned g eg ->
  PathForModuleObj ctx pathComponents e = Returned b eb ->
  PathForModuleRes ctx pathComponents e = Returned r er ->
  path (outputBase (moduleOutOutput (moduleGenOut g))) <>
  path (outputBase (moduleOutOutput (moduleObjOut b))) /\
  path (outputBase (moduleOutOutput (moduleGenOut g))) <>
  path (outputBase (moduleOutOutput (moduleResOut r))) /\
  path (outputBase (moduleOutOutput (moduleObjOut b))) <>
  path (outputBase (moduleOutOutput (moduleResOut r))).
Proof.
  intros HV HR Hg Hb Hr.
  destruct (module_paths_elems ctx pathComponents e HV HR)
    as (o & g' & b' & r' & eo & eg' & eb' & er' & _ & Hg' & Hb' & Hr' & _ & Eg & Eb & Er).
  rewrite Hg in Hg'. rewrite Hb in Hb'. rewrite Hr in Hr'.
  injection Hg' as <- _. injection Hb' as <- _. injection Hr' as <- _.
  repeat split; intros E; rewrite E in *;
    match goal with
    | H1 : ?x = _ ++ _ :: _, H2 : ?x = _ ++ _ :: _ |- _ =>
        rewrite H1 in H2; apply app_inv_head in H2; discriminate H2
    end.
Qed.

Lemma module_gen_obj_res_paths_differ_witness :
  exists g b r eg eb er,
    PathForModuleGen (moduleContext "art" "libart" "android_arm64") ["a.c"]
      noEffects = Returned g eg /\
    PathForModuleObj (moduleContext "art" "libart" "android_arm64") ["a.c"]
      noEffects = Returned b eb /\
    PathForModuleRes (moduleContext "art" "libart" "android_arm64") ["a.c"]
      noEffects = Returned r er /\
    path (outputBase (moduleOutOutput (moduleGenOut g))) <>
    path (outputBase (moduleOutOutput (moduleObjOut b))) /\
    path (outputBase (moduleOutOutput (moduleGenOut g))) <>
    path (outputBase (moduleOutOutput (moduleResOut r))) /\
    path (outputBase (moduleOutOutput (moduleObjOut b))) <>
    path (outputBase (moduleOutOutput (moduleResOut r))).
Proof.
  do 6 eexists. split; [reflexivity |]. split; [reflexivity |].
  split; [reflexivity |].
  exact (module_gen_obj_res_paths_differ
           (moduleContext "art" "libart" "android_arm64") ["a.c"] noEffects
           _ _ _ _ _ _ eq_refl eq_refl eq_refl eq_refl eq_refl).
Defined.

(** X6. For a module whose output root is valid and components that
    [validatePath] accepts: [PathForModuleObj] and [PathForModuleRes]
    return what [PathForModuleOut] returns for the components with
    [obj], respectively [res], put in front, so that their [Rel()]
    is the join of that directory and the components;
    [PathForModuleGen] returns the path of [PathForModuleOut] with [gen]
    put in front, but its [Rel()] is the joined components without
    [gen], and its whole path when the components are all empty. *)
Theorem module_obj_res_gen_as_out
  (ctx : Context) (pathComponents : list string) (e : Effects) :
  snd (validatePath [".intermediates"; ModuleDir ctx; ModuleName ctx;
                     ModuleSubDir ctx]) = None ->
  snd (validatePath pathComponents) = None ->
  exists o r g g',
    PathForModuleOut ctx ("obj" :: pathComponents) e = Returned o e /\
    PathForModuleObj ctx pathComponents e = Returned {| moduleObjOut := o |} e /\
    PathForModuleOut ctx ("res" :: pathComponents) e = Returned r e /\
    PathForModuleRes ctx pathComponents e = Returned {| moduleResOut := r |} e /\
    PathForModuleOut ctx ("gen" :: pathComponents) e = Returned g e /\
    PathForModuleGen ctx pathComponents e = Returned g' e /\
    path (outputBase (moduleOutOutput (moduleGenOut g'))) =
      path (outputBase (moduleOutOutput g)) /\
    OutputPath_Rel (moduleOutOutput o) = Join ("obj" :: pathComponents) /\
    OutputPath_Rel (moduleOutOutput r) = Join ("res" :: pathComponents) /\
    OutputPath_Rel (moduleOutOutput g) = Join ("gen" :: pathComponents) /\
    OutputPath_Rel (moduleOutOutput (moduleGenOut g')) =
      (if String.eqb (Join pathComponents) ""
       then path (outputBase (moduleOutOutput (moduleGenOut g')))
       else Join pathComponents).
Proof.
  intros HV HC.
  assert (NE : forall tag, tag <> "" ->
            String.eqb (Join (tag :: pathComponents)) "" = false).
  { intros tag Ht. apply String.eqb_neq. intros E.
    apply Join_eq_empty in E. exact (Ht (Forall_inv E)). }
  pose proof (validatePath_None_valid _ HC) as VC.
  pose proof (moduleRoot_valid _ HV) as Vroot.
  assert (Htag : forall tag, snd (validatePath [tag]) = None ->
            validatePath (tag :: pathComponents) =
            (Join (tag :: pathComponents), None)).
  { intros tag Ht. apply validatePath_None.
    change (tag :: pathComponents) with ([tag] ++ pathComponents).
    now apply validatePath_app. }
  assert (Hout : forall tag, snd (validatePath [tag]) = None ->
            PathForModuleOut ctx (tag :: pathComponents) e =
            Returned
              {| moduleOutOutput :=
                   {| outputBase :=
                        {| path := Join [moduleRoot ctx; Join (tag :: pathComponents)];
                           bpConfig := config ctx;
                           rel := Join (tag :: pathComponents) |} |} |} e).
  { intros tag Ht. unfold PathForModuleOut. rewrite (Htag tag Ht).
    unfold bind. cbn [reportIfError skip ret].
    now rewrite (pathForModule_valid _ _ HV). }
  assert (Hwrap : forall tag,
            snd (validatePath [tag]) = None -> fst (validatePath [tag]) = tag ->
            tag <> "" -> Clean tag = tag ->
            (let '(p, err) := validatePath pathComponents in
             reportIfError ctx err ;;; PathForModuleOut ctx [tag; p]) e =
            Returned
              {| moduleOutOutput :=
                   {| outputBase :=
                        {| path := Join [moduleRoot ctx; Join (tag :: pathComponents)];
                           bpConfig := config ctx;
                           rel := Join (tag :: pathComponents) |} |} |} e).
  { intros tag Ht Ft Nt Ct.
    pose proof (PathForModuleOut_validated ctx tag pathComponents e HV) as HO.
    rewrite Ft in HO. rewrite (validatePath_None _ HC) in *. cbn [fst] in HO.
    unfold bind. cbn [reportIfError skip ret]. rewrite HO.
    rewrite (Join_tag_stage tag pathComponents); try assumption;
      [reflexivity |].
    pose proof (validatePath_None_valid _ Ht) as Vt. now inversion Vt. }
  do 4 eexists.
  split; [apply (Hout "obj" eq_refl) |].
  split.
  { unfold PathForModuleObj.
    pose proof (Hwrap "obj" eq_refl eq_refl ltac:(discriminate) eq_refl) as W.
    destruct (validatePath pathComponents) as [p err]. unfold bind in *.
    destruct (reportIfError ctx err e) as [[] e1|]; [| discriminate].
    rewrite W. reflexivity. }
  split; [apply (Hout "res" eq_refl) |].
  split.
  { unfold PathForModuleRes.
    pose proof (Hwrap "res" eq_refl eq_refl ltac:(discriminate) eq_refl) as W.
    destruct (validatePath pathComponents) as [p err]. unfold bind in *.
    destruct (reportIfError ctx err e) as [[] e1|]; [| discriminate].
    rewrite W. reflexivity. }
  split; [apply (Hout "gen" eq_refl) |].
  split.
  { unfold PathForModuleGen. rewrite (validatePath_None _ HC).
    unfold bind. cbn [reportIfError skip ret].
    rewrite (pathForModule_valid _ _ HV). reflexivity. }
  unfold OutputPath_Rel, basePath_Rel.
  cbn [path rel outputBase moduleOutOutput moduleGenOut OutputPath_withRel
       basePath_withRel].
  rewrite !NE by discriminate. cbn [negb].
  split; [| repeat (split; [reflexivity |]);
            destruct (String.eqb (Join pathComponents) ""); reflexivity].
  apply Join_determined.
  - repeat constructor; [| now apply Join_valid_validComp].
    apply Join_valid_validComp. now repeat constructor.
  - repeat constructor; [assumption |].
    apply Join_valid_validComp. now constructor.
  - cbn [flat_map]. rewrite !app_nil_r.
    rewrite Join_pair_elems by (assumption || reflexivity).
    destruct (Join_valid pathComponents VC) as [-> _].
    destruct (Join_valid ("gen" :: pathComponents)) as [-> _];
      [now constructor |].
    cbn [flat_map]. now rewrite <- app_assoc.
  - rewrite !Join_eq_empty. split; intros H; exfalso.
    + pose proof (Forall_inv H) as H1. cbv beta in H1.
      apply Join_eq_empty in H1.
      pose proof (Forall_inv (Forall_inv_tail H1)) as H2. discriminate.
    + pose proof (Forall_inv H) as H1. cbv beta in H1.
      unfold moduleRoot in H1. apply Join_eq_empty in H1.
      pose proof (Forall_inv H1) as H2. discriminate.
Qed.

(** Components of a file, and no components at all. *)
Lemma module_obj_res_gen_as_out_witness :
  (exists o r g g',
     PathForModuleOut (moduleContext "art" "libart" "android_arm64")
       ("obj" :: ["runtime"; "a.o"]) noEffects = Returned o noEffects /\
     PathForModuleObj (moduleContext "art" "libart" "android_arm64")
       ["runtime"; "a.o"] noEffects = Returned {| moduleObjOut := o |} noEffects /\
     PathForModuleOut (moduleContext "art" "libart" "android_arm64")
       ("res" :: ["runtime"; "a.o"]) noEffects = Returned r noEffects /\
     PathForModuleRes (moduleContext "art" "libart" "android_arm64")
       ["runtime"; "a.o"] noEffects = Returned {| moduleResOut := r |} noEffects /\
     PathForModuleOut (moduleContext "art" "libart" "android_arm64")
       ("gen" :: ["runtime"; "a.o"]) noEffects = Returned g noEffects /\
     PathForModuleGen (moduleContext "art" "libart" "android_arm64")
       ["runtime"; "a.o"] noEffects = Returned g' noEffects /\
     path (outputBase (moduleOutOutput (moduleGenOut g'))) =
       path (outputBase (moduleOutOutput g)) /\
     OutputPath_Rel (moduleOutOutput o) = Join ("obj" :: ["runtime"; "a.o"]) /\
     OutputPath_Rel (moduleOutOutput r) = Join ("res" :: ["runtime"; "a.o"]) /\
     OutputPath_Rel (moduleOutOutput g) = Join ("gen" :: ["runtime"; "a.o"]) /\
     OutputPath_Rel (moduleOutOutput (moduleGenOut g')) = Join ["runtime"; "a.o"]) /\
  (exists o r g g',
     PathForModuleOut (moduleContext "art" "libart" "android_arm64")
       ("obj" :: []) noEffects = Returned o noEffects /\
     PathForModuleObj (moduleContext "art" "libart" "android_arm64")
       [] noEffects = Returned {| moduleObjOut := o |} noEffects /\
     PathForModuleOut (moduleContext "art" "libart" "android_arm64")
       ("res" :: []) noEffects = Returned r noEffects /\
     PathForModuleRes (moduleContext "art" "libart" "android_arm64")
       [] noEffects = Returned {| moduleResOut := r |} noEffects /\
     PathForModuleOut (moduleContext "art" "libart" "android_arm64")
       ("gen" :: []) noEffects = Returned g noEffects /\
     PathForModuleGen (moduleContext "art" "libart" "android_arm64")
       [] noEffects = Returned g' noEffects /\
     path (outputBase (moduleOutOutput (moduleGenOut g'))) =
       path (outputBase (moduleOutOutput g)) /\
     OutputPath_Rel (moduleOutOutput o) = Join ("obj" :: []) /\
     OutputPath_Rel (moduleOutOutput r) = Join ("res" :: []) /\
     OutputPath_Rel (moduleOutOutput g) = Join ("gen" :: []) /\
     OutputPath_Rel (moduleOutOutput (moduleGenOut g')) = path (outputBase (moduleOutOutput (moduleGenOut g')))).
Proof.
  split.
  - exact (module_obj_res_gen_as_out
             (moduleContext "art" "libart" "android_arm64") ["runtime"; "a.o"]
             noEffects eq_refl eq_refl).
  - exact (module_obj_res_gen_as_out
             (moduleContext "art" "libart" "android_arm64") []
             noEffects eq_refl eq_refl).
Defined.

End ModulePathProps.

(** ** Paths made from other paths *)

Module DerivedPathProps.
Import GoStrings filepath android PathVocabulary Examples CleanFacts
  ValidateFacts ConstructorFacts ByteFacts JoinAlgebra ModulePathFacts.

Lemma validComp_inside b r :
  validComp b = true -> validComp r = true -> inside b (Join [b; r]).
Proof.
  intros Hb Hr. exists (elemsOf r).
  split; [now apply validComp_proper | now apply Join_pair_elems].
Qed.

Lemma single_accepted c :
  snd (validatePath [c]) = None ->
  validComp c = true /\ Contains c "$" = false.
Proof.
  intros H. split.
  - pose proof (validatePath_None_valid _ H) as V. now inversion V.
  - apply validatePath_snd_None in H. destruct H as [HL _].
    pose proof (validateLoop_isSome [c]) as E. rewrite HL in E.
    cbn [existsb isSome] in E. now destruct (Contains c "$").
Qed.

Lemma Rel_of_rel (b : basePath) (r : string) :
  rel b = r -> basePath_Rel b = if String.eqb r "" then path b else r.
Proof.
  intros <-. unfold basePath_Rel. now destruct (String.eqb (rel b) "").
Qed.

Lemma PathForModuleSrc_fields
  (ctx : Context) (paths : list string) (e : Effects) :
  canReport ctx = true ->
  snd (validatePath [ModuleDir ctx]) = None ->
  exists r e',
    PathForModuleSrc ctx paths e = Returned r e' /\
    path (sourceBase (moduleSrcSource r)) =
      Join [ModuleDir ctx; fst (validatePath paths)] /\
    rel (sourceBase (moduleSrcSource r)) = fst (validatePath paths) /\
    inside (ModuleDir ctx) (path (sourceBase (moduleSrcSource r))).
Proof.
  intros HR HD. destruct (single_accepted _ HD) as [Vd Dd].
  pose proof (validatePath_fst_valid paths) as Vp.
  pose proof (validatePath_no_marker paths) as Dp.
  unfold PathForModuleSrc.
  destruct (validatePath paths) as [p err]. cbn [fst] in *.
  assert (EV : validatePath [ModuleDir ctx; p] = (Join [ModuleDir ctx; p], None)).
  { apply validatePath_of_valid; [now repeat constructor |].
    cbn [existsb]. now rewrite Dd, Dp. }
  unfold bind.
  destruct (reportIfError_returns ctx err e HR) as [e1 ->].
  assert (ES : exists err', pathForSource ctx [ModuleDir ctx; p] =
            ({| sourceBase := {| path := Join [ModuleDir ctx; p];
                                 bpConfig := config ctx; rel := "" |} |}, err')).
  { unfold pathForSource. rewrite EV.
    match goal with |- context [if ?b then _ else _] => destruct b end;
      eexists; reflexivity. }
  destruct ES as [err' ->].
  destruct (reportIfError_returns ctx err' e1 HR) as [e2 ->].
  cbn [path bpConfig sourceBase].
  match goal with
  | |- context [(if ?b then reportPathErrorf ctx ?m else skip) e2] =>
      assert (E3 : exists e3, (if b then reportPathErrorf ctx m else skip) e2 =
                              Returned tt e3)
        by (destruct b; [now apply report_returns | eexists; reflexivity]);
      destruct E3 as [e3 ->]
  end.
  match goal with
  | |- context [FsExists ctx ?s] => destruct (FsExists ctx s) as [ex [msg|]]
  end.
  - match goal with
    | |- context [reportPathErrorf ctx ?m e3] =>
        destruct (report_returns ctx m e3 HR) as [e4 ->]
    end.
    do 2 eexists. split; [reflexivity |]. cbn [path rel sourceBase moduleSrcSource].
    repeat split. now apply validComp_inside.
  - destruct ex; cbn [negb].
    + do 2 eexists. split; [reflexivity |].
      cbn [path rel sourceBase moduleSrcSource].
      repeat split. now apply validComp_inside.
    + match goal with
      | |- context [reportPathErrorf ctx ?m e3] =>
          destruct (report_returns ctx m e3 HR) as [e4 ->]
      end.
      do 2 eexists. split; [reflexivity |].
      cbn [path rel sourceBase moduleSrcSource].
      repeat split. now apply validComp_inside.
Qed.

(** X7. In a context that can report errors and whose module directory
    is an accepted path, [PathForModuleSrc] returns, whatever the
    components and the file system are; the path it returns is the
    module directory joined with the validated components and lies
    inside the module directory; its [Rel()] is the validated
    components, and its whole path when these are empty, as they are
    for rejected components. *)
Theorem module_source_path_inside_module_dir
  (ctx : Context) (paths : list string) (e : Effects) :
  canReport ctx = true ->
  snd (validatePath [ModuleDir ctx]) = None ->
  exists r e',
    PathForModuleSrc ctx paths e = Returned r e' /\
    path (sourceBase (moduleSrcSource r)) =
      Join [ModuleDir ctx; fst (validatePath paths)] /\
    SourcePath_Rel (moduleSrcSource r) =
      (if String.eqb (fst (validatePath paths)) ""
       then path (sourceBase (moduleSrcSource r))
       else fst (validatePath paths)) /\
    inside (ModuleDir ctx) (path (sourceBase (moduleSrcSource r))).
Proof.
  intros HR HD.
  destruct (PathForModuleSrc_fields ctx paths e HR HD)
    as (r & e' & H1 & H2 & H3 & H4).
  exists r, e'. split; [exact H1 |]. split; [exact H2 |].
  split; [| exact H4]. unfold SourcePath_Rel. now apply Rel_of_rel.
Qed.

(** A file named inside the module directory, and a file named from
    outside of it, whose components are rejected. *)
Lemma module_source_path_inside_module_dir_witness :
  (exists r e',
     PathForModuleSrc (moduleContext "art" "libart" "android_arm64")
       ["runtime"; "x.cc"] noEffects = Returned r e' /\
     path (sourceBase (moduleSrcSource r)) = "art/runtime/x.cc" /\
     SourcePath_Rel (moduleSrcSource r) = "runtime/x.cc" /\
     inside (ModuleDir (moduleContext "art" "libart" "android_arm64"))
       (path (sourceBase (moduleSrcSource r)))) /\
  (exists r e',
     PathForModuleSrc (moduleContext "art" "libart" "android_arm64")
       [".."; "bionic"; "libc.c"] noEffects = Returned r e' /\
     path (sourceBase (moduleSrcSource r)) = "art" /\
     SourcePath_Rel (moduleSrcSource r) = "art" /\
     inside (ModuleDir (moduleContext "art" "libart" "android_arm64"))
       (path (sourceBase (moduleSrcSource r)))).
Proof.
  split.
  - destruct (module_source_path_inside_module_dir
                (moduleContext "art" "libart" "android_arm64")
                ["runtime"; "x.cc"] noEffects eq_refl eq_refl)
      as (r & e' & H1 & H2 & H3 & H4).
    exists r, e'. split; [exact H1 |]. split; [exact H2 |].
    split; [| exact H4]. rewrite H3. reflexivity.
  - destruct (module_source_path_inside_module_dir
                (moduleContext "art" "libart" "android_arm64")
                [".."; "bionic"; "libc.c"] noEffects eq_refl eq_refl)
      as (r & e' & H1 & H2 & H3 & H4).
    exists r, e'. split; [exact H1 |]. split; [exact H2 |].
    split; [| exact H4]. rewrite H3. exact H2.
Defined.

Lemma OutputPath_Join_fields
  (p : OutputPath) (ctx : Context) (a b : list string) (e : Effects) :
  validComp (path (outputBase p)) = true ->
  snd (validatePath a) = None ->
  snd (validatePath b) = None ->
  exists p1 p2 p3,
    OutputPath_Join p ctx a e = Returned p1 e /\
    OutputPath_Join p1 ctx b e = Returned p2 e /\
    OutputPath_Join p ctx (a ++ b) e = Returned p3 e /\
    path (outputBase p2) = path (outputBase p3) /\
    OutputPath_String p2 = OutputPath_String p3 /\
    rel (outputBase p2) = Join b /\
    rel (outputBase p3) = Join (a ++ b) /\
    inside (path (outputBase p)) (path (outputBase p1)) /\
    inside (path (outputBase p1)) (path (outputBase p2)).
Proof.
  intros Vp Ha Hb.
  pose proof (validatePath_None_valid _ Ha) as Va.
  pose proof (validatePath_None_valid _ Hb) as Vb.
  assert (Hab : snd (validatePath (a ++ b)) = None) by now apply validatePath_app.
  pose proof (Join_valid_validComp _ Va) as VJa.
  pose proof (Join_valid_validComp _ Vb) as VJb.
  assert (VJ1 : validComp (Join [path (outputBase p); Join a]) = true)
    by (apply Join_valid_validComp; now repeat constructor).
  assert (EP : Join [Join [path (outputBase p); Join a]; Join b] =
               Join [path (outputBase p); Join (a ++ b)]).
  { apply Join_determined.
    - now repeat constructor.
    - repeat constructor; [assumption |].
      apply Join_valid_validComp. apply Forall_app; now split.
    - cbn [flat_map]. rewrite !app_nil_r.
      rewrite Join_pair_elems by assumption.
      destruct (Join_valid (a ++ b)) as [-> _]; [apply Forall_app; now split |].
      destruct (Join_valid a Va) as [-> _]. destruct (Join_valid b Vb) as [-> _].
      now rewrite flat_map_app, <- app_assoc.
    - rewrite !Join_eq_empty. split; intros H.
      + pose proof (Forall_inv H) as H1. cbv beta in H1.
        pose proof (Forall_inv (Forall_inv_tail H)) as H2. cbv beta in H2.
        apply Join_eq_empty in H1.
        pose proof (Forall_inv H1) as H3. cbv beta in H3.
        pose proof (Forall_inv (Forall_inv_tail H1)) as H4. cbv beta in H4.
        repeat constructor; [assumption |].
        apply Join_eq_empty, Forall_app. split; now apply Join_eq_empty.
      + pose proof (Forall_inv H) as H1. cbv beta in H1.
        pose proof (Forall_inv (Forall_inv_tail H)) as H2. cbv beta in H2.
        apply Join_eq_empty, Forall_app in H2. destruct H2 as [H2 H3].
        repeat constructor; [| now apply Join_eq_empty].
        apply Join_eq_empty. repeat constructor; [assumption |].
        now apply Join_eq_empty. }
  unfold OutputPath_Join.
  rewrite (validatePath_None _ Ha), (validatePath_None _ Hb),
    (validatePath_None _ Hab).
  unfold bind. cbn [reportIfError skip ret].
  do 3 eexists.
  split; [reflexivity |]. split; [reflexivity |]. split; [reflexivity |].
  unfold OutputPath_String.
  cbn [path rel bpConfig outputBase OutputPath_withRel basePath_withRel].
  rewrite EP. repeat split.
  - now apply validComp_inside.
  - rewrite <- EP. now apply validComp_inside.
Qed.

(** X8. Joining an output path with accepted components in two steps
    gives the same file as joining it once with all the components, and
    each step stays inside the path it started from; [Rel()] after the
    two steps is the second group of components only, and after the
    single step all the components; where the components joined last
    are all empty, [Rel()] is the whole path. *)
Theorem OutputPath_Join_composes
  (p : OutputPath) (ctx : Context) (a b : list string) (e : Effects) :
  validComp (path (outputBase p)) = true ->
  snd (validatePath a) = None ->
  snd (validatePath b) = None ->
  exists p1 p2 p3,
    OutputPath_Join p ctx a e = Returned p1 e /\
    OutputPath_Join p1 ctx b e = Returned p2 e /\
    OutputPath_Join p ctx (a ++ b) e = Returned p3 e /\
    path (outputBase p2) = path (outputBase p3) /\
    OutputPath_String p2 = OutputPath_String p3 /\
    OutputPath_Rel p2 =
      (if String.eqb (Join b) "" then path (outputBase p2) else Join b) /\
    OutputPath_Rel p3 =
      (if String.eqb (Join (a ++ b)) "" then path (outputBase p3)
       else Join (a ++ b)) /\
    inside (path (outputBase p)) (path (outputBase p1)) /\
    inside (path (outputBase p1)) (path (outputBase p2)).
Proof.
  intros Vp Ha Hb.
  destruct (OutputPath_Join_fields p ctx a b e Vp Ha Hb)
    as (p1 & p2 & p3 & H1 & H2 & H3 & H4 & H5 & H6 & H7 & H8 & H9).
  exists p1, p2, p3.
  repeat (split; [assumption |]).
  split; [unfold OutputPath_Rel; now apply Rel_of_rel |].
  split; [unfold OutputPath_Rel; now apply Rel_of_rel |].
  split; assumption.
Qed.

(** Two groups of components, and a second group that is empty. *)
Lemma OutputPath_Join_composes_witness :
  (exists p1 p2 p3,
     OutputPath_Join (outputPath "soong/host") testPathContext ["bin"] noEffects =
       Returned p1 noEffects /\
     OutputPath_Join p1 testPathContext ["x"; "tool"] noEffects =
       Returned p2 noEffects /\
     OutputPath_Join (outputPath "soong/host") testPathContext
       (["bin"] ++ ["x"; "tool"]) noEffects = Returned p3 noEffects /\
     path (outputBase p2) = path (outputBase p3) /\
     OutputPath_String p2 = OutputPath_String p3 /\
     OutputPath_Rel p2 = "x/tool" /\
     OutputPath_Rel p3 = "bin/x/tool" /\
     inside (path (outputBase (outputPath "soong/host"))) (path (outputBase p1)) /\
     inside (path (outputBase p1)) (path (outputBase p2))) /\
  (exists p1 p2 p3,
     OutputPath_Join (outputPath "soong/host") testPathContext ["bin"] noEffects =
       Returned p1 noEffects /\
     OutputPath_Join p1 testPathContext [] noEffects = Returned p2 noEffects /\
     OutputPath_Join (outputPath "soong/host") testPathContext
       (["bin"] ++ []) noEffects = Returned p3 noEffects /\
     path (outputBase p2) = path (outputBase p3) /\
     OutputPath_String p2 = OutputPath_String p3 /\
     OutputPath_Rel p2 = path (outputBase p2) /\
     OutputPath_Rel p3 = "bin" /\
     inside (path (outputBase (outputPath "soong/host"))) (path (outputBase p1)) /\
     inside (path (outputBase p1)) (path (outputBase p2))).
Proof.
  split.
  - exact (OutputPath_Join_composes (outputPath "soong/host") testPathContext
             ["bin"] ["x"; "tool"] noEffects eq_refl eq_refl eq_refl).
  - exact (OutputPath_Join_composes (outputPath "soong/host") testPathContext
             ["bin"] [] noEffects eq_refl eq_refl eq_refl).
Defined.

(** X9. For components that [validatePath] accepts, [PathForIntermediates]
    returns what [PathForOutput] returns for [.intermediates] followed by
    the components, in any context; the output root of a module is the
    case of the module directory, name and variant.  For components
    that are rejected, in a context that can report, it returns the
    [.intermediates] directory itself. *)
Theorem PathForIntermediates_as_output
  (ctx : Context) (paths : list string) (e : Effects) :
  (snd (validatePath paths) = None ->
   PathForIntermediates ctx paths e =
     PathForOutput ctx (".intermediates" :: paths) e) /\
  (snd (validatePath paths) <> None -> canReport ctx = true ->
   exists e',
     PathForIntermediates ctx paths e =
       Returned {| outputBase := {| path := ".intermediates";
                                    bpConfig := config ctx; rel := "" |} |} e').
Proof.
  split.
  - intros H. pose proof (validatePath_None_valid _ H) as V.
    assert (H' : validatePath (".intermediates" :: paths) =
                 (Join (".intermediates" :: paths), None)).
    { apply validatePath_None.
      change (".intermediates" :: paths) with ([".intermediates"] ++ paths).
      now apply validatePath_app. }
    unfold PathForIntermediates, PathForOutput.
    rewrite (validatePath_None _ H), H'.
    pose proof (validatePath_results [[".intermediates"]; paths]) as R.
    cbn [map] in R. rewrite (validatePath_None _ H) in R.
    change (fst (validatePath [".intermediates"])) with ".intermediates" in R.
    cbn [fst] in R.
    unfold bind. cbn [reportIfError skip]. rewrite R.
    cbn [reportIfError skip].
    rewrite (Join_tag_stage ".intermediates" paths);
      [reflexivity | reflexivity | discriminate | reflexivity | assumption].
  - intros H HR. unfold PathForIntermediates.
    destruct (validatePath paths) as [p [msg|]] eqn:E; [| now elim H].
    rewrite (validatePath_err _ _ _ E).
    unfold bind. destruct (reportIfError_returns ctx (Some msg) e HR) as [e1 ->].
    exists e1. reflexivity.
Qed.

Lemma PathForIntermediates_as_output_witness :
  PathForIntermediates (moduleContext "art" "libart" "android_arm64")
    ["art"; "libart"; "android_arm64"] noEffects =
  PathForOutput (moduleContext "art" "libart" "android_arm64")
    (".intermediates" :: ["art"; "libart"; "android_arm64"]) noEffects.
Proof.
  apply (PathForIntermediates_as_output
           (moduleContext "art" "libart" "android_arm64")
           ["art"; "libart"; "android_arm64"] noEffects). reflexivity.
Defined.

End DerivedPathProps.

(** ** Lists of paths *)

Module PathListFacts.
Import GoStrings filepath android PathVocabulary UniqueFacts.

Lemma ReversePaths_rev (list : Paths) : ReversePaths list = rev list.
Proof.
  unfold ReversePaths, Paths in *.
  induction list as [|x l IH] using rev_ind; [reflexivity |].
  rewrite length_app, Nat.add_comm. cbn [List.length Nat.add seq flat_map].
  rewrite rev_app_distr. cbn [rev app].
  replace (S (List.length l) - 1 - 0) with (List.length l) by lia.
  rewrite lookup_app_r by lia. rewrite Nat.sub_diag. cbn [lookup list_lookup app].
  f_equal. rewrite <- IH, <- seq_shift, flat_map_concat_map, map_map,
    <- flat_map_concat_map.
  rewrite !flat_map_concat_map. f_equal.
  apply List.map_ext_in. intros i Hi. apply in_seq in Hi.
  replace (S (List.length l) - 1 - S i) with (List.length l - 1 - i) by lia.
  rewrite lookup_app_l by lia. reflexivity.
Qed.

Lemma assign_length (list : Paths) dst src :
  List.length (assign list dst src) = List.length list.
Proof.
  unfold assign. destruct (list !! src); [apply length_insert | reflexivity].
Qed.

Lemma drop_assign (list : Paths) dst src k :
  dst < k -> drop k (assign list dst src) = drop k list.
Proof.
  intros H. unfold assign. destruct (list !! src); [| reflexivity].
  now apply drop_insert_lt.
Qed.

Lemma firstUniqueLoop_rest (n : nat) :
  forall (list : Paths) (i k : nat),
    k <= snd (firstUniqueLoop list i k n) /\
    List.length (fst (firstUniqueLoop list i k n)) = List.length list /\
    drop (snd (firstUniqueLoop list i k n)) (fst (firstUniqueLoop list i k n)) =
      drop (snd (firstUniqueLoop list i k n)) list.
Proof.
  induction n as [|n IH]; intros list i k; cbn [firstUniqueLoop].
  - cbn [fst snd]. auto.
  - destruct (firstUniqueSeen list i 0 k); [apply IH |].
    destruct (IH (assign list k i) (S i) (S k)) as (H1 & H2 & H3).
    split; [lia |]. split; [now rewrite H2, assign_length |].
    rewrite H3. apply drop_assign. lia.
Qed.

Lemma lastUniqueInner_length (jp : nat) :
  forall (list : Paths) (i totalSkip skip : nat),
    List.length (fst (lastUniqueInner list i totalSkip jp skip)) =
    List.length list.
Proof.
  induction jp as [|j IH]; intros list i totalSkip skip;
    cbn [lastUniqueInner]; [reflexivity |].
  destruct (Nat.ltb j totalSkip); [reflexivity |].
  destruct (decide (list !! i = list !! j)); [apply IH |].
  now rewrite IH, assign_length.
Qed.

Lemma lastUniqueLoop_length (ip : nat) :
  forall (list : Paths) (totalSkip : nat),
    List.length (fst (lastUniqueLoop list ip totalSkip)) = List.length list.
Proof.
  induction ip as [|i IH]; intros list totalSkip;
    cbn [lastUniqueLoop]; [reflexivity |].
  destruct (Nat.ltb i totalSkip); [reflexivity |].
  pose proof (lastUniqueInner_length i list i totalSkip 0) as HL.
  destruct (lastUniqueInner list i totalSkip i 0) as [list' skip].
  cbn [fst] in HL. now rewrite IH.
Qed.

Lemma indexPathListFrom_spec (s : Path) (list : Paths) (z : Z) :
  ((s ∉ list) /\ indexPathListFrom s list z = (-1)%Z) \/
  (exists i, list !! i = Some s /\ (s ∉ take i list) /\
             indexPathListFrom s list z = (z + Z.of_nat i)%Z).
Proof.
  revert z; induction list as [|l rest IH]; intros z; cbn [indexPathListFrom].
  - left. split; [apply not_elem_of_nil | reflexivity].
  - destruct (decide (l = s)) as [->|Hne].
    + right. exists 0. cbn [take]. split; [reflexivity |].
      split; [apply not_elem_of_nil | lia].
    + destruct (IH (z + 1)%Z) as [[Hn E] | (i & Hi & Hn & E)].
      * left. split; [| exact E].
        rewrite elem_of_cons. intros [H|H]; [congruence | contradiction].
      * right. exists (S i). split; [exact Hi |]. split; [| lia].
        cbn [take]. rewrite elem_of_cons. intros [H|H]; [congruence | contradiction].
Qed.

Lemma inPathList_elem (s : Path) (list : Paths) :
  inPathList s list = true <-> s ∈ list.
Proof.
  unfold inPathList, indexPathList.
  destruct (indexPathListFrom_spec s list 0) as [[Hn E] | (i & Hi & _ & E)];
    rewrite E.
  - split; [discriminate | intros H; contradiction].
  - split; [intros _; now apply (list_elem_of_lookup_2 _ i) |].
    intros _. apply negb_true_iff, Z.eqb_neq. lia.
Qed.

Lemma fold_left_select {A} (P : A -> bool) (l acc : list A) :
  fold_left (fun ret q => if P q then ret ++ [q] else ret) l acc =
  acc ++ List.filter P l.
Proof.
  revert acc; induction l as [|x l IH]; intros acc; cbn [fold_left List.filter].
  - now rewrite app_nil_r.
  - rewrite IH. destruct (P x); [now rewrite <- app_assoc | reflexivity].
Qed.

Lemma List_filter_stdpp {A} (P : A -> Prop) `{forall x, Decision (P x)}
  (f : A -> bool) (l : list A) :
  (forall x, f x = true <-> P x) -> List.filter f l = filter P l.
Proof.
  intros Hf. induction l as [|x l IH]; [reflexivity |].
  cbn [List.filter]. rewrite filter_cons, IH.
  destruct (decide (P x)) as [HP|HP].
  - apply Hf in HP. now rewrite HP.
  - destruct (f x) eqn:E; [apply Hf in E; contradiction | reflexivity].
Qed.

End PathListFacts.

Module PathListProps.
Import GoStrings filepath android PathVocabulary UniqueFacts Examples
  PathListFacts.

Lemma rev_reverse {A} (l : list A) : rev l = reverse l.
Proof. unfold reverse. apply rev_alt. Qed.

(** X10. [ReversePaths] undoes itself and reads entry [i] of its result
    from entry [len-1-i] of the list; [LastUniquePaths] is
    [FirstUniquePaths] between two reversals, and the other way round;
    the two keep the same paths, in a different order at most. *)
Theorem reverse_and_unique_paths (list : Paths) :
  ReversePaths (ReversePaths list) = list /\
  List.length (ReversePaths list) = List.length list /\
  (forall i, i < List.length list ->
     ReversePaths list !! i = list !! (List.length list - 1 - i)) /\
  LastUniquePaths list = ReversePaths (FirstUniquePaths (ReversePaths list)) /\
  FirstUniquePaths list = ReversePaths (LastUniquePaths (ReversePaths list)) /\
  FirstUniquePaths list ≡ₚ LastUniquePaths list.
Proof.
  rewrite !ReversePaths_rev, !LastUniquePaths_keepLast, !FirstUniquePaths_keepFirst.
  split; [apply rev_involutive |].
  split; [apply length_rev |].
  split.
  { intros i Hi. unfold Paths in *.
    rewrite rev_reverse, reverse_lookup by exact Hi.
    f_equal. unfold Paths in *. lia. }
  split; [unfold keepLast; now rewrite !rev_reverse |].
  split; [unfold keepLast; now rewrite !rev_reverse, !reverse_involutive |].
  apply NoDup_Permutation; [apply keepFirst_NoDup | apply keepLast_NoDup |].
  intros x. now rewrite keepFirst_elem, keepLast_elem.
Qed.

(** X11. [FirstUniquePaths] and [LastUniquePaths] work in place: once
    [FirstUniquePaths] has returned, the slice it was given starts with
    the result and is unchanged behind it; once [LastUniquePaths] has
    returned, the slice has its length of before and ends with the
    result.  A list without duplicates is returned whole and left as it
    was. *)
Theorem unique_paths_in_place (list : Paths) :
  FirstUniquePaths_after list =
    FirstUniquePaths list ++ drop (List.length (FirstUniquePaths list)) list /\
  List.length (LastUniquePaths_after list) = List.length list /\
  drop (List.length list - List.length (LastUniquePaths list))
    (LastUniquePaths_after list) = LastUniquePaths list /\
  (NoDup list ->
   FirstUniquePaths list = list /\ FirstUniquePaths_after list = list /\
   LastUniquePaths list = list /\ LastUniquePaths_after list = list).
Proof.
  assert (HF : FirstUniquePaths_after list =
               FirstUniquePaths list ++
               drop (List.length (FirstUniquePaths list)) list).
  { rewrite FirstUniquePaths_keepFirst. unfold FirstUniquePaths_after.
    destruct (firstUniqueLoop_spec list [] []) as [G' E].
    destruct (firstUniqueLoop_rest (List.length list) list 0 0) as (_ & _ & HD).
    cbn [app List.length Nat.add] in E. fold (keepFirst list) in E.
    unfold Paths in *. rewrite E in *. cbn [fst snd] in *.
    rewrite drop_app_length in HD. now rewrite HD. }
  assert (HL : exists G', LastUniquePaths_after list = G' ++ LastUniquePaths list /\
               List.length (LastUniquePaths_after list) = List.length list).
  { rewrite LastUniquePaths_keepLast. unfold LastUniquePaths_after.
    destruct (lastUniqueLoop_spec (List.length list) list [] []
                (List.length list) 0) as [G' E]; [lia | reflexivity | reflexivity |].
    pose proof (lastUniqueLoop_length (List.length list) list 0) as HLen.
    cbn [app] in E. rewrite app_nil_r in E.
    unfold Paths in *. rewrite E in *. cbn [fst] in *.
    exists G'. split; [rewrite app_nil_r; reflexivity | exact HLen]. }
  destruct HL as (G' & HL & HLen).
  split; [exact HF |]. split; [exact HLen |].
  split.
  { rewrite HL. rewrite HL, length_app in HLen.
    replace (List.length list - List.length (LastUniquePaths list))
      with (List.length G') by (unfold Paths in *; lia).
    apply drop_app_length. }
  intros HN.
  assert (E1 : FirstUniquePaths list = list)
    by (rewrite FirstUniquePaths_keepFirst; now apply keepFirst_id).
  assert (E2 : LastUniquePaths list = list).
  { rewrite LastUniquePaths_keepLast. unfold keepLast.
    rewrite keepFirst_id by (now rewrite reverse_Permutation).
    apply reverse_involutive. }
  split; [exact E1 |]. split.
  { rewrite HF, E1. unfold Paths in *. now rewrite drop_all, app_nil_r. }
  split; [exact E2 |].
  rewrite HL, E2 in *. rewrite length_app in HLen.
  destruct G'; [reflexivity | cbn [List.length] in HLen; unfold Paths in *; lia].
Qed.

Lemma unique_paths_in_place_witness :
  FirstUniquePaths (map testingPath ["a"; "b"; "c"]) =
    map testingPath ["a"; "b"; "c"] /\
  FirstUniquePaths_after (map testingPath ["a"; "b"; "c"]) =
    map testingPath ["a"; "b"; "c"] /\
  LastUniquePaths (map testingPath ["a"; "b"; "c"]) =
    map testingPath ["a"; "b"; "c"] /\
  LastUniquePaths_after (map testingPath ["a"; "b"; "c"]) =
    map testingPath ["a"; "b"; "c"].
Proof.
  apply (unique_paths_in_place (map testingPath ["a"; "b"; "c"])).
  apply (bool_decide_unpack _). vm_compute. reflexivity.
Defined.

(** X12. [indexPathList] returns [-1] exactly when the path is not in
    the list; otherwise it returns the index of the first entry equal
    to the path, which lies inside the list.  [inPathList] tells
    whether the path is in the list. *)
Theorem indexPathList_first_index (s : Path) (list : Paths) :
  (indexPathList s list = (-1)%Z <-> (s ∉ list)) /\
  (forall i : nat,
     indexPathList s list = Z.of_nat i <->
     list !! i = Some s /\ (s ∉ take i list)) /\
  (-1 <= indexPathList s list < Z.of_nat (List.length list))%Z /\
  (inPathList s list = true <-> s ∈ list).
Proof.
  unfold indexPathList.
  destruct (indexPathListFrom_spec s list 0) as [[Hn E] | (i & Hi & Hn & E)];
    rewrite E.
  - split; [tauto |]. split.
    + intros j. split; [lia |]. intros [Hj _]. exfalso. apply Hn.
      now apply (list_elem_of_lookup_2 _ j).
    + split; [lia | apply inPathList_elem].
  - assert (Hin : s ∈ list) by now apply (list_elem_of_lookup_2 _ i).
    split; [split; [lia | intros H; contradiction] |].
    split.
    + intros j. split.
      * intros Hj. assert (j = i) by lia. subst j. now split.
      * intros [Hj Hnj]. f_equal.
        destruct (Nat.lt_trichotomy i j) as [Hlt | [-> | Hlt]]; [| reflexivity |].
        -- exfalso. apply Hnj. apply elem_of_take. now exists i.
        -- exfalso. apply Hn. apply elem_of_take. now exists j.
    + split; [| apply inPathList_elem].
      apply lookup_lt_Some in Hi. unfold Paths in *. lia.
Qed.

(** X13. [FilterPathList] splits the list, in its order, into the paths
    that are not in the filter and the paths that are; nothing is lost
    or added. *)
Theorem FilterPathList_partition (list flt : Paths) :
  FilterPathList list flt =
    (filter (fun l => l ∉ flt) list, filter (fun l => l ∈ flt) list) /\
  fst (FilterPathList list flt) ++ snd (FilterPathList list flt) ≡ₚ list.
Proof.
  assert (E : forall r f,
            fold_left
              (fun '(remainder, filtered) l =>
                 if inPathList l flt then (remainder, filtered ++ [l])
                 else (remainder ++ [l], filtered))
              list (r, f) =
            (r ++ filter (fun l => l ∉ flt) list,
             f ++ filter (fun l => l ∈ flt) list)).
  { unfold Paths in *.
    induction list as [|x l IH]; intros r f; cbn [fold_left].
    - now rewrite !app_nil_r.
    - rewrite !filter_cons.
      pose proof (inPathList_elem x flt) as Hx.
      destruct (inPathList x flt); rewrite IH;
        destruct (decide (x ∉ flt)) as [H1|H1];
        destruct (decide (x ∈ flt)) as [H2|H2];
        try (exfalso; intuition congruence);
        now rewrite <- app_assoc. }
  unfold FilterPathList. rewrite E. cbn [app fst snd].
  split; [reflexivity |].
  rewrite Permutation_app_comm. apply filter_app_complement.
Qed.

(** X14. [FilterByExt] keeps, in their order, the paths whose extension
    is [ext], and [FilterOutByExt] the others, so that the two together
    hold every path of the list once; [HasExt] tells whether
    [FilterByExt] finds a path, and without one [FilterOutByExt] returns
    the whole list. *)
Theorem ext_filters_partition (p : Paths) (ext : string) :
  Paths_FilterByExt p ext = filter (fun q => Path_Ext q = ext) p /\
  Paths_FilterOutByExt p ext = filter (fun q => Path_Ext q <> ext) p /\
  Paths_FilterByExt p ext ++ Paths_FilterOutByExt p ext ≡ₚ p /\
  (Paths_HasExt p ext = true <-> Paths_FilterByExt p ext <> []) /\
  (Paths_HasExt p ext = false <-> Paths_FilterOutByExt p ext = p).
Proof.
  assert (E1 : Paths_FilterByExt p ext = filter (fun q => Path_Ext q = ext) p).
  { unfold Paths_FilterByExt.
    rewrite (fold_left_select (fun q => String.eqb (Path_Ext q) ext)).
    cbn [app]. apply List_filter_stdpp. intros x. apply String.eqb_eq. }
  assert (E2 : Paths_FilterOutByExt p ext =
               filter (fun q => Path_Ext q <> ext) p).
  { unfold Paths_FilterOutByExt.
    rewrite (fold_left_select (fun q => negb (String.eqb (Path_Ext q) ext))).
    cbn [app]. apply List_filter_stdpp. intros x.
    rewrite negb_true_iff. apply String.eqb_neq. }
  split; [exact E1 |]. split; [exact E2 |].
  rewrite E1, E2. split; [apply filter_app_complement |].
  clear E1 E2. unfold Paths in *.
  induction p as [|q rest IH]; cbn [Paths_HasExt].
  - split; split; try discriminate; try reflexivity. intros H. now elim H.
  - rewrite !filter_cons. destruct (String.eqb_spec (Path_Ext q) ext) as [Hq|Hq];
      destruct (decide (Path_Ext q = ext)) as [H1|H1];
      destruct (decide (Path_Ext q <> ext)) as [H2|H2];
      try (exfalso; intuition congruence).
    + split; [split; [discriminate | reflexivity] |].
      split; [discriminate |]. intros H. exfalso.
      pose proof (length_filter (fun q0 : Path => Path_Ext q0 <> ext) rest) as HL.
      rewrite H in HL. cbn [List.length] in HL. lia.
    + destruct IH as [IH1 IH2]. split; [exact IH1 |].
      rewrite IH2. split; [intros H; now rewrite H | intros H; congruence].
Qed.

End PathListProps.

(** ** Source paths and the file system *)

Module SourcePathProps.
Import GoStrings filepath android PathVocabulary Examples ModulePathFacts
  DerivedPathProps.

Ltac run_source_function ctx :=
  unfold bind, reportIfError, reportPathError, reportPathErrorf,
    existsWithDependencies, GlobWithDeps, AddNinjaFileDeps,
    AddMissingDependencies, ModuleErrorf, ctxErrorf, skip, ret, panic;
  repeat match goal with
         | H : ?b = _ |- context [if ?b then _ else _] => rewrite H
         | H : ?b = _ |- context [match ?b with _ => _ end] => rewrite H
         end.

Ltac same_or_extended :=
  cbn [moduleErrors errors ninjaFileDeps globs missingDeps builds];
  rewrite ?app_nil_r; reflexivity.

(** X15. In a module context of a build that allows missing
    dependencies, for an accepted source path without glob characters
    whose glob succeeds: [PathForSource] returns the path and reports no
    error; when no file is found, the path is recorded as a missing
    dependency of the module, and nothing is recorded otherwise. *)
Theorem missing_source_becomes_missing_dependency
  (ctx : Context) (pathComponents : list string) (e : Effects)
  (p : SourcePath) (files deps : list string) :
  asModuleContext ctx = true ->
  AllowMissingDependencies (config ctx) = true ->
  pathForSource ctx pathComponents = (p, None) ->
  pathtools.IsGlob (SourcePath_String p) = false ->
  Glob ctx (SourcePath_String p) = (files, deps, None) ->
  exists e',
    PathForSource ctx pathComponents e = Returned p e' /\
    moduleErrors e' = moduleErrors e /\ errors e' = errors e /\
    missingDeps e' =
      missingDeps e ++ match files with
                       | [] => [SourcePath_String p]
                       | _ => []
                       end.
Proof.
  intros HM HA HP HG HF. unfold PathForSource. rewrite HP, HG, HM, HA.
  cbn [andb]. run_source_function ctx.
  destruct (asPathGlobContext ctx); destruct files; cbn;
    eexists; (split; [reflexivity |]); repeat split; same_or_extended.
Qed.

Lemma missing_source_becomes_missing_dependency_witness :
  exists e',
    PathForSource (lenientContext "art" "libart" "android_arm64")
      ["art"; "missing.cc"] noEffects =
      Returned {| sourceBase := {| path := "art/missing.cc";
                                   bpConfig := lenientConfig; rel := "" |} |} e' /\
    moduleErrors e' = [] /\ errors e' = [] /\
    missingDeps e' = ["art/missing.cc"].
Proof.
  exact (missing_source_becomes_missing_dependency
           (lenientContext "art" "libart" "android_arm64")
           ["art"; "missing.cc"] noEffects
           {| sourceBase := {| path := "art/missing.cc";
                               bpConfig := lenientConfig; rel := "" |} |}
           [] ["art/missing.cc"] eq_refl eq_refl eq_refl eq_refl eq_refl).
Defined.

(** X16. Outside such a build, in a context with [ModuleErrorf], for an
    accepted source path without glob characters whose file-system
    lookup succeeds: [PathForSource] returns the path; when the file
    does not exist, exactly the error that the source path does not
    exist is reported against the module; no dependency of any kind is
    recorded. *)
Theorem missing_source_is_an_error
  (ctx : Context) (pathComponents : list string) (e : Effects)
  (p : SourcePath) (ex : bool) :
  asModuleContext ctx && AllowMissingDependencies (config ctx) = false ->
  asModuleErrorf ctx = true ->
  pathForSource ctx pathComponents = (p, None) ->
  pathtools.IsGlob (SourcePath_String p) = false ->
  FsExists ctx (SourcePath_String p) = (ex, None) ->
  exists e',
    PathForSource ctx pathComponents e = Returned p e' /\
    moduleErrors e' =
      moduleErrors e ++
      (if ex then []
       else [Errorf "source path %q does not exist" [SourcePath_String p]]) /\
    errors e' = errors e /\ missingDeps e' = missingDeps e /\
    globs e' = globs e /\ ninjaFileDeps e' = ninjaFileDeps e.
Proof.
  intros HA HM HP HG HF. unfold PathForSource. rewrite HP, HG, HA, HF.
  run_source_function ctx.
  destruct ex; cbn; eexists; (split; [reflexivity |]);
    repeat split; same_or_extended.
Qed.

Lemma missing_source_is_an_error_witness :
  exists e',
    PathForSource (moduleContext "art" "libart" "android_arm64")
      ["art"; "missing.cc"] noEffects = Returned (sourcePath "art/missing.cc") e' /\
    moduleErrors e' =
      [] ++ [Errorf "source path %q does not exist" ["art/missing.cc"]] /\
    errors e' = [] /\ missingDeps e' = [] /\ globs e' = [] /\
    ninjaFileDeps e' = [].
Proof.
  exact (missing_source_is_an_error
           (moduleContext "art" "libart" "android_arm64")
           ["art"; "missing.cc"] noEffects (sourcePath "art/missing.cc")
           false eq_refl eq_refl eq_refl eq_refl eq_refl).
Defined.

Lemma pathForSource_fst ctx comps :
  fst (pathForSource ctx comps) =
  {| sourceBase := {| path := fst (validatePath comps); bpConfig := config ctx;
                      rel := "" |} |}.
Proof.
  unfold pathForSource. destruct (validatePath comps) as [p [err|]];
    [reflexivity |].
  cbn [fst]. match goal with |- context [if ?b then _ else _] => destruct b end;
    reflexivity.
Qed.

Lemma PathForSource_returns ctx comps e :
  canReport ctx = true ->
  exists e', PathForSource ctx comps e = Returned (fst (pathForSource ctx comps)) e'.
Proof.
  unfold canReport, PathForSource. intros HR.
  destruct (pathForSource ctx comps) as [p err]. cbn [fst].
  run_source_function ctx.
  destruct (asModuleErrorf ctx); [| destruct (asErrorfContext ctx);
                                    [| discriminate]];
    destruct err;
    destruct (pathtools.IsGlob (SourcePath_String p));
    destruct (asModuleContext ctx && AllowMissingDependencies (config ctx));
    destruct (asPathGlobContext ctx);
    destruct (Glob ctx (SourcePath_String p)) as [[[|? ?] ?] [?|]];
    destruct (FsExists ctx (SourcePath_String p)) as [[] [?|]];
    cbn -[String.append]; eexists; reflexivity.
Qed.

Lemma ExistentPathForSource_returns ctx p e :
  canReport ctx = true ->
  exists e',
    ExistentPathForSource ctx [p] e =
    Returned (if found ctx p
              then {| valid := true; optPath := Some (PathSource (sourceOf ctx p)) |}
              else emptyOptionalPath) e'.
Proof.
  unfold canReport, ExistentPathForSource, found, sourceOf. intros HR.
  destruct (pathForSource ctx [p]) as [sp err]. cbn [fst].
  run_source_function ctx.
  destruct (asModuleErrorf ctx); [| destruct (asErrorfContext ctx);
                                    [| discriminate]];
    destruct err;
    destruct (pathtools.IsGlob (SourcePath_String sp));
    destruct (asPathGlobContext ctx);
    destruct (Glob ctx (SourcePath_String sp)) as [[[|? ?] ?] [?|]];
    cbn -[String.append]; eexists; reflexivity.
Qed.

Lemma PathForModuleSrc_returns ctx paths e :
  canReport ctx = true ->
  exists r e', PathForModuleSrc ctx paths e = Returned r e'.
Proof.
  unfold canReport, PathForModuleSrc. intros HR.
  destruct (validatePath paths) as [p err].
  destruct (pathForSource ctx [ModuleDir ctx; p]) as [sp err'].
  run_source_function ctx.
  cbn [path bpConfig sourceBase moduleSrcSource].
  destruct (asModuleErrorf ctx); [| destruct (asErrorfContext ctx);
                                    [| discriminate]];
    destruct err; destruct err';
    destruct (pathtools.IsGlob (SourcePath_String sp));
    match goal with
    | |- context [FsExists ctx ?s] => destruct (FsExists ctx s) as [[] [?|]]
    end;
    cbn -[String.append]; do 2 eexists; reflexivity.
Qed.

(** X17. In a context that can report errors,
    [OptionalPathForModuleSrc] returns a valid [OptionalPath] exactly
    when it is given a string, whether the file exists or not; without
    a string it reports nothing. *)
Theorem optional_module_source_valid_iff_given
  (ctx : Context) (p : option string) (e : Effects) :
  canReport ctx = true ->
  exists r e',
    OptionalPathForModuleSrc ctx p e = Returned r e' /\
    OptionalPath_Valid r = isSome p /\
    (p = None -> e' = e).
Proof.
  intros HR. destruct p as [s|]; cbn [OptionalPathForModuleSrc].
  - unfold bind. destruct (PathForModuleSrc_returns ctx [s] e HR) as (r & e' & ->).
    do 2 eexists. split; [reflexivity |]. split; [reflexivity | discriminate].
  - do 2 eexists. split; [reflexivity |]. split; reflexivity.
Qed.

Lemma optional_module_source_valid_iff_given_witness :
  exists r e',
    OptionalPathForModuleSrc (moduleContext "art" "libart" "android_arm64")
      (Some "missing.cc") noEffects = Returned r e' /\
    OptionalPath_Valid r = true /\
    (Some "missing.cc" = None -> e' = noEffects).
Proof.
  apply (optional_module_source_valid_iff_given
           (moduleContext "art" "libart" "android_arm64") (Some "missing.cc")
           noEffects). reflexivity.
Defined.

(** X18. In a context that can report errors, [PathsForSource] returns
    one source path for each string, in the order of the strings and
    holding the validated string, whether the files exist or not. *)
Theorem PathsForSource_one_path_each
  (ctx : Context) (paths : list string) (e : Effects) :
  canReport ctx = true ->
  exists e',
    PathsForSource ctx paths e =
    Returned
      (map (fun p =>
              PathSource
                {| sourceBase := {| path := fst (validatePath [p]);
                                    bpConfig := config ctx; rel := "" |} |})
         paths) e'.
Proof.
  intros HR. revert e. induction paths as [|p rest IH]; intros e.
  - exists e. reflexivity.
  - cbn [PathsForSource map]. unfold bind.
    destruct (PathForSource_returns ctx [p] e HR) as [e1 ->].
    destruct (IH e1) as [e2 ->]. exists e2.
    now rewrite pathForSource_fst.
Qed.

Lemma PathsForSource_one_path_each_witness :
  exists e',
    PathsForSource (moduleContext "art" "libart" "android_arm64")
      ["Android.bp"; "../x"; "missing.cc"] noEffects =
    Returned
      (map (fun p =>
              PathSource
                {| sourceBase :=
                     {| path := fst (validatePath [p]);
                        bpConfig :=
                          config (moduleContext "art" "libart" "android_arm64");
                        rel := "" |} |})
         ["Android.bp"; "../x"; "missing.cc"]) e'.
Proof.
  apply (PathsForSource_one_path_each
           (moduleContext "art" "libart" "android_arm64")
           ["Android.bp"; "../x"; "missing.cc"] noEffects). reflexivity.
Defined.

(** X19. In a context that can report errors, [ExistentPathsForSources]
    returns, in the order of the strings, the source paths of exactly
    the strings that are accepted, hold no glob character and are found
    by the glob; the others are left out. *)
Theorem ExistentPathsForSources_keeps_the_found
  (ctx : Context) (paths : list string) (e : Effects) :
  canReport ctx = true ->
  exists e',
    ExistentPathsForSources ctx paths e =
    Returned
      (map (fun p =>
              PathSource
                {| sourceBase := {| path := fst (validatePath [p]);
                                    bpConfig := config ctx; rel := "" |} |})
         (List.filter (found ctx) paths)) e'.
Proof.
  intros HR. revert e. induction paths as [|p rest IH]; intros e.
  - exists e. reflexivity.
  - cbn [ExistentPathsForSources List.filter]. unfold bind.
    destruct (ExistentPathForSource_returns ctx p e HR) as [e1 ->].
    unfold OptionalPath_Path.
    destruct (found ctx p);
      cbn [OptionalPath_Valid valid emptyOptionalPath optPath negb];
      unfold ret.
    + destruct (IH e1) as [e2 ->]. exists e2. cbn [map].
      unfold sourceOf. now rewrite pathForSource_fst.
    + destruct (IH e1) as [e2 ->]. exists e2. reflexivity.
Qed.

Lemma ExistentPathsForSources_keeps_the_found_witness :
  exists e',
    ExistentPathsForSources (moduleContext "art" "libart" "android_arm64")
      ["missing.cc"; "Android.bp"; "../x"] noEffects =
    Returned
      (map (fun p =>
              PathSource
                {| sourceBase :=
                     {| path := fst (validatePath [p]);
                        bpConfig :=
                          config (moduleContext "art" "libart" "android_arm64");
                        rel := "" |} |})
         (List.filter (found (moduleContext "art" "libart" "android_arm64"))
            ["missing.cc"; "Android.bp"; "../x"])) e'.
Proof.
  apply (ExistentPathsForSources_keeps_the_found
           (moduleContext "art" "libart" "android_arm64")
           ["missing.cc"; "Android.bp"; "../x"] noEffects). reflexivity.
Defined.

End SourcePathProps.

(** ** Base names, extensions and key names *)

Module BaseNameProps.
Import GoStrings filepath android apex PathVocabulary StringFacts ByteFacts.

Lemma lastElemScan_suffix revPath suffix :
  exists pre, lastElemScan revPath suffix = pre +:+ suffix /\
              hasByte slash pre = false.
Proof.
  revert suffix; induction revPath as [|c rest IH]; intros suffix;
    cbn [lastElemScan].
  - now exists "".
  - destruct (Ascii.eqb c slash) eqn:Ec; [now exists "" |].
    destruct (IH (String c suffix)) as (pre & E & Hp).
    exists (pre +:+ String c ""). split.
    + rewrite E, sapp_assoc. reflexivity.
    + rewrite hasByte_app, Hp. cbn [hasByte orb]. now rewrite Ec.
Qed.

Lemma scan_ext revPath suffix :
  exists pre, lastElemScan revPath suffix = pre +:+ extScan revPath suffix.
Proof.
  revert suffix; induction revPath as [|c rest IH]; intros suffix;
    cbn [lastElemScan extScan].
  - exists suffix. now rewrite sapp_nil_r.
  - destruct (Ascii.eqb c slash); [exists suffix; now rewrite sapp_nil_r |].
    destruct (Ascii.eqb c "."%char); [| apply IH].
    destruct (lastElemScan_suffix rest (String c suffix)) as (pre & E & _).
    now exists pre.
Qed.

Lemma extScan_shape revPath suffix :
  hasByte "."%char suffix = false -> hasByte slash suffix = false ->
  extScan revPath suffix = "" \/
  exists rest, extScan revPath suffix = String "."%char rest /\
               hasByte "."%char rest = false /\ hasByte slash rest = false.
Proof.
  revert suffix; induction revPath as [|c rest IH]; intros suffix Hd Hs;
    cbn [extScan]; [now left |].
  destruct (Ascii.eqb c slash) eqn:Ec; [now left |].
  destruct (Ascii.eqb_spec c "."%char) as [->|Hne].
  - right. now exists suffix.
  - apply IH; cbn [hasByte].
    + rewrite Hd. apply Ascii.eqb_neq in Hne. now rewrite Hne.
    + rewrite Hs. now rewrite Ec.
Qed.

Lemma Base_Ext (path : string) :
  exists name, Base path = name +:+ Ext path.
Proof.
  unfold Base, Ext. destruct path as [|a path']; [now exists "." |].
  set (r := rev (list_ascii_of_string (String a path'))).
  destruct r as [|c rest] eqn:Er.
  - exists "/". reflexivity.
  - cbn [stripSlashes extScan]. destruct (Ascii.eqb c slash) eqn:Ec.
    + eexists. now rewrite sapp_nil_r.
    + destruct (scan_ext (c :: rest) "") as [pre E].
      cbn [extScan] in E. rewrite Ec in E.
      destruct (lastElemScan_suffix rest (String c "")) as (pre' & E' & _).
      assert (N : lastElemScan (c :: rest) "" <> "").
      { cbn [lastElemScan]. rewrite Ec, E'. now destruct pre'. }
      destruct (lastElemScan (c :: rest) "") eqn:EL; [now elim N |].
      exists pre. exact E.
Qed.

Lemma length_of_sapp (a b : string) :
  String.length (a +:+ b) = String.length a + String.length b.
Proof.
  induction a as [|c a IH]; [reflexivity |].
  rewrite sapp_cons. cbn [String.length]. now rewrite IH.
Qed.

Lemma substring_sapp (a b : string) :
  substring 0 (String.length a) (a +:+ b) = a.
Proof.
  induction a as [|c a IH]; [now destruct b |].
  rewrite sapp_cons. cbn [String.length substring]. now rewrite IH.
Qed.

(** X20. For every path, the base name ends with the extension, so that
    the slice expression by which [apexKey.GenerateAndroidBuildActions]
    takes the key name from a key file stays in range: the key name is
    the base name without the extension.  The extension is empty, or a
    dot followed by bytes that are neither dots nor separators. *)
Theorem key_name_is_base_without_extension (file : Path) :
  exists name,
    keyName file = Some name /\
    Path_Base file = name +:+ Path_Ext file /\
    (Path_Ext file = "" \/
     exists rest, Path_Ext file = String "."%char rest /\
                  hasByte "."%char rest = false /\
                  hasByte slash rest = false).
Proof.
  unfold keyName, Path_Base, Path_Ext, basePath_Base, basePath_Ext.
  destruct (Base_Ext (path (Path_basePath file))) as [name E].
  exists name. split; [| split; [exact E |]].
  - unfold sliceTo. rewrite E, !length_of_sapp.
    replace (Z.of_nat (String.length name + String.length (Ext (path (Path_basePath file)))) -
             Z.of_nat (String.length (Ext (path (Path_basePath file)))))%Z
      with (Z.of_nat (String.length name)) by lia.
    rewrite Nat2Z.id, substring_sapp.
    rewrite (proj2 (Z.leb_le _ _)) by lia.
    rewrite (proj2 (Z.leb_le _ _)) by lia.
    reflexivity.
  - unfold Ext. now apply extScan_shape.
Qed.

End BaseNameProps.

(** ** Paths in a directory *)

Module DirectoryFacts.
Import GoStrings filepath android PathVocabulary StringFacts.

Lemma nat_of_ascii_eqb (c d : ascii) :
  Ascii.eqb c d = Nat.eqb (nat_of_ascii c) (nat_of_ascii d).
Proof.
  destruct (Ascii.eqb_spec c d) as [->|Hne].
  - now rewrite Nat.eqb_refl.
  - symmetry. apply Nat.eqb_neq. intros H. apply Hne.
    rewrite <- (ascii_nat_embedding c), <- (ascii_nat_embedding d).
    now rewrite H.
Qed.

Lemma strLt_irrefl (a : string) : strLt a a = false.
Proof.
  induction a as [|c a IH]; [reflexivity |].
  cbn [strLt]. now rewrite Ascii.eqb_refl.
Qed.

(** From [a < b] and [b <= c] follows [a < c]. *)
Lemma strLt_le_trans (a b c : string) :
  strLt a b = true -> strLt c b = false -> strLt a c = true.
Proof.
  revert b c; induction a as [|x a IH]; intros [|y b] [|z c]; cbn [strLt];
    try discriminate; try reflexivity.
  rewrite !nat_of_ascii_eqb.
  destruct (Nat.eqb_spec (nat_of_ascii x) (nat_of_ascii y)) as [E1|E1];
    destruct (Nat.eqb_spec (nat_of_ascii z) (nat_of_ascii y)) as [E2|E2];
    destruct (Nat.eqb_spec (nat_of_ascii x) (nat_of_ascii z)) as [E3|E3];
    rewrite ?Nat.ltb_lt, ?Nat.ltb_ge; try lia.
  apply IH.
Qed.

(** A string that starts with the prefix and is longer comes after it. *)
Lemma strLt_prefix (p r : string) : r <> "" -> strLt p (p +:+ r) = true.
Proof.
  intros Hr. induction p as [|c p IH].
  - destruct r; [now elim Hr | reflexivity].
  - rewrite sapp_cons. cbn [strLt]. now rewrite Ascii.eqb_refl.
Qed.

(** Between the prefix and a string that starts with it, every string
    starts with it. *)
Lemma HasPrefix_between (p s t : string) :
  strLt p s = true -> strLt t s = false -> HasPrefix t p = true ->
  HasPrefix s p = true.
Proof.
  revert s t; induction p as [|c p IH]; intros s t; [reflexivity |].
  destruct s as [|d s]; [discriminate |].
  destruct t as [|x t]; [discriminate |].
  cbn [strLt HasPrefix]. rewrite !nat_of_ascii_eqb.
  destruct (Nat.eqb_spec (nat_of_ascii c) (nat_of_ascii d)) as [E1|E1];
    destruct (Nat.eqb_spec (nat_of_ascii x) (nat_of_ascii d)) as [E2|E2];
    destruct (Nat.eqb_spec (nat_of_ascii x) (nat_of_ascii c)) as [E3|E3];
    destruct (Nat.eqb_spec (nat_of_ascii d) (nat_of_ascii c)) as [E4|E4];
    rewrite ?Nat.ltb_lt, ?Nat.ltb_ge; try lia; try discriminate.
  apply IH.
Qed.

Lemma below_after (prefix s : string) :
  below prefix s = true -> strLt prefix s = true.
Proof.
  unfold below. intros H. apply andb_true_iff in H as [HP HN].
  apply HasPrefix_inv in HP as [r ->]. apply strLt_prefix. intros ->.
  rewrite sapp_nil_r, String.eqb_refl in HN. discriminate.
Qed.

Lemma below_of_after (prefix s : string) :
  strLt prefix s = true -> HasPrefix s prefix = true -> below prefix s = true.
Proof.
  unfold below. intros HL ->. cbn [andb]. apply negb_true_iff.
  apply String.eqb_neq. intros ->. now rewrite strLt_irrefl in HL.
Qed.

(** The binary search: for an answer [g] that, once true, stays true,
    the search returns the first index at which it is true, or [n]. *)
Lemma searchLoop_spec (f : nat -> option bool) (g : nat -> bool) (n : nat) :
  (forall k, k < n -> f k = Some (g k)) ->
  (forall k k', k <= k' -> k' < n -> g k = true -> g k' = true) ->
  forall turns i j,
    i <= j -> j <= n -> j - i <= turns ->
    (forall k, k < i -> g k = false) ->
    (forall k, j <= k -> k < n -> g k = true) ->
    exists r,
      searchLoop f turns i j = Some r /\ r <= n /\
      (forall k, k < r -> g k = false) /\
      (forall k, r <= k -> k < n -> g k = true).
Proof.
  intros Hf Hmono. induction turns as [|turns IH]; intros i j Hij Hjn Ht Hlo Hhi.
  - exists i. cbn [searchLoop]. assert (i = j) by lia. subst j. auto.
  - cbn [searchLoop]. destruct (Nat.ltb_spec i j) as [Hlt|Hge].
    + pose proof (Nat.div2_odd (i + j)) as Hh.
      assert (Hb : Nat.b2n (Nat.odd (i + j)) <= 1)
        by (destruct (Nat.odd (i + j)); cbn; lia).
      set (h := Nat.div2 (i + j)) in *.
      assert (Hih : i <= h /\ h < j) by lia.
      rewrite (Hf h) by lia. destruct (g h) eqn:Eg.
      * apply IH; try lia; [exact Hlo |].
        intros k Hk Hkn. now apply (Hmono h k).
      * apply IH; try lia; [| exact Hhi].
        intros k Hk. destruct (g k) eqn:Ek; [| reflexivity].
        rewrite (Hmono k h) in Eg; [discriminate | lia | lia | exact Ek].
    + exists i. assert (i = j) by lia. subst j. auto.
Qed.

Lemma sortSearch_spec (f : nat -> option bool) (g : nat -> bool) (n : nat) :
  (forall k, k < n -> f k = Some (g k)) ->
  (forall k k', k <= k' -> k' < n -> g k = true -> g k' = true) ->
  exists r,
    sortSearch n f = Some r /\ r <= n /\
    (forall k, k < r -> g k = false) /\
    (forall k, r <= k -> k < n -> g k = true).
Proof.
  intros Hf Hmono. unfold sortSearch.
  apply (searchLoop_spec f g n Hf Hmono); try lia; intros; lia.
Qed.

Lemma filter_all {A} (Q : A -> bool) (l : list A) :
  (forall i x, l !! i = Some x -> Q x = true) -> List.filter Q l = l.
Proof.
  induction l as [|a l IH]; intros H; [reflexivity |].
  cbn [List.filter]. rewrite (H 0 a eq_refl). f_equal.
  apply IH. intros i x Hx. exact (H (S i) x Hx).
Qed.

Lemma filter_none {A} (Q : A -> bool) (l : list A) :
  (forall i x, l !! i = Some x -> Q x = false) -> List.filter Q l = [].
Proof.
  induction l as [|a l IH]; intros H; [reflexivity |].
  cbn [List.filter]. rewrite (H 0 a eq_refl).
  apply IH. intros i x Hx. exact (H (S i) x Hx).
Qed.

Lemma sortedCheck_sound (p : Paths) : sortedCheck p = true -> sortedByString p.
Proof.
  unfold sortedByString, Paths.
  induction p as [|q rest IH]; intros H i j qi qj Hij Hi Hj; [discriminate |].
  cbn [sortedCheck] in H. apply andb_true_iff in H as [H1 H2].
  destruct i as [|i]; destruct j as [|j]; cbn in Hi, Hj; try lia.
  - injection Hi as <-. injection Hj as <-. apply strLt_irrefl.
  - injection Hi as <-. rewrite forallb_forall in H1.
    apply negb_true_iff, H1. apply list_elem_of_In.
    now apply (list_elem_of_lookup_2 _ j).
  - apply (IH H2 i j); [lia | exact Hi | exact Hj].
Qed.

End DirectoryFacts.

Module DirectoryProps.
Import GoStrings filepath android PathVocabulary Examples DirectoryFacts.

(** X21. On paths that are in the order of their strings,
    [PathsInDirectory] does not step outside the slice, and returns, in
    their order, exactly the paths whose string starts with the cleaned
    directory followed by a separator and is longer than that. *)
Theorem PathsInDirectory_finds_the_directory (p : Paths) (dir : string) :
  sortedByString p ->
  PathsInDirectory p dir =
  Some (List.filter (fun q => below (Clean dir +:+ "/") (Path_String q)) p).
Proof.
  intros HS. unfold PathsInDirectory, Paths in *.
  set (prefix := Clean dir +:+ "/").
  set (g1 := fun i => match p !! i with
                      | Some q => strLt prefix (Path_String q)
                      | None => false
                      end).
  destruct (sortSearch_spec
              (fun i => match p !! i with
                        | Some q => Some (strLt prefix (Path_String q))
                        | None => None
                        end) g1 (List.length p))
    as (start & -> & Hstart & Hlo & Hhi).
  { intros k Hk. unfold g1.
    destruct (lookup_lt_is_Some_2 p k Hk) as [q ->]. reflexivity. }
  { intros k k' Hkk Hk'. unfold g1.
    destruct (lookup_lt_is_Some_2 p k ltac:(lia)) as [q Hq].
    destruct (lookup_lt_is_Some_2 p k' Hk') as [q' Hq'].
    rewrite Hq, Hq'. intros H.
    apply (strLt_le_trans _ _ _ H). exact (HS k k' q q' Hkk Hq Hq'). }
  set (ret := drop start p).
  set (g2 := fun i => match ret !! i with
                      | Some q => negb (HasPrefix (Path_String q) prefix)
                      | None => false
                      end).
  assert (Hafter : forall k q, ret !! k = Some q ->
                     strLt prefix (Path_String q) = true).
  { intros k q Hq. unfold ret in Hq. rewrite lookup_drop in Hq.
    pose proof (Hhi (start + k) ltac:(lia)
                  (lookup_lt_Some _ _ _ Hq)) as H.
    unfold g1 in H. now rewrite Hq in H. }
  destruct (sortSearch_spec
              (fun i => match ret !! i with
                        | Some q => Some (negb (HasPrefix (Path_String q) prefix))
                        | None => None
                        end) g2 (List.length ret))
    as (end_ & -> & Hend & Hin & Hout).
  { intros k Hk. unfold g2.
    destruct (lookup_lt_is_Some_2 ret k Hk) as [q ->]. reflexivity. }
  { intros k k' Hkk Hk'. unfold g2.
    destruct (lookup_lt_is_Some_2 ret k ltac:(lia)) as [q Hq].
    destruct (lookup_lt_is_Some_2 ret k' Hk') as [q' Hq'].
    rewrite Hq, Hq'. intros H.
    destruct (HasPrefix (Path_String q') prefix) eqn:E; [| reflexivity].
    rewrite (HasPrefix_between prefix (Path_String q) (Path_String q')) in H;
      [discriminate | now apply (Hafter k) | | exact E].
    unfold ret in Hq, Hq'. rewrite lookup_drop in Hq, Hq'.
    apply (HS (start + k) (start + k') q q'); [lia | exact Hq | exact Hq']. }
  f_equal.
  transitivity (List.filter (fun q => below prefix (Path_String q))
                  (take start p ++ take end_ ret ++ drop end_ ret));
    [| now rewrite (take_drop end_ ret); unfold ret; rewrite take_drop].
  rewrite !List.filter_app.
  rewrite (filter_none _ (take start p)), (filter_all _ (take end_ ret)),
    (filter_none _ (drop end_ ret)).
  - now rewrite app_nil_r.
  - intros i q Hq. rewrite lookup_drop in Hq.
    pose proof (Hout (end_ + i) ltac:(lia) (lookup_lt_Some _ _ _ Hq)) as H.
    unfold g2 in H. rewrite Hq in H. unfold below.
    apply negb_true_iff in H. now rewrite H.
  - intros i q Hq. apply lookup_take_Some in Hq as [Hq Hi].
    pose proof (Hin i Hi) as H. unfold g2 in H. rewrite Hq in H.
    apply negb_false_iff in H.
    apply below_of_after; [now apply (Hafter i) | exact H].
  - intros i q Hq. apply lookup_take_Some in Hq as [Hq Hi].
    pose proof (Hlo i Hi) as H. unfold g1 in H. rewrite Hq in H.
    destruct (below prefix (Path_String q)) eqn:E; [| reflexivity].
    apply below_after in E. congruence.
Qed.

Lemma PathsInDirectory_finds_the_directory_witness :
  PathsInDirectory
    (map testingPath ["a/x"; "b"; "b.c"; "b/y"; "b/z/w"; "ba"; "c"]) "b/" =
  Some (map testingPath ["b/y"; "b/z/w"]).
Proof.
  exact (PathsInDirectory_finds_the_directory
           (map testingPath ["a/x"; "b"; "b.c"; "b/y"; "b/z/w"; "ba"; "c"]) "b/"
           (sortedCheck_sound
              (map testingPath ["a/x"; "b"; "b.c"; "b/y"; "b/z/w"; "ba"; "c"])
              eq_refl)).
Defined.

End DirectoryProps.

(** ** The dexpreopt install path of an app *)

Module AppDexProps.
Import GoStrings filepath android java PathVocabulary StringFacts CleanFacts
  ValidateFacts ConstructorFacts JoinAlgebra Examples.

Lemma Join_dir_file (D D' : list string) (file : string) :
  Forall (fun c => validComp c = true) D ->
  Forall (fun c => validComp c = true) D' ->
  validComp file = true ->
  flat_map elemsOf D = flat_map elemsOf D' ->
  (Join D = "" <-> Join D' = "") ->
  Join [Join D; file] = Join (D' ++ [file]).
Proof.
  intros VD VD' Vf E Hiff. apply Join_determined.
  - repeat constructor; [now apply Join_valid_validComp | exact Vf].
  - apply Forall_app. split; [exact VD' | now repeat constructor].
  - cbn [flat_map]. rewrite flat_map_app. cbn [flat_map].
    destruct (Join_valid D VD) as [-> _]. now rewrite E.
  - rewrite !Join_eq_empty. split; intros H.
    + pose proof (Forall_inv H) as H1. cbv beta in H1.
      pose proof (Forall_inv (Forall_inv_tail H)) as H2. cbv beta in H2.
      apply Forall_app. split; [apply Join_eq_empty, Hiff, H1 |].
      now repeat constructor.
    + apply Forall_app in H as [H1 H2].
      repeat constructor; [apply Hiff, Join_eq_empty, H1 |].
      exact (Forall_inv H2).
Qed.

Lemma accepted_list (roots rest : list string) :
  snd (validatePath roots) = None -> snd (validatePath rest) = None ->
  validatePath (roots ++ rest) = (Join (roots ++ rest), None).
Proof.
  intros H1 H2. apply validatePath_None. now apply validatePath_app.
Qed.

Lemma accepted_pair (x y : string) :
  snd (validatePath [x]) = None -> snd (validatePath [y]) = None ->
  snd (validatePath [x; y]) = None.
Proof.
  intros H1 H2. change [x; y] with ([x] ++ [y]). now apply validatePath_app.
Qed.

Lemma accepted_Join (comps : list string) :
  snd (validatePath comps) = None -> snd (validatePath [Join comps]) = None.
Proof.
  intros H. pose proof (validatePath_results [comps]) as R. cbn [map] in R.
  rewrite (validatePath_None _ H) in R. cbn [fst] in R. now rewrite R.
Qed.

(** The file in the directory [d/apk] of the install root, named in two
    ways. *)
Lemma install_file_two_ways (roots : list string) (d apk file : string) :
  snd (validatePath roots) = None -> snd (validatePath [d]) = None ->
  d <> "" ->
  snd (validatePath [apk]) = None -> snd (validatePath [file]) = None ->
  Join [Join (roots ++ [d; apk]); file] =
  Join (roots ++ [Join [d; apk]; file]).
Proof.
  intros HR Hd Hne HA HF.
  pose proof (validatePath_None_valid _ HR) as VR.
  pose proof (validatePath_None_valid _ Hd) as Vd.
  pose proof (validatePath_None_valid _ HA) as VA.
  pose proof (validatePath_None_valid _ HF) as VF.
  pose proof (Forall_inv Vd) as Vd1. pose proof (Forall_inv VA) as VA1.
  pose proof (Forall_inv VF) as VF1. cbv beta in Vd1, VA1, VF1.
  assert (VJ : validComp (Join [d; apk]) = true)
    by (apply Join_valid_validComp; now repeat constructor).
  change (roots ++ [Join [d; apk]; file])
    with (roots ++ [Join [d; apk]] ++ [file]).
  rewrite app_assoc. apply Join_dir_file.
  - apply Forall_app. split; [exact VR | now repeat constructor].
  - apply Forall_app. split; [exact VR | now repeat constructor].
  - exact VF1.
  - rewrite !flat_map_app. cbn [flat_map]. rewrite !app_nil_r.
    now rewrite Join_pair_elems.
  - rewrite !Join_eq_empty. split; intros H; exfalso;
      apply Forall_app in H as [_ H]; pose proof (Forall_inv H) as H1;
      cbv beta in H1; [contradiction |].
    apply Join_eq_empty in H1. pose proof (Forall_inv H1) as H2. contradiction.
Qed.

Lemma install_file_in_dir (roots : list string) (d file : string) :
  snd (validatePath roots) = None -> snd (validatePath [d]) = None ->
  snd (validatePath [file]) = None ->
  Join [Join (roots ++ [d]); file] = Join (roots ++ [d; file]).
Proof.
  intros HR Hd HF.
  pose proof (validatePath_None_valid _ HR) as VR.
  pose proof (validatePath_None_valid _ Hd) as Vd.
  pose proof (validatePath_None_valid _ HF) as VF.
  change (roots ++ [d; file]) with (roots ++ [d] ++ [file]).
  rewrite app_assoc. apply Join_dir_file; try reflexivity.
  - apply Forall_app. now split.
  - apply Forall_app. now split.
  - exact (Forall_inv VF).
Qed.

(** X22. For an app whose install root, install name and install file
    name are accepted path components, and whose install name is its
    module name if the module is [framework-res]: whenever
    [generateAndroidBuildActions] gets as far as installing the
    package, the dexpreopt install path set by [dexBuildActions] is the
    file it installs, that is the install directory joined with the
    file name. *)
Theorem dexpreopt_path_is_the_installed_file
  (steps : AppSteps) (a : AndroidApp) (ctx : Context) (e e' : Effects)
  (dex dir : OutputPath) (name : string) :
  snd (validatePath (installOutPaths ctx)) = None ->
  snd (validatePath [OverridePackageNameFor ctx (ModuleName ctx)]) = None ->
  snd (validatePath [OverridePackageNameFor ctx (ModuleName ctx) +:+ ".apk"]) =
    None ->
  (ModuleName ctx = "framework-res" ->
   OverridePackageNameFor ctx (ModuleName ctx) = ModuleName ctx) ->
  generateAndroidBuildActions steps a ctx e =
    Returned (dex, Some (dir, name)) e' ->
  path (outputBase dex) = Join [path (outputBase dir); name].
Proof.
  intros HR HA HF HN H.
  set (apk := OverridePackageNameFor ctx (ModuleName ctx)) in *.
  unfold generateAndroidBuildActions, bind in H.
  destruct (aaptBuildActions steps e) as [[] e1|]; [| discriminate].
  destruct (proguardBuildActions steps e1) as [[] e2|]; [| discriminate].
  cbn [Privileged Installable installApkName] in H. fold apk in H.
  unfold dexBuildActions, PathForModuleInstall, bind in H.
  cbn [Privileged Installable installApkName] in H.
  assert (Hpair : forall d, snd (validatePath [d]) = None ->
            validatePath (installOutPaths ctx ++ [Join [d; apk]; apk +:+ ".apk"]) =
            (Join (installOutPaths ctx ++ [Join [d; apk]; apk +:+ ".apk"]), None)).
  { intros d Hd. apply accepted_list; [exact HR |].
    apply accepted_pair; [| exact HF].
    apply accepted_Join. now apply accepted_pair. }
  assert (Hdir : forall d, snd (validatePath [d]) = None ->
            validatePath (installOutPaths ctx ++ [d; apk]) =
            (Join (installOutPaths ctx ++ [d; apk]), None)).
  { intros d Hd. apply accepted_list; [exact HR | now apply accepted_pair]. }
  destruct (String.eqb_spec (ModuleName ctx) "framework-res") as [Hfw|Hfw].
  - specialize (HN Hfw).
    rewrite (PathForOutput_ok ctx _ _ e2
               (accepted_list _ ["framework"; apk +:+ ".apk"] HR
                  (accepted_pair "framework" (apk +:+ ".apk") eq_refl HF))) in H.
    cbn [negb skip ret] in H. unfold ret in H.
    destruct (collectAppDeps steps e2) as [[] e3'|]; [| discriminate].
    destruct (jniBuildActions steps e3') as [[] e4|]; [| discriminate].
    destruct (Failed e4) as [[] e5|]; [discriminate | | discriminate].
    destruct (certificateBuildActions steps e5) as [[] e6|]; [| discriminate].
    destruct (PathForModuleOut ctx _ e6) as [pf e7|]; [| discriminate].
    destruct (CreateAppPackage steps e7) as [[] e8|]; [| discriminate].
    destruct (PathForModuleOut ctx _ e8) as [bf e9|]; [| discriminate].
    destruct (BuildBundleModule steps e9) as [[] e10|]; [| discriminate].
    rewrite (PathForOutput_ok ctx _ _ e10
               (accepted_list _ ["framework"] HR eq_refl)) in H.
    injection H as <- <- <- _. cbn [path outputBase].
    rewrite <- HN. fold apk.
    now rewrite install_file_in_dir.
  - destruct (Bool (Privileged a)).
    + rewrite (PathForOutput_ok ctx _ _ e2 (Hpair "priv-app" eq_refl)) in H.
      cbn [negb] in H.
      destruct (compile steps e2) as [[] e3|]; [| discriminate].
      unfold ret in H.
      destruct (collectAppDeps steps e3) as [[] e3'|]; [| discriminate].
      destruct (jniBuildActions steps e3') as [[] e4|]; [| discriminate].
      destruct (Failed e4) as [[] e5|]; [discriminate | | discriminate].
      destruct (certificateBuildActions steps e5) as [[] e6|]; [| discriminate].
      destruct (PathForModuleOut ctx _ e6) as [pf e7|]; [| discriminate].
      destruct (CreateAppPackage steps e7) as [[] e8|]; [| discriminate].
      destruct (PathForModuleOut ctx _ e8) as [bf e9|]; [| discriminate].
      destruct (BuildBundleModule steps e9) as [[] e10|]; [| discriminate].
      rewrite (PathForOutput_ok ctx _ _ e10 (Hdir "priv-app" eq_refl)) in H.
      injection H as <- <- <- _. cbn [path outputBase].
      now rewrite install_file_two_ways.
    + rewrite (PathForOutput_ok ctx _ _ e2 (Hpair "app" eq_refl)) in H.
      cbn [negb] in H.
      destruct (compile steps e2) as [[] e3|]; [| discriminate].
      unfold ret in H.
      destruct (collectAppDeps steps e3) as [[] e3'|]; [| discriminate].
      destruct (jniBuildActions steps e3') as [[] e4|]; [| discriminate].
      destruct (Failed e4) as [[] e5|]; [discriminate | | discriminate].
      destruct (certificateBuildActions steps e5) as [[] e6|]; [| discriminate].
      destruct (PathForModuleOut ctx _ e6) as [pf e7|]; [| discriminate].
      destruct (CreateAppPackage steps e7) as [[] e8|]; [| discriminate].
      destruct (PathForModuleOut ctx _ e8) as [bf e9|]; [| discriminate].
      destruct (BuildBundleModule steps e9) as [[] e10|]; [| discriminate].
      rewrite (PathForOutput_ok ctx _ _ e10 (Hdir "app" eq_refl)) in H.
      injection H as <- <- <- _. cbn [path outputBase].
      now rewrite install_file_two_ways.
Qed.

(** The app [Settings] of a device build, with build steps that do
    nothing. *)
Lemma dexpreopt_path_is_the_installed_file_witness :
  let ctx := moduleContext "packages/apps/Settings" "Settings" "android_common" in
  let a := {| Privileged := Some true; Installable := Some true;
              installApkName := "" |} in
  exists dex dir e',
    generateAndroidBuildActions noSteps a ctx noEffects =
      Returned (dex, Some (dir, "Settings.apk")) e' /\
    path (outputBase dex) =
      "target/product/generic/system/priv-app/Settings/Settings.apk" /\
    path (outputBase dex) = Join [path (outputBase dir); "Settings.apk"].
Proof.
  do 3 eexists. split; [reflexivity |]. split; [reflexivity |].
  exact (dexpreopt_path_is_the_installed_file noSteps
    {| Privileged := Some true; Installable := Some true; installApkName := "" |}
    (moduleContext "packages/apps/Settings" "Settings" "android_common")
    noEffects _ _ _ _ eq_refl eq_refl eq_refl (fun _ => eq_refl) eq_refl).
Defined.

End AppDexProps.

(** ** Directories of paths *)

Module DirFacts.
Import GoStrings filepath android PathVocabulary StringFacts CleanFacts
  ValidateFacts ConstructorFacts ByteFacts JoinAlgebra.

Lemma list_ascii_sapp (a b : string) :
  list_ascii_of_string (a +:+ b) =
  list_ascii_of_string a ++ list_ascii_of_string b.
Proof.
  induction a as [|c a IH]; [reflexivity |].
  rewrite sapp_cons. cbn [list_ascii_of_string app]. now rewrite IH.
Qed.

Lemma string_of_list_app (l1 l2 : list ascii) :
  string_of_list_ascii (l1 ++ l2) =
  string_of_list_ascii l1 +:+ string_of_list_ascii l2.
Proof.
  induction l1 as [|c l1 IH]; [reflexivity |].
  cbn [app string_of_list_ascii]. now rewrite IH.
Qed.

Lemma dropLastElem_free (l rest : list ascii) :
  Forall (fun c => Ascii.eqb c slash = false) l ->
  dropLastElem (l ++ rest) = dropLastElem rest.
Proof.
  induction 1 as [|c l Hc _ IH]; [reflexivity |].
  cbn [app dropLastElem]. now rewrite Hc.
Qed.

Lemma slashFree_bytes (s : string) :
  slashFree s = true ->
  Forall (fun c => Ascii.eqb c slash = false) (rev (list_ascii_of_string s)).
Proof.
  induction s as [|c s IH]; cbn [slashFree list_ascii_of_string rev];
    [constructor |].
  intros H. apply andb_true_iff in H as [Hc Hs].
  apply Forall_app. split; [now apply IH |].
  repeat constructor. now apply negb_true_iff.
Qed.

Lemma Dir_slashFree (n : string) : slashFree n = true -> Dir n = ".".
Proof.
  intros H. unfold Dir.
  rewrite <- (app_nil_r (rev (list_ascii_of_string n))).
  rewrite dropLastElem_free by now apply slashFree_bytes.
  reflexivity.
Qed.

Lemma Dir_below (a n : string) :
  slashFree n = true -> Dir (a +:+ String slash n) = Clean (a +:+ "/").
Proof.
  intros H. unfold Dir. f_equal.
  rewrite list_ascii_sapp. cbn [list_ascii_of_string].
  rewrite rev_app_distr. cbn [rev]. rewrite <- app_assoc.
  rewrite dropLastElem_free by now apply slashFree_bytes.
  cbn [app dropLastElem]. rewrite Ascii.eqb_refl.
  cbn [rev]. rewrite rev_involutive, string_of_list_app.
  now rewrite string_of_list_ascii_of_string.
Qed.

(** The directory of a path written from proper elements: the path of
    the elements before the last. *)
Lemma Dir_renderElems (E : list string) (n : string) :
  Forall (fun x => properElem x = true) E -> properElem n = true ->
  Dir (renderElems (E ++ [n])) = renderElems E.
Proof.
  intros HE Hn. pose proof (properElem_slashFree _ Hn) as Sn.
  destruct (decide (E = [])) as [->|N]; [now apply Dir_slashFree |].
  assert (R : rooted (join (E ++ [""])) = false).
  { destruct E as [|e L]; [congruence |]. cbn [app].
    apply rooted_join_kept, properElem_kept. now inversion HE. }
  assert (E1 : renderElems (E ++ [n]) = join E +:+ String slash n).
  { unfold renderElems. destruct (E ++ [n]) eqn:X;
      [now apply app_eq_nil in X as [_ X] |].
    rewrite <- X. now rewrite join_app by (assumption || discriminate). }
  assert (E2 : renderElems E = join E) by (destruct E; [congruence | reflexivity]).
  rewrite E1, E2, Dir_below by exact Sn.
  replace (join E +:+ "/") with (join (E ++ [""]))
    by (rewrite join_app by (assumption || discriminate); reflexivity).
  rewrite Clean_relative by exact R.
  rewrite <- E2. f_equal. unfold elemsOf, cleanElems.
  rewrite split_join.
  - rewrite fold_left_app. cbn [fold_left].
    rewrite fold_cleanStep_properL by exact HE. rewrite app_nil_r.
    unfold cleanStep. cbn. apply rev_involutive.
  - now destruct E.
  - apply Forall_app. split; [now apply Forall_proper_slashFree |].
    now repeat constructor.
Qed.

Lemma no_marker_rendered (c : string) :
  validComp c = true -> Contains c "$" = false ->
  Contains (renderElems (elemsOf c)) "$" = false.
Proof.
  intros V D. rewrite Contains_byte in *.
  rewrite <- Clean_relative by now apply validComp_relative.
  destruct (hasByte "$"%char (Clean c)) eqn:E; [| reflexivity].
  apply hasByte_Clean in E; [congruence | reflexivity | reflexivity].
Qed.

End DirFacts.

Module DirProps.
Import GoStrings filepath android PathVocabulary StringFacts CleanFacts
  ValidateFacts ConstructorFacts ByteFacts JoinAlgebra DirFacts
  DerivedPathProps Examples.

(** X23. For an output path [q] whose string is an accepted component,
    one proper path element [n] and accepted components [paths] that
    are not all empty: [InSameDir] on [q] joined with [n] returns the
    file and the [Rel()] that joining [q] with [paths] returns, a
    sibling of [n] in [q]; its configuration is the one of the context. *)
Theorem InSameDir_after_Join_is_a_sibling
  (q : OutputPath) (ctx : Context) (n : string) (paths : list string)
  (e : Effects) :
  snd (validatePath [path (outputBase q)]) = None ->
  properElem n = true ->
  snd (validatePath [n]) = None ->
  snd (validatePath paths) = None ->
  Join paths <> "" ->
  exists p r s,
    OutputPath_Join q ctx [n] e = Returned p e /\
    OutputPath_InSameDir p ctx paths e = Returned r e /\
    OutputPath_Join q ctx paths e = Returned s e /\
    path (outputBase r) = path (outputBase s) /\
    rel (outputBase r) = rel (outputBase s) /\
    bpConfig (outputBase r) = config ctx.
Proof.
  intros Hq Pn Hn Hx Nx.
  destruct (single_accepted _ Hq) as [Vq Dq].
  pose proof (validatePath_None_valid _ Hx) as Vx.
  pose proof (Join_valid_validComp _ Vx) as VJ.
  pose proof (validComp_proper _ Vq) as PE.
  pose proof (validComp_proper_elem _ Pn) as Vn.
  assert (Jn : Join [n] = n).
  { rewrite Join_single by (intros ->; discriminate).
    change n with (renderElems [n]). apply Clean_renderElems. now constructor. }
  assert (Dx : Contains (Join paths) "$" = false).
  { pose proof (validatePath_no_marker paths) as D.
    now rewrite (validatePath_None _ Hx) in D. }
  assert (Ep : Join [path (outputBase q); n] =
               renderElems (elemsOf (path (outputBase q)) ++ [n])).
  { rewrite Join_valid_render.
    - cbn [flat_map]. now rewrite app_nil_r, (elemsOf_proper_elem _ Pn).
    - now repeat constructor.
    - cbn [flat_map]. rewrite (elemsOf_proper_elem _ Pn).
      now destruct (elemsOf (path (outputBase q))). }
  assert (Ed : Dir (Join [path (outputBase q); n]) =
               renderElems (elemsOf (path (outputBase q))))
    by (rewrite Ep; now apply Dir_renderElems).
  assert (En : Dir n = ".")
    by (apply Dir_slashFree; now apply properElem_slashFree).
  assert (Vr : validComp (renderElems (elemsOf (path (outputBase q)))) = true)
    by now apply validComp_renderElems.
  assert (EV : validatePath [renderElems (elemsOf (path (outputBase q)));
                             Join paths] =
               (Join [renderElems (elemsOf (path (outputBase q))); Join paths],
                None)).
  { apply validatePath_of_valid; [now repeat constructor |].
    cbn [existsb]. now rewrite no_marker_rendered, Dx. }
  unfold OutputPath_Join, OutputPath_InSameDir, PathForOutput.
  rewrite (validatePath_None _ Hn), (validatePath_None _ Hx), Jn.
  unfold bind. cbn [reportIfError skip]. unfold ret.
  exists (OutputPath_withRel q n). do 2 eexists. split; [reflexivity |].
  cbn [path rel bpConfig outputBase OutputPath_withRel basePath_withRel].
  rewrite Ed, En, EV. cbn [reportIfError skip]. unfold ret.
  split; [reflexivity |]. split; [reflexivity |].
  cbn [path rel bpConfig outputBase OutputPath_withRel basePath_withRel].
  split; [| split; [| reflexivity]].
  - apply Join_determined.
    + now repeat constructor.
    + now repeat constructor.
    + cbn [flat_map]. now rewrite elemsOf_renderElems.
    + rewrite !Join_eq_empty. split; intros H; exfalso; apply Nx;
        exact (Forall_inv (Forall_inv_tail H)).
  - transitivity (Join [Join paths]).
    + apply Join_determined.
      * now repeat constructor.
      * now repeat constructor.
      * reflexivity.
      * rewrite !Join_eq_empty. split; intros H; exfalso; apply Nx.
        -- exact (Forall_inv (Forall_inv_tail H)).
        -- exact (Forall_inv H).
    + rewrite Join_single by exact Nx.
      destruct (Join_contained _ Vx) as [_ [E|E]]; [contradiction | exact E].
Qed.

Lemma InSameDir_after_Join_is_a_sibling_witness :
  exists p r s,
    OutputPath_Join (outputPath "soong/host") testPathContext ["tool"] noEffects =
      Returned p noEffects /\
    OutputPath_InSameDir p testPathContext ["lib"; "x.so"] noEffects =
      Returned r noEffects /\
    OutputPath_Join (outputPath "soong/host") testPathContext ["lib"; "x.so"]
      noEffects = Returned s noEffects /\
    path (outputBase r) = path (outputBase s) /\
    rel (outputBase r) = rel (outputBase s) /\
    bpConfig (outputBase r) = config testPathContext.
Proof.
  apply (InSameDir_after_Join_is_a_sibling (outputPath "soong/host")
           testPathContext "tool" ["lib"; "x.so"] noEffects);
    try reflexivity. discriminate.
Defined.

End DirProps.

(** ** Module sources named by full paths *)

Module FullPathProps.
Import GoStrings filepath android PathVocabulary StringFacts CleanFacts
  ValidateFacts ConstructorFacts ModulePathFacts DerivedPathProps Examples.

Lemma HasPrefix_length (s prefix : string) :
  HasPrefix s prefix = true -> String.length prefix <= String.length s.
Proof.
  revert s; induction prefix as [|c prefix IH]; intros s H; cbn [String.length];
    [lia |].
  destruct s as [|d s]; [discriminate |]. cbn [HasPrefix] in H.
  destruct (Ascii.eqb d c); [| discriminate].
  cbn [String.length]. apply IH in H. lia.
Qed.

Lemma safePathForSource_local ctx local sp :
  validComp (ModuleDir ctx) = true ->
  safePathForSource ctx [ModuleDir ctx; local] = (sp, None) ->
  inside (ModuleDir ctx) (path (sourceBase sp)).
Proof.
  intros Vd. unfold safePathForSource, validateSafePath.
  destruct (validateSafeLoop [ModuleDir ctx; local]) eqn:E; [discriminate |].
  apply validateSafeLoop_None in E.
  pose proof (Forall_inv (Forall_inv_tail E)) as Vl. cbv beta in Vl.
  match goal with |- context [if ?b then _ else _] => destruct b end;
    [discriminate |].
  intros [= <-]. cbn [path sourceBase]. now apply validComp_inside.
Qed.

Lemma fromFullPathLoop_spec ctx prefix incDirs paths :
  canReport ctx = true -> validComp (ModuleDir ctx) = true ->
  forall made e,
    Forall (localSource ctx) made ->
    exists ps e',
      fromFullPathLoop ctx prefix incDirs paths made e = Returned ps e' /\
      Forall (localSource ctx) ps /\
      List.length ps <= List.length made + List.length paths.
Proof.
  intros HR Vd. induction paths as [|p rest IH]; intros made e Hm;
    cbn [fromFullPathLoop List.length].
  - exists made, e. split; [reflexivity |]. split; [exact Hm | lia].
  - destruct (negb incDirs && HasSuffix p "/").
    { destruct (IH made e Hm) as (ps & e' & -> & H1 & H2).
      exists ps, e'. split; [reflexivity |]. split; [exact H1 | lia]. }
    destruct (HasPrefix (Clean p) prefix) eqn:HP; cbn [negb].
    + unfold sliceFrom.
      rewrite (proj2 (Nat.leb_le _ _) (HasPrefix_length _ _ HP)).
      destruct (safePathForSource ctx _) as [sp [err|]] eqn:ES.
      * unfold bind, reportPathError.
        destruct (report_returns ctx err e HR) as [e1 ->].
        destruct (IH made e1 Hm) as (ps & e' & -> & H1 & H2).
        exists ps, e'. split; [reflexivity |]. split; [exact H1 | lia].
      * destruct (IH (made ++ [PathModuleSrc
                   {| moduleSrcSource :=
                        {| sourceBase :=
                             {| path := path (sourceBase sp);
                                bpConfig := bpConfig (sourceBase sp);
                                rel := path (sourceBase sp) |} |} |}]) e)
          as (ps & e' & -> & H1 & H2).
        { apply Forall_app. split; [exact Hm |]. repeat constructor.
          eexists. split; [reflexivity |]. split; [reflexivity |].
          cbn [path sourceBase moduleSrcSource].
          exact (safePathForSource_local ctx _ sp Vd ES). }
        exists ps, e'. split; [reflexivity |]. split; [exact H1 |].
        rewrite length_app in H2. cbn [List.length] in H2. lia.
    + unfold bind.
      match goal with
      | |- context [reportPathErrorf ctx ?m e] =>
          destruct (report_returns ctx m e HR) as [e1 ->]
      end.
      destruct (IH made e1 Hm) as (ps & e' & -> & H1 & H2).
      exists ps, e'. split; [reflexivity |]. split; [exact H1 | lia].
Qed.

Lemma fromFullPathLoop_dirs ctx prefix paths :
  forall made e,
    fromFullPathLoop ctx prefix false paths made e =
    fromFullPathLoop ctx prefix true
      (List.filter (fun p => negb (HasSuffix p "/")) paths) made e.
Proof.
  induction paths as [|p rest IH]; intros made e; [reflexivity |].
  cbn [fromFullPathLoop List.filter negb andb].
  destruct (HasSuffix p "/"); cbn [negb]; [apply IH |].
  cbn [fromFullPathLoop negb andb].
  destruct (negb (HasPrefix (Clean p) prefix)).
  - unfold bind. destruct (reportPathErrorf ctx _ e); [apply IH | reflexivity].
  - destruct (sliceFrom (Clean p) (String.length prefix)); [| reflexivity].
    destruct (safePathForSource ctx _) as [sp [err|]]; [| apply IH].
    unfold bind. destruct (reportPathError ctx err e); [apply IH | reflexivity].
Qed.

(** X24. In a context that can report errors and whose module directory
    is a valid component, [pathsForModuleSrcFromFullPath] returns for
    any strings, without a slice out of range; it returns at most one
    path for each string, and every path it returns is a module source
    path that lies inside the module directory and whose [Rel()] is its
    whole path.  Leaving the directories out is the same as dropping
    the strings with a trailing separator beforehand. *)
Theorem full_paths_stay_in_module_dir
  (ctx : Context) (paths : list string) (incDirs : bool) (e : Effects) :
  canReport ctx = true -> validComp (ModuleDir ctx) = true ->
  (exists ps e',
     pathsForModuleSrcFromFullPath ctx paths incDirs e = Returned ps e' /\
     Forall (localSource ctx) ps /\
     List.length ps <= List.length paths) /\
  pathsForModuleSrcFromFullPath ctx paths false e =
    pathsForModuleSrcFromFullPath ctx
      (List.filter (fun p => negb (HasSuffix p "/")) paths) true e.
Proof.
  intros HR Vd. split.
  - unfold pathsForModuleSrcFromFullPath.
    destruct (fromFullPathLoop_spec ctx
                (if String.eqb (Join [srcDir (config ctx); ModuleDir ctx] +:+ "/") "./"
                 then "" else Join [srcDir (config ctx); ModuleDir ctx] +:+ "/")
                incDirs paths HR Vd [] e) as (ps & e' & H & H1 & H2);
      [constructor |].
    exists ps, e'. split; [exact H |]. split; [exact H1 | exact H2].
  - apply fromFullPathLoop_dirs.
Qed.

Lemma full_paths_stay_in_module_dir_witness :
  (exists ps e',
     pathsForModuleSrcFromFullPath (moduleContext "art" "libart" "android_arm64")
       ["art/a.cc"; "art/sub/"; "bionic/b.c"; "art/../x"] false noEffects =
       Returned ps e' /\
     Forall (localSource (moduleContext "art" "libart" "android_arm64")) ps /\
     List.length ps <=
       List.length ["art/a.cc"; "art/sub/"; "bionic/b.c"; "art/../x"]) /\
  pathsForModuleSrcFromFullPath (moduleContext "art" "libart" "android_arm64")
    ["art/a.cc"; "art/sub/"; "bionic/b.c"; "art/../x"] false noEffects =
  pathsForModuleSrcFromFullPath (moduleContext "art" "libart" "android_arm64")
    (List.filter (fun p => negb (HasSuffix p "/"))
       ["art/a.cc"; "art/sub/"; "bionic/b.c"; "art/../x"]) true noEffects.
Proof.
  apply (full_paths_stay_in_module_dir
           (moduleContext "art" "libart" "android_arm64")
           ["art/a.cc"; "art/sub/"; "bionic/b.c"; "art/../x"] false noEffects);
    reflexivity.
Defined.

End FullPathProps.
